(** * Darth Invader: the scenario simulation engine

    A shallow embedding of [utils.js] (SeededRandom, Node, Packet) and of the
    attack simulation engine (SCENARIOS, AttackSimulation and its four
    subclasses, SimulationFactory), followed by the properties of the
    engine.

    JavaScript numbers are IEEE 754 binary64 values: they are embedded as
    Rocq's primitive floats, so [+], [*], [/], [<] and [>=] below are the
    operations the engine executes, rounding included.  Counters that only
    ever hold small naturals ([packetsSent], [packetIdCounter], array
    lengths, loop indices over scenario counts) are embedded as [N].
    [Math.sin] and [Math.cos] are implementation-approximated in ECMAScript;
    they are parameters of the development. *)

From Stdlib Require Import String Ascii DecimalString.
From Stdlib Require Import ZArith NArith QArith Bool List Lia Floats.
Import ListNotations.

Set Warnings "-inexact-float".

(** ** JavaScript numbers *)

Module Num.

Definition of_N (n : N) : float :=
  PrimFloat.of_uint63 (Uint63.of_Z (Z.of_N n)).

Definition of_Z (z : Z) : float :=
  if (z <? 0)%Z then (- of_N (Z.abs_N z))%float else of_N (Z.to_N z).

(** [ToNumber(undefined)] is [NaN]. *)
Definition of_undefined (o : option float) : float :=
  match o with Some v => v | None => nan end.

Definition Math_PI : float := 3.141592653589793%float.

(** [Math.floor]: a finite value with a negative exponent can have a
    fractional part, which floor division of the signed mantissa drops (the
    quotient is 0 only for a value in (0, 1), whose floor is [+0]); every
    other value is its own floor. *)
Definition Math_floor (x : float) : float :=
  match Prim2SF x with
  | S754_finite s m e =>
      if (0 <=? e)%Z then x
      else
        let q := ((if s then Z.neg m else Z.pos m) / 2 ^ (- e))%Z in
        if (q =? 0)%Z then 0%float else of_Z q
  | _ => x
  end.

Definition Math_ceil (x : float) : float := (- Math_floor (- x))%float.

Definition Math_sqrt (x : float) : float := PrimFloat.sqrt x.

Definition is_neg_zero (x : float) : bool :=
  match Prim2SF x with S754_zero true => true | _ => false end.

(** [Math.min] of two numbers: [NaN] if either is; [-0] is below [+0]. *)
Definition Math_min (a b : float) : float :=
  if is_nan a || is_nan b then nan
  else if (a <? b)%float then a
  else if (b <? a)%float then b
  else if is_neg_zero a then a else b.

(** The array index a number denotes as a property key, if any: [a[1.5]],
    [a[-1]] and [a[NaN]] name no element. *)
Definition array_index (f : float) : option N :=
  match Prim2SF f with
  | S754_zero _ => Some 0%N
  | S754_finite false m e =>
      if (0 <=? e)%Z then Some (N.pos m * 2 ^ Z.to_N e)%N
      else if (Z.pos m mod 2 ^ (- e) =? 0)%Z
           then Some (Z.to_N (Z.pos m / 2 ^ (- e)))
           else None
  | _ => None
  end.

(** [array[f]]: [undefined] out of range. *)
Definition js_nth {A : Type} (array : list A) (f : float) : option A :=
  match array_index f with
  | Some i =>
      if (i <? N.of_nat (length array))%N
      then nth_error array (N.to_nat i) else None
  | None => None
  end.

(** [a % b] on the whole numbers the engine applies it to ([i % gridSize]
    with a positive [gridSize]); [NaN] elsewhere, as for [b = 0]. *)
Definition rem (a b : float) : float :=
  match array_index a, array_index b with
  | Some n, Some m => if (0 <? m)%N then of_N (n mod m) else nan
  | _, _ => nan
  end.


(** Template-literal rendering of a whole number. *)
Definition to_string (n : N) : string :=
  NilEmpty.string_of_uint (N.to_uint n).

End Num.

(** ** Completions and the state monad of the embedding

    A method call either returns, or throws (the engine's only exception is
    the [TypeError] of a property read on [undefined]), or is cut off when
    the fuel granted to its [for] loop runs out.  The state at that point
    is kept in every case: an exception does not undo mutations. *)

Inductive exn : Type := TypeError.

Inductive completion (A : Type) : Type :=
| Normal (a : A)
| Throw (e : exn)
| Exhausted.

Arguments Normal {A} a.
Arguments Throw {A} e.
Arguments Exhausted {A}.

Definition JS (S A : Type) : Type := S -> completion A * S.

Module JSMonad.

Definition ret {S A : Type} (a : A) : JS S A := fun s => (Normal a, s).

Definition bind {S A B : Type} (m : JS S A) (k : A -> JS S B) : JS S B :=
  fun s =>
    match m s with
    | (Normal a, s') => k a s'
    | (Throw e, s') => (Throw e, s')
    | (Exhausted, s') => (Exhausted, s')
    end.

Definition throw {S A : Type} (e : exn) : JS S A := fun s => (Throw e, s).

Definition get {S : Type} : JS S S := fun s => (Normal s, s).

Definition modify {S : Type} (f : S -> S) : JS S unit :=
  fun s => (Normal tt, f s).

Definition exec {S A : Type} (m : JS S A) (s : S) : S := snd (m s).

End JSMonad.

Import JSMonad.

Declare Scope js_scope.
Delimit Scope js_scope with js.
Notation "x <- m ;; k" := (bind m (fun x => k))
  (at level 61, m at next level, right associativity) : js_scope.
Notation "m ;; k" := (bind m (fun _ => k))
  (at level 61, right associativity) : js_scope.

(** ** utils.js: SeededRandom *)

Module SeededRandom.

Record t : Type := mk { seed : float; originalSeed : float }.

Definition new (s : float) : t := {| seed := s; originalSeed := s |}.

Definition reset (r : t) : t :=
  {| seed := originalSeed r; originalSeed := originalSeed r |}.

Definition setSeed (newSeed : float) (r : t) : t :=
  {| seed := newSeed; originalSeed := newSeed |}.

Section WithMath.
Variable Math_sin : float -> float.

(** [const x = Math.sin(this.seed++) * 10000; return x - Math.floor(x)] *)
Definition next : JS t float :=
  fun r =>
    let x := (Math_sin (seed r) * 10000)%float in
    (Normal (x - Num.Math_floor x)%float,
     {| seed := (seed r + 1)%float; originalSeed := originalSeed r |}).

Definition range (min max : float) : JS t float :=
  (d <- next ;; ret (min + d * (max - min))%float)%js.

Definition int (min max : float) : JS t float :=
  (v <- range min (max + 1)%float ;; ret (Num.Math_floor v))%js.

(** [array[this.int(0, array.length - 1)]]; [None] is [undefined]. *)
Definition choice {A : Type} (array : list A) : JS t (option A) :=
  (i <- int 0%float (Num.of_N (N.of_nat (length array)) - 1)%float ;;
   ret (Num.js_nth array i))%js.

(** The completions of the first [n] calls of [next()]. *)
Fixpoint outputs (n : nat) (r : t) : list (completion float) :=
  match n with
  | O => []
  | S k => fst (next r) :: outputs k (snd (next r))
  end.

(** The calls a client can make on a generator, [setSeed] apart. *)
Inductive call : Type :=
| CallNext
| CallRange (min max : float)
| CallInt (min max : float)
| CallChoice (length : nat)
| CallReset.

Definition perform (c : call) (r : t) : t :=
  match c with
  | CallNext => exec next r
  | CallRange a b => exec (range a b) r
  | CallInt a b => exec (int a b) r
  | CallChoice n => exec (choice (repeat tt n)) r
  | CallReset => reset r
  end.

Definition perform_all (cs : list call) (r : t) : t :=
  fold_left (fun r c => perform c r) cs r.

End WithMath.

End SeededRandom.

(** ** utils.js: Node *)

Module Node.

Inductive kind : Type := server | client | attacker | firewall.

Definition kind_eqb (a b : kind) : bool :=
  match a, b with
  | server, server | client, client
  | attacker, attacker | firewall, firewall => true
  | _, _ => false
  end.

Record t : Type := mk {
  id : string;
  type : kind;
  x : float;
  y : float;
  radius : float;
  pulsePhase : float;
  connections : list string
}.

(** The constructor; [random] is the value [Math.random()] returns to it. *)
Definition new (random : float) (id : string) (type : kind)
  (x y radius : float) : t :=
  {| id := id; type := type; x := x; y := y; radius := radius;
     pulsePhase := (random * Num.Math_PI * 2)%float;
     connections := [] |}.

(** [node.connections.push(...ids)] *)
Definition connect (ids : list string) (n : t) : t :=
  {| id := id n; type := type n; x := x n; y := y n; radius := radius n;
     pulsePhase := pulsePhase n;
     connections := connections n ++ ids |}.

(** [nodes.find(n => n.id === name)] *)
Definition find_id (name : string) (nodes : list t) : option t :=
  List.find (fun n => String.eqb (id n) name) nodes.

Definition of_type (k : kind) (nodes : list t) : list t :=
  List.filter (fun n => kind_eqb (type n) k) nodes.

End Node.

(** ** utils.js: MathUtils and Packet *)

Module MathUtils.

Definition lerp (start stop t : float) : float :=
  (start + (stop - start) * t)%float.

End MathUtils.

Module Packet.

Inductive kind : Type := normal | attack | blocked.

Definition kind_eqb (a b : kind) : bool :=
  match a, b with
  | normal, normal | attack, attack | blocked, blocked => true
  | _, _ => false
  end.

Record point : Type := mk_point { px : float; py : float; alpha : float }.

(** [source] is read by the constructor, so a constructed packet has one;
    [target] is first read by [update] and may be [undefined]. *)
Record t : Type := mk {
  id : N;
  source : Node.t;
  target : option Node.t;
  type : kind;
  speed : float;
  progress : float;
  x : float;
  y : float;
  active : bool;
  trail : list point
}.

(** [new Packet(id, source, target, type, speed)]: [source.x] throws on an
    [undefined] source. *)
Definition new (id : N) (source target : option Node.t) (type : kind)
  (speed : float) : completion t :=
  match source with
  | None => Throw TypeError
  | Some src =>
      Normal {| id := id; source := src; target := target; type := type;
                speed := speed; progress := 0%float;
                x := Node.x src; y := Node.y src;
                active := true; trail := [] |}
  end.

Definition set_progress (v : float) (p : t) : t :=
  {| id := id p; source := source p; target := target p; type := type p;
     speed := speed p; progress := v; x := x p; y := y p;
     active := active p; trail := trail p |}.

Definition set_active (b : bool) (p : t) : t :=
  {| id := id p; source := source p; target := target p; type := type p;
     speed := speed p; progress := progress p; x := x p; y := y p;
     active := b; trail := trail p |}.

Definition set_type (k : kind) (p : t) : t :=
  {| id := id p; source := source p; target := target p; type := k;
     speed := speed p; progress := progress p; x := x p; y := y p;
     active := active p; trail := trail p |}.

Definition move (x' y' : float) (tr : list point) (p : t) : t :=
  {| id := id p; source := source p; target := target p; type := type p;
     speed := speed p; progress := progress p; x := x' ; y := y';
     active := active p; trail := tr |}.

(** [this.trail.push(pt); if (this.trail.length > 10) this.trail.shift()] *)
Definition push_trail (pt : point) (tr : list point) : list point :=
  let tr' := tr ++ [pt] in
  if (10 <? length tr')%nat then tl tr' else tr'.

(** [update()]: the returned boolean is what [filter] keeps the packet on;
    the packet returned is the object after the call, also when the read of
    [this.target.x] throws. *)
Definition update (p : t) : completion bool * t :=
  if negb (active p) then (Normal false, p)
  else
    let p1 := set_progress (progress p + speed p * 0.01)%float p in
    if (1 <=? progress p1)%float then (Normal false, set_active false p1)
    else
      let t := progress p1 in
      let ease :=
        (if t <? 0.5 then 2 * t * t else (-1) + (4 - 2 * t) * t)%float in
      match target p1 with
      | None => (Throw TypeError, p1)
      | Some tgt =>
          let x' := MathUtils.lerp (Node.x (source p1)) (Node.x tgt) ease in
          let y' := MathUtils.lerp (Node.y (source p1)) (Node.y tgt) ease in
          (Normal true,
           move x' y'
             (push_trail {| px := x'; py := y'; alpha := 1%float |} (trail p1))
             p1)
      end.

(** [packets.filter(packet => packet.update())]: the first component is the
    array [filter] returns; the second holds the objects of the original
    array after the calls made, which is what [this.packets] still refers
    to when a call throws. *)
Fixpoint sweep (ps : list t) : completion (list t) * list t :=
  match ps with
  | [] => (Normal [], [])
  | p :: rest =>
      match update p with
      | (Normal keep, p') =>
          let (c, rest') := sweep rest in
          (match c with
           | Normal kept => Normal (if keep then p' :: kept else kept)
           | Throw e => Throw e
           | Exhausted => Exhausted
           end, p' :: rest')
      | (Throw e, p') => (Throw e, p' :: rest)
      | (Exhausted, p') => (Exhausted, p' :: rest)
      end
  end.

End Packet.

(** ** The scenario table

    Of a scenario definition the engine reads [attackers],
    [legitimateClients], [nodes], [packetsPerSecond] and [blockRate]; a
    field a definition does not have reads as [undefined] ([None]).  The
    display fields ([name], [description], [nodeLayout], ...) are not read
    by the engine and are left out. *)

Module Scenario.

Record t : Type := mk {
  attackers : option N;
  legitimateClients : option N;
  nodes : option N;
  packetsPerSecond : option float;
  blockRate : option float
}.

Definition ddos : t :=
  {| attackers := Some 30%N; legitimateClients := None; nodes := None;
     packetsPerSecond := Some 100%float; blockRate := None |}.

Definition mitm : t :=
  {| attackers := Some 1%N; legitimateClients := None; nodes := None;
     packetsPerSecond := Some 20%float; blockRate := None |}.

Definition firewall : t :=
  {| attackers := Some 10%N; legitimateClients := Some 5%N; nodes := None;
     packetsPerSecond := Some 50%float; blockRate := Some 0.8%float |}.

Definition arpSpoof : t :=
  {| attackers := None; legitimateClients := None; nodes := Some 8%N;
     packetsPerSecond := Some 30%float; blockRate := None |}.

(** [SCENARIOS] is an object literal, so a read of [SCENARIOS[name]] that
    finds no own property continues in [Object.prototype].  Its members are
    functions (and, for [__proto__], the prototype object itself): truthy
    values on which every field above is [undefined]. *)
Definition Object_prototype_member : t :=
  {| attackers := None; legitimateClients := None; nodes := None;
     packetsPerSecond := None; blockRate := None |}.

Definition Object_prototype_keys : list string :=
  [ "constructor"; "__defineGetter__"; "__defineSetter__"; "hasOwnProperty";
    "__lookupGetter__"; "__lookupSetter__"; "isPrototypeOf";
    "propertyIsEnumerable"; "toString"; "valueOf"; "__proto__";
    "toLocaleString" ]%string.

Definition own_keys : list string :=
  [ "ddos"; "mitm"; "firewall"; "arpSpoof" ]%string.

(** [SCENARIOS[name]]; [None] is [undefined]. *)
Definition SCENARIOS (name : string) : option t :=
  if String.eqb name "ddos" then Some ddos
  else if String.eqb name "mitm" then Some mitm
  else if String.eqb name "firewall" then Some firewall
  else if String.eqb name "arpSpoof" then Some arpSpoof
  else if existsb (String.eqb name) Object_prototype_keys
       then Some Object_prototype_member
       else None.

(** The values [0, 1, ..., n-1] of [for (let i = 0; i < n; i++)]; the
    test [i < undefined] fails at once. *)
Definition indices (n : option N) : list N :=
  match n with
  | Some k => map N.of_nat (seq 0 (N.to_nat k))
  | None => []
  end.

(** A count read in a numeric context. *)
Definition number (n : option N) : float :=
  Num.of_undefined (option_map Num.of_N n).

(** [a + b] on counts. *)
Definition sum (a b : option N) : option N :=
  match a, b with
  | Some x, Some y => Some (x + y)%N
  | _, _ => None
  end.

(** [i < n] on counts. *)
Definition below (i : N) (n : option N) : bool :=
  match n with Some k => (i <? k)%N | None => false end.

End Scenario.

(** ** AttackSimulation and its subclasses *)

Module AttackSimulation.

Inductive class : Type :=
| DDoSAttack | MITMAttack | FirewallAttack | ARPSpoofAttack.

Record Metrics : Type := mk_metrics {
  packetsSent : N;
  packetsReceived : N;
  packetsDropped : N;
  packetsBlocked : N;
  serverLoad : float;
  latency : float
}.

(** The callbacks the engine hands to [setTimeout], with what each closure
    captured.  A packet object captured by a closure is named by its id. *)
Inductive callback : Type :=
| Relay (from to : option Node.t) (type : Packet.kind) (speed : float)
| FirewallDecision (packet : N) (isAttack : bool) (packetType : Packet.kind)
    (firewall server : option Node.t).

(** The fields of the object, and [timers]: the callbacks this simulation
    has scheduled that have not fired yet, oldest first (all timers of one
    simulation have the same delay, so they fire in that order). *)
Record t : Type := mk {
  class_of : class;
  scenario : Scenario.t;
  rng : SeededRandom.t;
  canvasWidth : float;
  canvasHeight : float;
  nodes : list Node.t;
  packets : list Packet.t;
  metrics : Metrics;
  time : float;
  packetIdCounter : N;
  timers : list callback
}.

Definition set_rng (r : SeededRandom.t) (s : t) : t :=
  mk (class_of s) (scenario s) r (canvasWidth s) (canvasHeight s) (nodes s)
     (packets s) (metrics s) (time s) (packetIdCounter s) (timers s).

Definition set_nodes (ns : list Node.t) (s : t) : t :=
  mk (class_of s) (scenario s) (rng s) (canvasWidth s) (canvasHeight s) ns
     (packets s) (metrics s) (time s) (packetIdCounter s) (timers s).

Definition set_packets (ps : list Packet.t) (s : t) : t :=
  mk (class_of s) (scenario s) (rng s) (canvasWidth s) (canvasHeight s)
     (nodes s) ps (metrics s) (time s) (packetIdCounter s) (timers s).

Definition set_metrics (m : Metrics) (s : t) : t :=
  mk (class_of s) (scenario s) (rng s) (canvasWidth s) (canvasHeight s)
     (nodes s) (packets s) m (time s) (packetIdCounter s) (timers s).

Definition set_time (v : float) (s : t) : t :=
  mk (class_of s) (scenario s) (rng s) (canvasWidth s) (canvasHeight s)
     (nodes s) (packets s) (metrics s) v (packetIdCounter s) (timers s).

Definition set_packetIdCounter (n : N) (s : t) : t :=
  mk (class_of s) (scenario s) (rng s) (canvasWidth s) (canvasHeight s)
     (nodes s) (packets s) (metrics s) (time s) n (timers s).

Definition set_timers (q : list callback) (s : t) : t :=
  mk (class_of s) (scenario s) (rng s) (canvasWidth s) (canvasHeight s)
     (nodes s) (packets s) (metrics s) (time s) (packetIdCounter s) q.

Definition sent_incr (m : Metrics) : Metrics :=
  mk_metrics (N.succ (packetsSent m)) (packetsReceived m) (packetsDropped m)
             (packetsBlocked m) (serverLoad m) (latency m).

Definition received_incr (m : Metrics) : Metrics :=
  mk_metrics (packetsSent m) (N.succ (packetsReceived m)) (packetsDropped m)
             (packetsBlocked m) (serverLoad m) (latency m).

Definition dropped_incr (m : Metrics) : Metrics :=
  mk_metrics (packetsSent m) (packetsReceived m) (N.succ (packetsDropped m))
             (packetsBlocked m) (serverLoad m) (latency m).

Definition blocked_incr (m : Metrics) : Metrics :=
  mk_metrics (packetsSent m) (packetsReceived m) (packetsDropped m)
             (N.succ (packetsBlocked m)) (serverLoad m) (latency m).

Definition set_load (load lat : float) (m : Metrics) : Metrics :=
  mk_metrics (packetsSent m) (packetsReceived m) (packetsDropped m)
             (packetsBlocked m) load lat.

(** [new Class(scenario, rng, canvasWidth, canvasHeight)] *)
Definition construct (c : class) (sc : Scenario.t) (r : SeededRandom.t)
  (w h : float) : t :=
  {| class_of := c; scenario := sc; rng := r;
     canvasWidth := w; canvasHeight := h;
     nodes := []; packets := [];
     metrics := mk_metrics 0 0 0 0 0%float 0%float;
     time := 0%float; packetIdCounter := 0%N; timers := [] |}.

(** [getMetrics()] returns a copy of the record. *)
Definition getMetrics (s : t) : Metrics := metrics s.

(** [for (let i = 0; i < bound; i++) body], the index a number as in the
    source; [fuel] bounds the number of tests of the loop condition. *)
Fixpoint for_lt {S : Type} (fuel : nat) (i bound : float) (body : JS S unit)
  : JS S unit :=
  match fuel with
  | O => fun s => (Exhausted, s)
  | Datatypes.S f =>
      if (i <? bound)%float
      then (body ;; for_lt f (i + 1)%float bound body)%js
      else ret tt
  end.

(** [(intensity / 100) * this.scenario.packetsPerSecond * 0.016] *)
Definition packetsThisFrame (sc : Scenario.t) (intensity : float) : float :=
  ((intensity / 100) * Num.of_undefined (Scenario.packetsPerSecond sc)
   * 0.016)%float.

(** The array with [f] applied to the object at index [i]. *)
Fixpoint map_at {A : Type} (i : nat) (f : A -> A) (l : list A) : list A :=
  match l, i with
  | [], _ => []
  | x :: rest, O => f x :: rest
  | x :: rest, Datatypes.S k => x :: map_at k f rest
  end.

(** [this.packets.filter(p => p.active).length] *)
Definition activePackets (s : t) : float :=
  Num.of_N (N.of_nat (length (filter Packet.active (packets s)))).

Section Engine.

Variables Math_sin Math_cos : float -> float.

(** *** Calls on [this.rng] *)

Definition on_rng {A : Type} (m : JS SeededRandom.t A) : JS t A :=
  fun s => let (c, r) := m (rng s) in (c, set_rng r s).

Definition rng_next : JS t float := on_rng (SeededRandom.next Math_sin).

Definition rng_range (min max : float) : JS t float :=
  on_rng (SeededRandom.range Math_sin min max).

Definition rng_choice {A : Type} (array : list A) : JS t (option A) :=
  on_rng (SeededRandom.choice Math_sin array).

(** *** The base class *)

(** [createPacket]: the argument [this.packetIdCounter++] is evaluated
    before the constructor runs. *)
Definition createPacket (source target : option Node.t)
  (type : Packet.kind) (speed : float) : JS t Packet.t :=
  fun s =>
    let s1 := set_packetIdCounter (N.succ (packetIdCounter s)) s in
    match Packet.new (packetIdCounter s) source target type speed with
    | Normal p =>
        (Normal p,
         set_metrics (sent_incr (metrics s1))
           (set_packets (packets s1 ++ [p]) s1))
    | Throw e => (Throw e, s1)
    | Exhausted => (Exhausted, s1)
    end.

(** [setTimeout(callback, delay)] *)
Definition setTimeout (cb : callback) : JS t unit :=
  modify (fun s => set_timers (timers s ++ [cb]) s).

(** *** initialize()

    [randoms k] is what the [k]-th call of [Math.random()] made by the
    [Node] constructors of this simulation returns. *)

Definition initialize_DDoS (randoms : nat -> float) (s : t) : t :=
  let w := canvasWidth s in
  let h := canvasHeight s in
  let serverNode :=
    Node.new (randoms O) "server" Node.server (w / 2)%float (h / 2)%float
      40%float in
  let attackerCount := Scenario.attackers (scenario s) in
  let radius := (Num.Math_min w h * 0.35)%float in
  let attacker (i : N) :=
    let angle :=
      ((Num.of_N i / Scenario.number attackerCount) * Num.Math_PI * 2)%float in
    let x := (w / 2 + Math_cos angle * radius)%float in
    let y := (h / 2 + Math_sin angle * radius)%float in
    Node.connect ["server"%string]
      (Node.new (randoms (Datatypes.S (N.to_nat i)))
         ("attacker-" ++ Num.to_string i) Node.attacker x y 15%float) in
  set_nodes
    (nodes s ++ serverNode :: map attacker (Scenario.indices attackerCount)) s.

Definition initialize_MITM (randoms : nat -> float) (s : t) : t :=
  let w := canvasWidth s in
  let h := canvasHeight s in
  let client1 :=
    Node.new (randoms 0%nat) "client1" Node.client (w * 0.25)%float
      (h / 2)%float 25%float in
  let client2 :=
    Node.new (randoms 1%nat) "client2" Node.client (w * 0.75)%float
      (h / 2)%float 25%float in
  let attacker :=
    Node.new (randoms 2%nat) "attacker" Node.attacker (w / 2)%float
      (h / 2)%float 30%float in
  set_nodes
    (nodes s ++
     [ Node.connect ["attacker"%string] client1;
       Node.connect ["client1"; "client2"]%string attacker;
       Node.connect ["attacker"%string] client2 ]) s.

(** The loop of the firewall scenario draws one [rng.range(-50, 50)] per
    node, in order. *)
Fixpoint firewall_clients (randoms : nat -> float) (w h : float)
  (sc : Scenario.t) (idx : list N) : JS SeededRandom.t (list Node.t) :=
  match idx with
  | [] => ret []
  | i :: rest =>
      let totalNodes :=
        Scenario.sum (Scenario.attackers sc) (Scenario.legitimateClients sc) in
      let isAttacker := Scenario.below i (Scenario.attackers sc) in
      (d <- SeededRandom.range Math_sin (-50)%float 50%float ;;
       let x := (w * 0.15 + d)%float in
       let y :=
         ((Num.of_N i / Scenario.number totalNodes) * h * 0.8 + h * 0.1)%float in
       let node :=
         Node.connect ["firewall"%string]
           (Node.new (randoms (2 + N.to_nat i)%nat)
              ("node-" ++ Num.to_string i)
              (if isAttacker then Node.attacker else Node.client)
              x y 15%float) in
       ns <- firewall_clients randoms w h sc rest ;;
       ret (node :: ns))%js
  end.

(** The generator does not throw, so the loop always delivers its nodes. *)
Definition initialize_Firewall (randoms : nat -> float) (s : t) : t :=
  let w := canvasWidth s in
  let h := canvasHeight s in
  let server :=
    Node.new (randoms 0%nat) "server" Node.server (w * 0.75)%float
      (h / 2)%float 35%float in
  let firewall :=
    Node.connect ["server"%string]
      (Node.new (randoms 1%nat) "firewall" Node.firewall (w / 2)%float
         (h / 2)%float 30%float) in
  let totalNodes :=
    Scenario.sum (Scenario.attackers (scenario s))
                 (Scenario.legitimateClients (scenario s)) in
  match firewall_clients randoms w h (scenario s)
          (Scenario.indices totalNodes) (rng s) with
  | (Normal ns, r) =>
      set_rng r (set_nodes (nodes s ++ server :: firewall :: ns) s)
  | (_, r) => set_rng r (set_nodes (nodes s ++ [server; firewall]) s)
  end.

Definition initialize_ARPSpoof (randoms : nat -> float) (s : t) : t :=
  let w := canvasWidth s in
  let h := canvasHeight s in
  let count := Scenario.nodes (scenario s) in
  let gridSize := Num.Math_ceil (Num.Math_sqrt (Scenario.number count)) in
  let spacing := (Num.Math_min w h * 0.7 / gridSize)%float in
  let offsetX := ((w - spacing * gridSize) / 2)%float in
  let offsetY := ((h - spacing * gridSize) / 2)%float in
  let node (i : N) :=
    let row := Num.Math_floor (Num.of_N i / gridSize)%float in
    let col := Num.rem (Num.of_N i) gridSize in
    let x := (offsetX + col * spacing + spacing / 2)%float in
    let y := (offsetY + row * spacing + spacing / 2)%float in
    Node.new (randoms (N.to_nat i)) ("node-" ++ Num.to_string i)
      Node.client x y 20%float in
  let clients := map node (Scenario.indices count) in
  let attacker :=
    Node.new (randoms (length clients)) "attacker" Node.attacker
      (w / 2)%float (h / 2)%float 25%float in
  set_nodes
    (map (fun n =>
            if Node.kind_eqb (Node.type n) Node.attacker then n
            else Node.connect ["attacker"%string] n)
         (nodes s ++ clients ++ [attacker])) s.

Definition initialize (randoms : nat -> float) (s : t) : t :=
  match class_of s with
  | DDoSAttack => initialize_DDoS randoms s
  | MITMAttack => initialize_MITM randoms s
  | FirewallAttack => initialize_Firewall randoms s
  | ARPSpoofAttack => initialize_ARPSpoof randoms s
  end.

(** *** generatePackets(intensity) *)

Definition generatePackets_DDoS (fuel : nat) (intensity : float)
  : JS t unit :=
  (s <- get ;;
   let serverNode := Node.find_id "server" (nodes s) in
   let attackers := Node.of_type Node.attacker (nodes s) in
   for_lt fuel 0%float (packetsThisFrame (scenario s) intensity)
     (d <- rng_next ;;
      if (d <? 0.5)%float then
        attacker <- rng_choice attackers ;;
        _ <- createPacket attacker serverNode Packet.attack 2%float ;;
        ret tt
      else ret tt))%js.

Definition generatePackets_MITM (fuel : nat) (intensity : float)
  : JS t unit :=
  (s <- get ;;
   let client1 := Node.find_id "client1" (nodes s) in
   let client2 := Node.find_id "client2" (nodes s) in
   let attacker := Node.find_id "attacker" (nodes s) in
   for_lt fuel 0%float (packetsThisFrame (scenario s) intensity)
     (d <- rng_next ;;
      if (d <? 0.5)%float then
        d' <- rng_next ;;
        if (d' <? 0.5)%float then
          _ <- createPacket client1 attacker Packet.normal 1.5%float ;;
          setTimeout (Relay attacker client2 Packet.attack 1.5%float)
        else
          _ <- createPacket client2 attacker Packet.normal 1.5%float ;;
          setTimeout (Relay attacker client1 Packet.attack 1.5%float)
      else ret tt))%js.

Definition generatePackets_Firewall (fuel : nat) (intensity : float)
  : JS t unit :=
  (s <- get ;;
   let firewall := Node.find_id "firewall" (nodes s) in
   let server := Node.find_id "server" (nodes s) in
   let clients :=
     filter (fun n => Node.kind_eqb (Node.type n) Node.client
                      || Node.kind_eqb (Node.type n) Node.attacker)
            (nodes s) in
   for_lt fuel 0%float (packetsThisFrame (scenario s) intensity)
     (d <- rng_next ;;
      if (d <? 0.5)%float then
        client <- rng_choice clients ;;
        match client with
        | None => throw TypeError
        | Some c =>
            let isAttack := Node.kind_eqb (Node.type c) Node.attacker in
            let packetType :=
              if isAttack then Packet.attack else Packet.normal in
            packet <- createPacket client firewall packetType 1.5%float ;;
            setTimeout
              (FirewallDecision (Packet.id packet) isAttack packetType
                 firewall server)
        end
      else ret tt))%js.

Definition generatePackets_ARPSpoof (fuel : nat) (intensity : float)
  : JS t unit :=
  (s <- get ;;
   let attacker := Node.find_id "attacker" (nodes s) in
   let clients := Node.of_type Node.client (nodes s) in
   for_lt fuel 0%float (packetsThisFrame (scenario s) intensity)
     (d <- rng_next ;;
      if (d <? 0.3)%float then
        source <- rng_choice clients ;;
        match source, clients with
        | None, _ :: _ => throw TypeError
        | _, _ =>
            let others :=
              match source with
              | Some src =>
                  filter (fun c => negb (String.eqb (Node.id c) (Node.id src)))
                         clients
              | None => []
              end in
            target <- rng_choice others ;;
            match target with
            | Some _ =>
                _ <- createPacket source attacker Packet.normal 1%float ;;
                setTimeout (Relay attacker target Packet.attack 1%float)
            | None => ret tt
            end
        end
      else
        d' <- rng_next ;;
        if (d' <? 0.5)%float then
          target <- rng_choice clients ;;
          _ <- createPacket attacker target Packet.attack 2%float ;;
          ret tt
        else ret tt))%js.

Definition generatePackets (fuel : nat) (intensity : float) : JS t unit :=
  fun s =>
    match class_of s with
    | DDoSAttack => generatePackets_DDoS fuel intensity s
    | MITMAttack => generatePackets_MITM fuel intensity s
    | FirewallAttack => generatePackets_Firewall fuel intensity s
    | ARPSpoofAttack => generatePackets_ARPSpoof fuel intensity s
    end.

(** *** updateMetrics() *)

(** [this.packets.forEach(callback)]: the callback is handed each element
    of the array as it then is, and mutates objects of the array in
    place. *)
Fixpoint forEach_from (n i : nat) (callback : nat -> Packet.t -> JS t unit)
  : JS t unit :=
  match n with
  | O => ret tt
  | Datatypes.S k =>
      (s <- get ;;
       match nth_error (packets s) i with
       | Some p => callback i p
       | None => ret tt
       end ;;
       forEach_from k (Datatypes.S i) callback)%js
  end.

Definition packets_forEach (callback : nat -> Packet.t -> JS t unit)
  : JS t unit :=
  (s <- get ;; forEach_from (length (packets s)) 0 callback)%js.

(** An assignment to a field of the packet at index [i]. *)
Definition mutate_packet (i : nat) (f : Packet.t -> Packet.t) : JS t unit :=
  modify (fun s => set_packets (map_at i f (packets s)) s).

Definition count (incr : Metrics -> Metrics) : JS t unit :=
  modify (fun s => set_metrics (incr (metrics s)) s).

Definition set_serverLoad (load lat : float) : JS t unit :=
  modify (fun s => set_metrics (set_load load lat (metrics s)) s).

(** The test of the [forEach] that counts arrivals; [countable] is its
    clause on the packet's type. *)
Definition arrived (countable : Packet.t -> bool) (p : Packet.t) : bool :=
  negb (Packet.active p) && (1 <=? Packet.progress p)%float && countable p.

Definition count_received (countable : Packet.t -> bool) : JS t unit :=
  packets_forEach (fun _ packet =>
    if arrived countable packet then count received_incr else ret tt).

(** The [forEach] of the overloaded branch draws from the generator only
    for an active packet past 0.9. *)
Definition drop_overloaded : JS t unit :=
  packets_forEach (fun i packet =>
    if Packet.active packet && (0.9 <? Packet.progress packet)%float then
      (d <- rng_next ;;
       if (d <? 0.3)%float then
         mutate_packet i (Packet.set_active false) ;; count dropped_incr
       else ret tt)%js
    else ret tt).

Definition updateMetrics_DDoS : JS t unit :=
  (s <- get ;;
   let load := Num.Math_min 100%float (activePackets s / 50 * 100)%float in
   set_serverLoad load (Num.Math_floor (10 + (load / 100) * 500)%float) ;;
   if (80 <? load)%float then drop_overloaded
   else count_received (fun _ => true))%js.

Definition updateMetrics_MITM : JS t unit :=
  (s <- get ;;
   let load := Num.Math_min 100%float (activePackets s / 20 * 100)%float in
   d <- rng_range 0%float 100%float ;;
   set_serverLoad load (Num.Math_floor (150 + d)%float) ;;
   count_received (fun _ => true))%js.

Definition updateMetrics_Firewall : JS t unit :=
  (s <- get ;;
   let load := Num.Math_min 100%float (activePackets s / 30 * 100)%float in
   set_serverLoad load (Num.Math_floor (50 + (load / 100) * 200)%float) ;;
   count_received
     (fun p => negb (Packet.kind_eqb (Packet.type p) Packet.blocked)))%js.

Definition updateMetrics_ARPSpoof : JS t unit :=
  (s <- get ;;
   let load := Num.Math_min 100%float (activePackets s / 40 * 100)%float in
   d <- rng_range 0%float 100%float ;;
   set_serverLoad load (Num.Math_floor (30 + d)%float) ;;
   count_received (fun _ => true))%js.

Definition updateMetrics : JS t unit :=
  fun s =>
    match class_of s with
    | DDoSAttack => updateMetrics_DDoS s
    | MITMAttack => updateMetrics_MITM s
    | FirewallAttack => updateMetrics_Firewall s
    | ARPSpoofAttack => updateMetrics_ARPSpoof s
    end.

(** *** update(deltaTime, speed, intensity) *)

Definition update (fuel : nat) (deltaTime speed intensity : float)
  : JS t unit :=
  fun s =>
    let s1 := set_time (time s + deltaTime * speed)%float s in
    match Packet.sweep (packets s1) with
    | (Normal kept, _) =>
        (generatePackets fuel intensity ;; updateMetrics)%js
          (set_packets kept s1)
    | (Throw e, objects) => (Throw e, set_packets objects s1)
    | (Exhausted, objects) => (Exhausted, set_packets objects s1)
    end.

(** *** The scheduled callbacks *)

(** [packet.type = 'blocked'; packet.active = false] on the captured
    object, which may or may not still be in [this.packets]. *)
Definition block (pid : N) (ps : list Packet.t) : list Packet.t :=
  map (fun p =>
         if (Packet.id p =? pid)%N
         then Packet.set_active false (Packet.set_type Packet.blocked p)
         else p) ps.

Definition run_callback (cb : callback) : JS t unit :=
  match cb with
  | Relay from to type speed =>
      match from, to with
      | Some _, Some _ => (_ <- createPacket from to type speed ;; ret tt)%js
      | _, _ => ret tt
      end
  | FirewallDecision pid isAttack packetType firewall server =>
      (s <- get ;;
       blocks <- (if isAttack then
                    d <- rng_next ;;
                    ret (d <? Num.of_undefined
                                (Scenario.blockRate (scenario s)))%float
                  else ret false) ;;
       if blocks then
         modify (fun s => set_packets (block pid (packets s)) s) ;;
         count blocked_incr
       else
         match firewall, server with
         | Some _, Some _ =>
             _ <- createPacket firewall server packetType 1.5%float ;; ret tt
         | _, _ => ret tt
         end)%js
  end.

(** *** What happens to a simulation

    The driver calls [update]; the host fires the oldest pending timer at a
    moment of its own choosing. *)
Inductive event : Type :=
| Update (deltaTime speed intensity : float)
| TimerFires.

Definition step (fuel : nat) (e : event) : JS t unit :=
  match e with
  | Update deltaTime speed intensity => update fuel deltaTime speed intensity
  | TimerFires =>
      fun s =>
        match timers s with
        | [] => (Normal tt, s)
        | cb :: rest => run_callback cb (set_timers rest s)
        end
  end.

Definition run (fuel : nat) (es : list event) (s : t) : t :=
  fold_left (fun s e => exec (step fuel e) s) es s.

End Engine.

End AttackSimulation.

(** ** SimulationFactory *)

Module SimulationFactory.

Import AttackSimulation.

(** The [switch] on the scenario name, [default] included. *)
Definition class_for (scenarioName : string) : class :=
  if String.eqb scenarioName "ddos" then DDoSAttack
  else if String.eqb scenarioName "mitm" then MITMAttack
  else if String.eqb scenarioName "firewall" then FirewallAttack
  else if String.eqb scenarioName "arpSpoof" then ARPSpoofAttack
  else DDoSAttack.

(** [create]: the instance returned ([None] is [null]) and what was written
    with [console.error]. *)
Definition create (Math_sin Math_cos : float -> float)
  (randoms : nat -> float) (scenarioName : string) (rng : SeededRandom.t)
  (canvasWidth canvasHeight : float) : option t * list string :=
  match Scenario.SCENARIOS scenarioName with
  | None => (None, [("Unknown scenario: " ++ scenarioName)%string])
  | Some scenario =>
      (Some (initialize Math_sin Math_cos randoms
               (construct (class_for scenarioName) scenario rng
                  canvasWidth canvasHeight)),
       [])
  end.

End SimulationFactory.

(** ** Reference values of [Math.sin] and [Math.cos]

    The values an IEEE 754 libm returns at the arguments the closed examples
    of this file evaluate: the seeds 0 to 5, 42 to 47 and 12345 to 12360,
    and the thirty angles of the DDoS layout.  Elsewhere the tables answer
    [NaN]. *)

Module Reference.

Definition lookup (table : list (float * float)) (x : float) : float :=
  match find (fun e => Leibniz.eqb (fst e) x) table with
  | Some e => snd e
  | None => nan
  end.

Definition sin_table : list (float * float) :=
  [ (0.0, 0.0);
    (1.0, 0.8414709848078965);
    (2.0, 0.9092974268256817);
    (3.0, 0.1411200080598672);
    (4.0, -0.7568024953079282);
    (5.0, -0.9589242746631385);
    (42.0, -0.9165215479156338);
    (43.0, -0.8317747426285983);
    (44.0, 0.017701925105413577);
    (45.0, 0.8509035245341184);
    (46.0, 0.9017883476488092);
    (47.0, 0.123573122745224);
    (12345.0, -0.9937716364556811);
    (12346.0, -0.44316712543527687);
    (12347.0, 0.5148831969404107);
    (12348.0, 0.9995522825546037);
    (12349.0, 0.5652376092596187);
    (12350.0, -0.38875391526187064);
    (12351.0, -0.9853268829221309);
    (12352.0, -0.6759948584915171);
    (12353.0, 0.25484372132618394);
    (12354.0, 0.9513801590286267);
    (12355.0, 0.773222066034545);
    (12356.0, -0.11583282857544339);
    (12357.0, -0.898391554783627);
    (12358.0, -0.8549732286686703);
    (12359.0, -0.025496459026794708);
    (12360.0, 0.8274216374613708);
    (0.20943951023931953, 0.20791169081775931);
    (0.41887902047863906, 0.40673664307580015);
    (0.6283185307179586, 0.5877852522924731);
    (0.8377580409572781, 0.7431448254773941);
    (1.0471975511965976, 0.8660254037844386);
    (1.2566370614359172, 0.9510565162951535);
    (1.4660765716752369, 0.9945218953682733);
    (1.6755160819145563, 0.9945218953682734);
    (1.8849555921538759, 0.9510565162951536);
    (2.0943951023931953, 0.8660254037844387);
    (2.3038346126325147, 0.7431448254773945);
    (2.5132741228718345, 0.5877852522924732);
    (2.7227136331111543, 0.40673664307580004);
    (2.9321531433504737, 0.20791169081775931);
    (3.141592653589793, 1.2246467991473532e-16);
    (3.3510321638291125, -0.20791169081775907);
    (3.560471674068432, -0.4067366430757998);
    (3.7699111843077517, -0.587785252292473);
    (3.979350694547071, -0.743144825477394);
    (4.1887902047863905, -0.8660254037844384);
    (4.39822971502571, -0.9510565162951535);
    (4.607669225265029, -0.9945218953682733);
    (4.81710873550435, -0.9945218953682733);
    (5.026548245743669, -0.9510565162951536);
    (5.235987755982989, -0.8660254037844386);
    (5.445427266222309, -0.743144825477394);
    (5.654866776461628, -0.5877852522924734);
    (5.8643062867009474, -0.40673664307580015);
    (6.073745796940266, -0.20791169081775987) ]%float.

Definition Math_sin : float -> float := lookup sin_table.

Definition cos_table : list (float * float) :=
  [ (0.0, 1.0);
    (0.20943951023931953, 0.9781476007338057);
    (0.41887902047863906, 0.9135454576426009);
    (0.6283185307179586, 0.8090169943749475);
    (0.8377580409572781, 0.6691306063588582);
    (1.0471975511965976, 0.5000000000000001);
    (1.2566370614359172, 0.30901699437494745);
    (1.4660765716752369, 0.10452846326765346);
    (1.6755160819145563, -0.10452846326765333);
    (1.8849555921538759, -0.30901699437494734);
    (2.0943951023931953, -0.4999999999999998);
    (2.3038346126325147, -0.6691306063588579);
    (2.5132741228718345, -0.8090169943749473);
    (2.7227136331111543, -0.913545457642601);
    (2.9321531433504737, -0.9781476007338057);
    (3.141592653589793, -1.0);
    (3.3510321638291125, -0.9781476007338057);
    (3.560471674068432, -0.9135454576426011);
    (3.7699111843077517, -0.8090169943749476);
    (3.979350694547071, -0.6691306063588585);
    (4.1887902047863905, -0.5000000000000004);
    (4.39822971502571, -0.30901699437494756);
    (4.607669225265029, -0.10452846326765423);
    (4.81710873550435, 0.10452846326765387);
    (5.026548245743669, 0.30901699437494723);
    (5.235987755982989, 0.5000000000000001);
    (5.445427266222309, 0.6691306063588585);
    (5.654866776461628, 0.8090169943749473);
    (5.8643062867009474, 0.913545457642601);
    (6.073745796940266, 0.9781476007338056) ]%float.

Definition Math_cos : float -> float := lookup cos_table.

(** [Math.random()] is not reproducible; the closed examples fix it. *)
Definition randoms (k : nat) : float := 0.5%float.

(** The application's defaults: scenario ['ddos'], seed 12345, an 800 by
    600 canvas. *)
Definition create (name : string) : option AttackSimulation.t * list string :=
  SimulationFactory.create Math_sin Math_cos randoms name
    (SeededRandom.new 12345%float) 800%float 600%float.

Definition ddos : AttackSimulation.t :=
  AttackSimulation.initialize Math_sin Math_cos randoms
    (AttackSimulation.construct AttackSimulation.DDoSAttack Scenario.ddos
       (SeededRandom.new 12345%float) 800%float 600%float).

(** One frame at intensity 50, which sends one packet, then [n] frames with
    the intensity slider at 0. *)
Definition one_packet_then (n : nat) : list AttackSimulation.event :=
  AttackSimulation.Update 16%float 1%float 50%float
  :: repeat (AttackSimulation.Update 16%float 1%float 0%float) n.

Definition ddos_after (n : nat) : AttackSimulation.t :=
  AttackSimulation.run Math_sin 3 (one_packet_then n) ddos.

(** Other values for [Math.random()]. *)
Definition other_randoms (k : nat) : float := 0.25%float.

(** Two frames at full intensity, half a second apart: the relay the first
    frame of a MITM simulation schedules is due about when the second
    frame is, and fires before it or after it. *)
Definition relay_late : list AttackSimulation.event :=
  [ AttackSimulation.Update 16%float 1%float 100%float;
    AttackSimulation.Update 500%float 1%float 100%float;
    AttackSimulation.TimerFires ].

Definition relay_on_time : list AttackSimulation.event :=
  [ AttackSimulation.Update 16%float 1%float 100%float;
    AttackSimulation.TimerFires;
    AttackSimulation.Update 500%float 1%float 100%float ].

(** The packet in flight after the first frame and [n] more, if any. *)
Definition packet_after (n : nat) : option Packet.t :=
  hd_error (AttackSimulation.packets (ddos_after n)).

End Reference.

(** * Specification vocabulary *)

(** ** Reasoning about monadic code

    [extends R m]: whatever way [m] completes, the state it leaves is
    [R]-related to the state it started from.  With [R := keeps P] this
    says that [m] preserves the invariant [P], also when it throws. *)

Definition extends {S A : Type} (R : S -> S -> Prop) (m : JS S A) : Prop :=
  forall s, R s (snd (m s)).

Definition keeps {S : Type} (P : S -> Prop) (s s' : S) : Prop := P s -> P s'.

(** ** Counters *)

Definition counters_le (m m' : AttackSimulation.Metrics) : Prop :=
  (AttackSimulation.packetsSent m <= AttackSimulation.packetsSent m')%N
  /\ (AttackSimulation.packetsReceived m
      <= AttackSimulation.packetsReceived m')%N
  /\ (AttackSimulation.packetsDropped m
      <= AttackSimulation.packetsDropped m')%N
  /\ (AttackSimulation.packetsBlocked m
      <= AttackSimulation.packetsBlocked m')%N.

Definition counters_grow (s s' : AttackSimulation.t) : Prop :=
  counters_le (AttackSimulation.metrics s) (AttackSimulation.metrics s').

(** ** Call sites

    [callback_ok ok cb]: the speed a scheduled relay will create its packet
    with satisfies [ok]. *)

Definition callback_ok (ok : float -> Prop) (cb : AttackSimulation.callback)
  : Prop :=
  match cb with
  | AttackSimulation.Relay _ _ _ speed => ok speed
  | AttackSimulation.FirewallDecision _ _ _ _ _ => True
  end.

(** The speeds [createPacket] is called with. *)
Definition engine_speed (v : float) : Prop :=
  v = 1%float \/ v = 1.5%float \/ v = 2%float.

(** ** Packets in the live collection *)

(** [progress >= 1] is false of the packet. *)
Definition not_arrived (p : Packet.t) : Prop :=
  (1 <=? Packet.progress p)%float = false.

Definition live_not_arrived (s : AttackSimulation.t) : Prop :=
  Forall not_arrived (AttackSimulation.packets s).

(** The [filter] pass of [update] on this state runs to its end: no
    [packet.update()] throws. *)
Definition sweep_completes (s : AttackSimulation.t) : bool :=
  match fst (Packet.sweep (AttackSimulation.packets s)) with
  | Normal _ => true
  | _ => false
  end.

(** From a state whose live packets have not arrived: they still have not,
    and [packetsReceived] is what it was. *)
Definition nothing_received (s s' : AttackSimulation.t) : Prop :=
  live_not_arrived s ->
  live_not_arrived s'
  /\ AttackSimulation.packetsReceived (AttackSimulation.metrics s')
     = AttackSimulation.packetsReceived (AttackSimulation.metrics s).

(** ** The trajectory of a packet

    A packet constructed with speed [v] has, after [k] calls of [update()]
    made while it was active, the progress [progress_after v k]: [k] float
    additions of [v * 0.01] to [0].  For each speed the engine uses,
    [lifetime v] is the number of calls at which the progress first reaches
    1; [trajectory_ok v] checks, by running the additions, that every
    earlier progress lies in [0, 1) and is strictly below the next one. *)

Fixpoint progress_after (v : float) (k : nat) : float :=
  match k with
  | O => 0%float
  | S j => (progress_after v j + v * 0.01)%float
  end.

Definition lifetime (v : float) : nat :=
  if (v =? 2)%float then 50
  else if (v =? 1.5)%float then 67
  else 100.

Definition trajectory_ok (v : float) : bool :=
  forallb
    (fun k =>
       let x := progress_after v k in
       (0 <=? x)%float && (x <? 1)%float && negb (1 <=? x)%float
       && (x <? progress_after v (S k))%float)
    (seq 0 (lifetime v))
  && (1 <=? progress_after v (lifetime v))%float.

Definition on_trajectory (p : Packet.t) : Prop :=
  engine_speed (Packet.speed p)
  /\ exists k,
       (k <= lifetime (Packet.speed p))%nat
       /\ Packet.progress p = progress_after (Packet.speed p) k
       /\ (Packet.active p = true -> (k < lifetime (Packet.speed p))%nat).

(** The invariant of the engine: live packets are on their trajectories,
    and pending relays will create packets of an engine speed. *)
Definition engine_inv (s : AttackSimulation.t) : Prop :=
  Forall on_trajectory (AttackSimulation.packets s)
  /\ Forall (callback_ok engine_speed) (AttackSimulation.timers s).

(** ** Reachable states

    The states of a simulation returned by the factory, after any number of
    [update] calls and timer firings. *)
Inductive reachable (Math_sin Math_cos : float -> float)
  : AttackSimulation.t -> Prop :=
| reachable_create (randoms : nat -> float) (name : string)
    (rng : SeededRandom.t) (w h : float) (s : AttackSimulation.t)
    (log : list string) :
    SimulationFactory.create Math_sin Math_cos randoms name rng w h
    = (Some s, log) ->
    reachable Math_sin Math_cos s
| reachable_step (fuel : nat) (e : AttackSimulation.event)
    (s : AttackSimulation.t) :
    reachable Math_sin Math_cos s ->
    reachable Math_sin Math_cos
      (exec (AttackSimulation.step Math_sin fuel e) s).

(** ** The slots of a frame

    [slots fuel i bound] is the number of times the body of
    [for (; i < bound; i++)] runs, [None] if the fuel does not reach the
    exit of the loop.  [ddos_tests] replays the generator through one call
    of the DDoS [generatePackets] and lists, slot by slot, the result of
    the test [rng.next() < 0.5]. *)

Fixpoint slots (fuel : nat) (i bound : float) : option nat :=
  match fuel with
  | O => None
  | S f =>
      if (i <? bound)%float
      then option_map S (slots f (i + 1)%float bound)
      else Some O
  end.






(** ** What two runs have in common

    [Math.random()] gives every node its [pulsePhase], so two simulations
    are never compared on it: the view of a state is the state with the
    phase of every node (in the node collection, at the ends of packets, in
    the closures of timers) set to 0.  Two states with the same view have
    the same node positions, packets, metrics, generator, clock and pending
    callbacks. *)

Definition node_view (n : Node.t) : Node.t :=
  Node.mk (Node.id n) (Node.type n) (Node.x n) (Node.y n) (Node.radius n)
    0%float (Node.connections n).

Definition packet_view (p : Packet.t) : Packet.t :=
  Packet.mk (Packet.id p) (node_view (Packet.source p))
    (option_map node_view (Packet.target p)) (Packet.type p)
    (Packet.speed p) (Packet.progress p) (Packet.x p) (Packet.y p)
    (Packet.active p) (Packet.trail p).

Definition callback_view (cb : AttackSimulation.callback)
  : AttackSimulation.callback :=
  match cb with
  | AttackSimulation.Relay from to type speed =>
      AttackSimulation.Relay (option_map node_view from)
        (option_map node_view to) type speed
  | AttackSimulation.FirewallDecision pid isAttack packetType fw srv =>
      AttackSimulation.FirewallDecision pid isAttack packetType
        (option_map node_view fw) (option_map node_view srv)
  end.

Definition view (s : AttackSimulation.t) : AttackSimulation.t :=
  AttackSimulation.mk (AttackSimulation.class_of s)
    (AttackSimulation.scenario s) (AttackSimulation.rng s)
    (AttackSimulation.canvasWidth s) (AttackSimulation.canvasHeight s)
    (map node_view (AttackSimulation.nodes s))
    (map packet_view (AttackSimulation.packets s))
    (AttackSimulation.metrics s) (AttackSimulation.time s)
    (AttackSimulation.packetIdCounter s)
    (map callback_view (AttackSimulation.timers s)).

(** Two completions of the same kind, with results related by [RA]. *)
Definition completion_rel {A : Type} (RA : A -> A -> Prop)
  (c1 c2 : completion A) : Prop :=
  match c1, c2 with
  | Normal a, Normal b => RA a b
  | Throw e, Throw e' => e = e'
  | Exhausted, Exhausted => True
  | _, _ => False
  end.

(** [same_view RA m1 m2]: from states with the same view, [m1] and [m2]
    complete alike, with results related by [RA], in states with the same
    view. *)
Definition same_view {A : Type} (RA : A -> A -> Prop)
  (m1 m2 : JS AttackSimulation.t A) : Prop :=
  forall s1 s2,
    view s1 = view s2 ->
    completion_rel RA (fst (m1 s1)) (fst (m2 s2))
    /\ view (snd (m1 s1)) = view (snd (m2 s2)).

Definition same_node (a b : option Node.t) : Prop :=
  option_map node_view a = option_map node_view b.

Definition same_nodes (a b : list Node.t) : Prop :=
  map node_view a = map node_view b.

Definition same_packet (a b : Packet.t) : Prop :=
  packet_view a = packet_view b.

(** ** Runs *)

Definition is_update (e : AttackSimulation.event) : bool :=
  match e with
  | AttackSimulation.Update _ _ _ => true
  | AttackSimulation.TimerFires => false
  end.

(** The [update] calls of a run, in order. *)
Definition updates_of (es : list AttackSimulation.event)
  : list AttackSimulation.event :=
  filter is_update es.

(** The states a run goes through, one after each [update]. *)
Fixpoint after_each_tick (Math_sin : float -> float) (fuel : nat)
  (es : list AttackSimulation.event) (s : AttackSimulation.t)
  : list AttackSimulation.t :=
  match es with
  | [] => []
  | e :: rest =>
      let s' := exec (AttackSimulation.step Math_sin fuel e) s in
      if is_update e
      then s' :: after_each_tick Math_sin fuel rest s'
      else after_each_tick Math_sin fuel rest s'
  end.

(** What an observer compares after each tick. *)
Definition observations (Math_sin : float -> float) (fuel : nat)
  (es : list AttackSimulation.event) (s : AttackSimulation.t)
  : list AttackSimulation.t :=
  map view (after_each_tick Math_sin fuel es s).

(** A DDoS simulation with no timer pending: the DDoS methods never call
    [setTimeout]. *)
Definition ddos_idle (s : AttackSimulation.t) : Prop :=
  AttackSimulation.class_of s = AttackSimulation.DDoSAttack
  /\ AttackSimulation.timers s = [].

(** Two runs are fed the same [update] calls; where the simulation is not a
    DDoS one, its timers must also have fired at the same points. *)
Definition same_schedule (c : AttackSimulation.class)
  (es1 es2 : list AttackSimulation.event) : Prop :=
  (c = AttackSimulation.DDoSAttack /\ updates_of es1 = updates_of es2)
  \/ es1 = es2.

(** ** Fuel

    [within_fuel m]: [m] never stops for lack of fuel. *)
Definition within_fuel {S A : Type} (m : JS S A) : Prop :=
  forall s, fst (m s) <> Exhausted.

(** The scenario objects a simulation can be constructed on. *)
Definition scenario_objects : list Scenario.t :=
  [ Scenario.ddos; Scenario.mitm; Scenario.firewall; Scenario.arpSpoof;
    Scenario.Object_prototype_member ].

(** The values of the intensity slider: the whole numbers from 0 to 100. *)
Definition slider_values : list float :=
  map (fun n => Num.of_N (N.of_nat n)) (seq 0 101).

(** Every frame of every scenario at every slider value has at most two
    slots, which fuel 3 covers. *)
Definition at_most_two_slots (sc : Scenario.t) (intensity : float) : bool :=
  match slots 3 0%float (AttackSimulation.packetsThisFrame sc intensity) with
  | Some k => (k <=? 2)%nat
  | None => false
  end.

(** ** Packet identity

    A closure that captured a packet is modelled by the packet's id.  This
    names one object: the ids of the live packets are pairwise distinct,
    all below the counter. *)
Definition ids_distinct (s : AttackSimulation.t) : Prop :=
  NoDup (map Packet.id (AttackSimulation.packets s))
  /\ Forall (fun p => (Packet.id p < AttackSimulation.packetIdCounter s)%N)
       (AttackSimulation.packets s).

(** ** Signs

    A number that is [+0], [-0], positive or [+Infinity]: the values [x]
    with [0 <= x]. *)
Definition SF_nonneg (x : spec_float) : bool :=
  match x with
  | S754_zero _ => true
  | S754_finite false _ _ => true
  | S754_infinity false => true
  | _ => false
  end.

Definition nonneg (x : float) : bool := SF_nonneg (Prim2SF x).

(** A positive finite number. *)
Definition positive_finite (x : float) : bool :=
  match Prim2SF x with
  | S754_finite false _ _ => true
  | _ => false
  end.

(** [0 <= x] and [x <= 100] both hold (so [x] is not [NaN]). *)
Definition percentage (x : float) : Prop :=
  (0 <=? x)%float = true /\ (x <=? 100)%float = true.

Definition load_bounded (s : AttackSimulation.t) : Prop :=
  percentage (AttackSimulation.serverLoad (AttackSimulation.metrics s)).

(** ** What a run leaves alone *)

(** The part of a simulation that [initialize] sets up. *)
Definition same_setting (s s' : AttackSimulation.t) : Prop :=
  AttackSimulation.nodes s' = AttackSimulation.nodes s
  /\ AttackSimulation.class_of s' = AttackSimulation.class_of s
  /\ AttackSimulation.scenario s' = AttackSimulation.scenario s
  /\ AttackSimulation.canvasWidth s' = AttackSimulation.canvasWidth s
  /\ AttackSimulation.canvasHeight s' = AttackSimulation.canvasHeight s.

Definition same_received (s s' : AttackSimulation.t) : Prop :=
  AttackSimulation.packetsReceived (AttackSimulation.metrics s')
  = AttackSimulation.packetsReceived (AttackSimulation.metrics s).

(** ** Trails *)

Definition trail_bounded (p : Packet.t) : Prop :=
  (length (Packet.trail p) <= 10)%nat.

Definition trails_bounded (s : AttackSimulation.t) : Prop :=
  Forall trail_bounded (AttackSimulation.packets s).

(** ** Creation sites

    The lookups [generatePackets] makes in the node collection. *)

Definition is_attacker (n : Node.t) : bool :=
  Node.kind_eqb (Node.type n) Node.attacker.

(** [client.type === 'attacker' ? 'attack' : 'normal'] *)
Definition firewall_packetType (n : Node.t) : Packet.kind :=
  if is_attacker n then Packet.attack else Packet.normal.

(** [nodes.filter(n => n.type === 'client' || n.type === 'attacker')] *)
Definition firewall_sources (ns : list Node.t) : list Node.t :=
  filter (fun n => Node.kind_eqb (Node.type n) Node.client
                   || Node.kind_eqb (Node.type n) Node.attacker) ns.

(** ** Accounting *)

Definition is_decision (cb : AttackSimulation.callback) : bool :=
  match cb with
  | AttackSimulation.FirewallDecision _ _ _ _ _ => true
  | AttackSimulation.Relay _ _ _ _ => false
  end.

(** The firewall decisions scheduled and not yet taken. *)
Definition pendingDecisions (s : AttackSimulation.t) : N :=
  N.of_nat (length (filter is_decision (AttackSimulation.timers s))).

Definition activeCount (ps : list Packet.t) : N :=
  N.of_nat (length (filter Packet.active ps)).

Definition sent (s : AttackSimulation.t) : N :=
  AttackSimulation.packetsSent (AttackSimulation.metrics s).
Definition dropped (s : AttackSimulation.t) : N :=
  AttackSimulation.packetsDropped (AttackSimulation.metrics s).
Definition blocked (s : AttackSimulation.t) : N :=
  AttackSimulation.packetsBlocked (AttackSimulation.metrics s).

(** Every drop deactivated a live active packet, every block answered a
    pending decision; only a DDoS simulation drops, only a firewall
    simulation decides. *)
Definition accounted (c : AttackSimulation.class) (s : AttackSimulation.t)
  : Prop :=
  AttackSimulation.class_of s = c
  /\ (dropped s + activeCount (AttackSimulation.packets s) <= sent s)%N
  /\ (blocked s + pendingDecisions s <= sent s)%N
  /\ (c <> AttackSimulation.DDoSAttack -> dropped s = 0%N)
  /\ (c <> AttackSimulation.FirewallAttack ->
      blocked s = 0%N /\ pendingDecisions s = 0%N).

(** ** The shape of the traffic

    Where the packets of each scenario come from and go to, in terms of the
    lookups the scenario makes in its node collection [ns]. *)

(** DDoS: attack packets from an attacker node to the server. *)
Definition shaped_DDoS (ns : list Node.t) (p : Packet.t) : Prop :=
  Packet.type p = Packet.attack
  /\ Packet.speed p = 2%float
  /\ In (Packet.source p) (Node.of_type Node.attacker ns)
  /\ Packet.target p = Node.find_id "server" ns.

(** MITM: a normal packet from a client to the attacker, or an attack
    packet from the attacker to a client. *)
Definition shaped_MITM (ns : list Node.t) (p : Packet.t) : Prop :=
  Packet.speed p = 1.5%float
  /\ ((Packet.type p = Packet.normal
       /\ Packet.target p = Node.find_id "attacker" ns
       /\ (Some (Packet.source p) = Node.find_id "client1" ns
           \/ Some (Packet.source p) = Node.find_id "client2" ns))
      \/ (Packet.type p = Packet.attack
          /\ Some (Packet.source p) = Node.find_id "attacker" ns
          /\ (Packet.target p = Node.find_id "client1" ns
              \/ Packet.target p = Node.find_id "client2" ns))).

(** Firewall: a packet from a client or attacker node to the firewall, of
    the type of its source unless it has been blocked, which only an
    attacker's packet is, and which deactivates it; or a forwarded packet
    from the firewall to the server. *)
Definition shaped_Firewall (ns : list Node.t) (p : Packet.t) : Prop :=
  Packet.speed p = 1.5%float
  /\ ((In (Packet.source p) (firewall_sources ns)
       /\ Packet.target p = Node.find_id "firewall" ns
       /\ (Packet.type p = firewall_packetType (Packet.source p)
           \/ (Packet.type p = Packet.blocked
               /\ is_attacker (Packet.source p) = true
               /\ Packet.active p = false)))
      \/ (Some (Packet.source p) = Node.find_id "firewall" ns
          /\ Packet.target p = Node.find_id "server" ns
          /\ (Packet.type p = Packet.normal
              \/ Packet.type p = Packet.attack))).

(** ARP spoofing: a normal packet from a client to the attacker, or an
    attack packet from the attacker to a client (to [undefined] where
    [choice] found none). *)
Definition shaped_ARPSpoof (ns : list Node.t) (p : Packet.t) : Prop :=
  (Packet.type p = Packet.normal
   /\ Packet.speed p = 1%float
   /\ In (Packet.source p) (Node.of_type Node.client ns)
   /\ Packet.target p = Node.find_id "attacker" ns)
  \/ (Packet.type p = Packet.attack
      /\ (Packet.speed p = 1%float \/ Packet.speed p = 2%float)
      /\ Some (Packet.source p) = Node.find_id "attacker" ns
      /\ forall x, Packet.target p = Some x ->
                   In x (Node.of_type Node.client ns)).

Definition shaped (c : AttackSimulation.class) (ns : list Node.t)
  (p : Packet.t) : Prop :=
  match c with
  | AttackSimulation.DDoSAttack => shaped_DDoS ns p
  | AttackSimulation.MITMAttack => shaped_MITM ns p
  | AttackSimulation.FirewallAttack => shaped_Firewall ns p
  | AttackSimulation.ARPSpoofAttack => shaped_ARPSpoof ns p
  end.

(** The callbacks each scenario schedules. *)
Definition scheduled (c : AttackSimulation.class) (ns : list Node.t)
  (cb : AttackSimulation.callback) : Prop :=
  match c, cb with
  | AttackSimulation.MITMAttack, AttackSimulation.Relay from to type speed =>
      from = Node.find_id "attacker" ns
      /\ (to = Node.find_id "client1" ns \/ to = Node.find_id "client2" ns)
      /\ type = Packet.attack /\ speed = 1.5%float
  | AttackSimulation.ARPSpoofAttack,
    AttackSimulation.Relay from to type speed =>
      from = Node.find_id "attacker" ns
      /\ (exists tg, to = Some tg /\ In tg (Node.of_type Node.client ns))
      /\ type = Packet.attack /\ speed = 1%float
  | AttackSimulation.FirewallAttack,
    AttackSimulation.FirewallDecision _ isAttack type fw srv =>
      type = (if isAttack then Packet.attack else Packet.normal)
      /\ fw = Node.find_id "firewall" ns
      /\ srv = Node.find_id "server" ns
  | _, _ => False
  end.

(** The packet a pending decision captured, if it is still live, is the
    one its client sent to the firewall. *)
Definition decision_names (ns : list Node.t) (ps : list Packet.t)
  (counter : N) (cb : AttackSimulation.callback) : Prop :=
  match cb with
  | AttackSimulation.FirewallDecision pid isAttack _ _ _ =>
      (pid < counter)%N
      /\ forall p, In p ps -> Packet.id p = pid ->
           In (Packet.source p) (firewall_sources ns)
           /\ is_attacker (Packet.source p) = isAttack
           /\ Packet.target p = Node.find_id "firewall" ns
  | AttackSimulation.Relay _ _ _ _ => True
  end.

Definition traffic (c : AttackSimulation.class) (ns : list Node.t)
  (s : AttackSimulation.t) : Prop :=
  AttackSimulation.class_of s = c
  /\ AttackSimulation.nodes s = ns
  /\ Forall (shaped c ns) (AttackSimulation.packets s)
  /\ Forall (scheduled c ns) (AttackSimulation.timers s)
  /\ Forall (fun p => (Packet.id p < AttackSimulation.packetIdCounter s)%N)
       (AttackSimulation.packets s)
  /\ Forall (decision_names ns (AttackSimulation.packets s)
               (AttackSimulation.packetIdCounter s))
       (AttackSimulation.timers s).

Module ReferenceRuns.

(** Two more values of [Math.sin], for the draws of a firewall simulation
    with seed 12345 after its fifteen nodes are placed. *)
Definition sin_table_firewall : list (float * float) :=
  [ (12361.0, 0.9196120963179358);
    (12362.0, 0.16631543482825828) ]%float.

Definition Math_sin_firewall : float -> float :=
  Reference.lookup (Reference.sin_table ++ sin_table_firewall).

Definition mitm : AttackSimulation.t :=
  AttackSimulation.initialize Reference.Math_sin Reference.Math_cos
    Reference.randoms
    (AttackSimulation.construct AttackSimulation.MITMAttack Scenario.mitm
       (SeededRandom.new 12345%float) 800%float 600%float).

Definition firewall : AttackSimulation.t :=
  AttackSimulation.initialize Math_sin_firewall Reference.Math_cos
    Reference.randoms
    (AttackSimulation.construct AttackSimulation.FirewallAttack
       Scenario.firewall (SeededRandom.new 12345%float) 800%float 600%float).

Definition arpSpoof : AttackSimulation.t :=
  AttackSimulation.initialize Reference.Math_sin Reference.Math_cos
    Reference.randoms
    (AttackSimulation.construct AttackSimulation.ARPSpoofAttack
       Scenario.arpSpoof (SeededRandom.new 12345%float) 800%float 600%float).

(** The firewall simulation as created with the tables of [Reference]. *)
Definition firewall_created : AttackSimulation.t :=
  AttackSimulation.initialize Reference.Math_sin Reference.Math_cos
    Reference.randoms
    (AttackSimulation.construct AttackSimulation.FirewallAttack
       Scenario.firewall (SeededRandom.new 12345%float) 800%float 600%float).

(** One frame at full intensity, then the timer it scheduled. *)
Definition frame_then_timer : list AttackSimulation.event :=
  [ AttackSimulation.Update 16%float 1%float 100%float;
    AttackSimulation.TimerFires ].

(** A MITM simulation with a packet to the attacker and its relay. *)
Definition mitm_relayed : AttackSimulation.t :=
  AttackSimulation.run Reference.Math_sin 3 frame_then_timer mitm.

(** A firewall simulation whose one packet, from attacker [node-1], has
    been blocked. *)
Definition firewall_blocked : AttackSimulation.t :=
  AttackSimulation.run Math_sin_firewall 3 frame_then_timer firewall.

(** An ARP simulation with a rerouted packet and its relay. *)
Definition arpSpoof_relayed : AttackSimulation.t :=
  AttackSimulation.run Reference.Math_sin 3 frame_then_timer arpSpoof.

End ReferenceRuns.

(** ** One packet, call after call *)

(** The packet object after [n] consecutive calls of [update()]. *)
Fixpoint updates (n : nat) (p : Packet.t) : Packet.t :=
  match n with
  | O => p
  | S k => snd (Packet.update (updates k p))
  end.

(** ** Sends

    [sends n m]: [m] raises [packetsSent] by at most [n], however it
    completes. *)
Definition sends {A : Type} (n : N) (m : JS AttackSimulation.t A) : Prop :=
  forall s, (sent (snd (m s)) <= sent s + n)%N.

Definition same_sent (s s' : AttackSimulation.t) : Prop := sent s' = sent s.

(** ** Topologies *)

Definition node_ids (ns : list Node.t) : list string := map Node.id ns.

(** Every connection of every node names a node of the collection. *)
Definition connections_closed (ns : list Node.t) : Prop :=
  Forall (fun n => Forall (fun id => In id (node_ids ns)) (Node.connections n))
    ns.

(** The nodes as [(id, type, connections)]. *)
Definition layout (ns : list Node.t)
  : list (string * Node.kind * list string) :=
  map (fun n => (Node.id n, Node.type n, Node.connections n)) ns.

(** Decidable versions, for the four concrete layouts. *)
Definition distinctb (ids : list string) : bool :=
  (fix go (l : list string) : bool :=
     match l with
     | [] => true
     | x :: rest => negb (existsb (String.eqb x) rest) && go rest
     end) ids.

Definition closedb (l : list (string * Node.kind * list string)) : bool :=
  forallb
    (fun e => forallb (fun id => existsb (fun e' => String.eqb (fst (fst e')) id) l)
                (snd e))
    l.

(** The nodes each scenario is laid out with; for a name [SCENARIOS]
    merely inherits, the server alone. *)
Definition scenario_layout (name : string)
  : list (string * Node.kind * list string) :=
  if String.eqb name "ddos" then
    ("server"%string, Node.server, [])
    :: map (fun i => (("attacker-" ++ Num.to_string i)%string, Node.attacker,
                      ["server"%string]))
         (Scenario.indices (Some 30%N))
  else if String.eqb name "mitm" then
    [ ("client1"%string, Node.client, ["attacker"%string]);
      ("attacker"%string, Node.attacker, ["client1"%string; "client2"%string]);
      ("client2"%string, Node.client, ["attacker"%string]) ]
  else if String.eqb name "firewall" then
    ("server"%string, Node.server, [])
    :: ("firewall"%string, Node.firewall, ["server"%string])
    :: map (fun i => (("node-" ++ Num.to_string i)%string,
                      if (i <? 10)%N then Node.attacker else Node.client,
                      ["firewall"%string]))
         (Scenario.indices (Some 15%N))
  else if String.eqb name "arpSpoof" then
    map (fun i => (("node-" ++ Num.to_string i)%string, Node.client,
                   ["attacker"%string]))
      (Scenario.indices (Some 8%N))
    ++ [("attacker"%string, Node.attacker, [])]
  else [("server"%string, Node.server, [])].

(** [Math.round]: the nearest whole number, a tie going up; a value in
    [-0.5, 0) rounds to [-0].  A finite value with a negative exponent is
    [sm * 2 ^ e], and [floor (x + 1/2)] is computed on the integers. *)
Definition Math_round (x : float) : float :=
  match Prim2SF x with
  | S754_finite s m e =>
      if (0 <=? e)%Z then x
      else
        let sm := if s then Z.neg m else Z.pos m in
        let n := ((2 * sm + 2 ^ (- e)) / 2 ^ (1 - e))%Z in
        if (n =? 0)%Z then (if s then (-0)%float else 0%float)
        else Num.of_Z n
  | _ => x
  end.

(** [Math.max] of two numbers: [NaN] if either is; [+0] is above [-0]. *)
Definition Math_max (a b : float) : float :=
  if is_nan a || is_nan b then nan
  else if (a <? b)%float then b
  else if (b <? a)%float then a
  else if Num.is_neg_zero a then b else a.

(** ** utils.js: PerformanceMonitor *)

Module PerformanceMonitor.

Record t : Type := mk { frames : list float; lastTime : float }.

(** The constructor; [now] is what [performance.now()] returns to it. *)
Definition new (now : float) : t := {| frames := []; lastTime := now |}.

(** [update()], likewise. *)
Definition update (now : float) (m : t) : t :=
  let delta := (now - lastTime m)%float in
  let pushed := frames m ++ [delta] in
  {| frames := if (60 <? length pushed)%nat then tl pushed else pushed;
     lastTime := now |}.

Definition getFPS (m : t) : float :=
  match frames m with
  | [] => 60%float
  | _ :: _ =>
      let avgDelta :=
        (fold_left (fun a b => a + b)%float (frames m) 0%float
         / Num.of_N (N.of_nat (length (frames m))))%float in
      Math_round (1000 / avgDelta)%float
  end.

(** The monitor after one [update()] at each of the times [nows]. *)
Definition run (nows : list float) (m : t) : t :=
  fold_left (fun m now => update now m) nows m.

End PerformanceMonitor.

(** The differences between consecutive times, from [last] on. *)
Fixpoint deltas (last : float) (nows : list float) : list float :=
  match nows with
  | [] => []
  | now :: rest => (now - last)%float :: deltas now rest
  end.

(** The last [k] elements of a list. *)
Definition lastn {A : Type} (k : nat) (l : list A) : list A :=
  skipn (length l - k) l.

(** [MathUtils.clamp] *)
Definition clamp (value min max : float) : float :=
  Num.Math_min (Math_max value min) max.

(** The place of a number in the order of the numbers: the sign class
    first, then exponent and mantissa, reversed for a negative number. *)
Definition SF_key (x : spec_float) : Z * Z * Z :=
  match x with
  | S754_infinity true => (-2, 0, 0)
  | S754_finite true m e => (-1, - e, Z.neg m)
  | S754_zero _ => (0, 0, 0)
  | S754_nan => (0, 0, 0)
  | S754_finite false m e => (1, e, Z.pos m)
  | S754_infinity false => (2, 0, 0)
  end%Z.

Definition key_lt (a b : Z * Z * Z) : Prop :=
  let '(a1, a2, a3) := a in
  let '(b1, b2, b3) := b in
  (a1 < b1 \/ (a1 = b1 /\ (a2 < b2 \/ (a2 = b2 /\ a3 < b3))))%Z.

(** ** utils.js: Colors *)

Module Colors.

(** The two palettes, as the object literals list them. *)
Definition light : list (string * string) :=
  [ ("background", "#ffffff"); ("text", "#1f2937"); ("server", "#3b82f6");
    ("client", "#10b981"); ("attacker", "#ef4444"); ("firewall", "#f59e0b");
    ("packetNormal", "#60a5fa"); ("packetAttack", "#f87171");
    ("packetBlocked", "#34d399") ]%string.

Definition dark : list (string * string) :=
  [ ("background", "#0f172a"); ("text", "#f1f5f9"); ("server", "#06b6d4");
    ("client", "#10b981"); ("attacker", "#fb7185"); ("firewall", "#fbbf24");
    ("packetNormal", "#22d3ee"); ("packetAttack", "#f43f5e");
    ("packetBlocked", "#4ade80") ]%string.

(** [getCurrentTheme()]; [data_theme] is what
    [document.documentElement.getAttribute('data-theme')] returns. *)
Definition getCurrentTheme (data_theme : option string) : string :=
  match data_theme with
  | Some "dark"%string => "dark"
  | _ => "light"
  end.

(** What a property read can give: a string of the palette, or a member
    the palette object inherits from [Object.prototype]. *)
Inductive value : Type :=
| Str (s : string)
| Inherited (key : string).

Definition lookup (palette : list (string * string)) (key : string)
  : option string :=
  option_map snd (find (fun e => String.eqb (fst e) key) palette).

(** [this[theme][colorName] || '#ffffff']: an own colour (none is the
    empty string), else an inherited member, which is truthy, else the
    default. *)
Definition get (data_theme : option string) (colorName : string) : value :=
  let palette :=
    if String.eqb (getCurrentTheme data_theme) "dark" then dark else light in
  match lookup palette colorName with
  | Some c => Str c
  | None =>
      if existsb (String.eqb colorName) Scenario.Object_prototype_keys
      then Inherited colorName
      else Str "#ffffff"
  end.

Record rgb : Type := mk_rgb { r : N; g : N; b : N }.

(** A digit of [[a-f\d]] under the [i] flag, with its value. *)
Definition hex_digit (c : ascii) : option N :=
  let n := N_of_ascii c in
  if (48 <=? n)%N && (n <=? 57)%N then Some (n - 48)%N
  else if (97 <=? n)%N && (n <=? 102)%N then Some (n - 87)%N
  else if (65 <=? n)%N && (n <=? 70)%N then Some (n - 55)%N
  else None.

(** [parseInt(group, 16)] on a group of two digits. *)
Definition parse_pair (c1 c2 : ascii) : option N :=
  match hex_digit c1, hex_digit c2 with
  | Some h, Some l => Some (16 * h + l)%N
  | _, _ => None
  end.

(** The three groups of [/^#?([a-f\d]{2})([a-f\d]{2})([a-f\d]{2})$/i], if
    the string matches. *)
Definition groups (hex : string) : option (N * N * N) :=
  let body :=
    match hex with
    | String "#"%char rest => rest
    | _ => hex
    end in
  match body with
  | String c1 (String c2 (String c3 (String c4 (String c5 (String c6
      EmptyString))))) =>
      match parse_pair c1 c2, parse_pair c3 c4, parse_pair c5 c6 with
      | Some x, Some y, Some z => Some (x, y, z)
      | _, _, _ => None
      end
  | _ => None
  end.

Definition hexToRgb (hex : string) : rgb :=
  match groups hex with
  | Some (x, y, z) => {| r := x; g := y; b := z |}
  | None => {| r := 0; g := 0; b := 0 |}
  end.

End Colors.

(** The letters of a string in upper case. *)
Definition upper (c : ascii) : ascii :=
  let n := N_of_ascii c in
  if (97 <=? n)%N && (n <=? 122)%N then ascii_of_N (n - 32) else c.

Fixpoint uppercase (s : string) : string :=
  match s with
  | EmptyString => EmptyString
  | String c rest => String (upper c) (uppercase rest)
  end.

(** * Properties *)

(** ** SeededRandom *)

Section SeededRandomFacts.

Variable Math_sin : float -> float.

Import SeededRandom.

Lemma next_originalSeed (r : t) :
  originalSeed (exec (next Math_sin) r) = originalSeed r.
Proof. reflexivity. Qed.

Lemma perform_originalSeed (c : call) (r : t) :
  originalSeed (perform Math_sin c r) = originalSeed r.
Proof. destruct c; reflexivity. Qed.

Lemma perform_all_originalSeed (cs : list call) (r : t) :
  originalSeed (perform_all Math_sin cs r) = originalSeed r.
Proof.
  revert r. induction cs as [|c cs IH]; intro r.
  - reflexivity.
  - change (perform_all Math_sin (c :: cs) r)
      with (perform_all Math_sin cs (perform Math_sin c r)).
    rewrite IH. apply perform_originalSeed.
Qed.

Lemma reset_is_new (r : t) : reset r = new (originalSeed r).
Proof. reflexivity. Qed.

(** No method of the generator throws. *)
Lemma next_returns (r : t) : exists d, fst (next Math_sin r) = Normal d.
Proof. eexists. reflexivity. Qed.

Lemma js_nth_nil (A : Type) (i : float) : Num.js_nth (@nil A) i = None.
Proof.
  unfold Num.js_nth. destruct (Num.array_index i) as [k|]; [|reflexivity].
  simpl. destruct (k <? 0)%N eqn:E; [|reflexivity].
  apply N.ltb_lt in E. lia.
Qed.

(** A generator that has been used, then reset, is a fresh one. *)
Lemma reset_after_calls (s : float) (cs : list call) :
  reset (perform_all Math_sin cs (new s)) = new s.
Proof. rewrite reset_is_new, perform_all_originalSeed. reflexivity. Qed.

(** On an empty array [choice] draws once and returns [undefined]. *)
Lemma choice_nil (A : Type) (r : t) :
  choice Math_sin (@nil A) r = (Normal None, exec (next Math_sin) r).
Proof.
  unfold choice, int, range, bind, ret.
  simpl. rewrite js_nth_nil. reflexivity.
Qed.

End SeededRandomFacts.

(** C4. For every seed and every [n], the first [n] outputs of [next()]
    of a generator that has been used in any way ([setSeed] apart) and then
    reset are the first [n] outputs of a freshly constructed generator with
    that seed. *)
Theorem reset_reproduces_outputs (Math_sin : float -> float) (s : float)
  (cs : list SeededRandom.call) (n : nat) :
  SeededRandom.outputs Math_sin n
    (SeededRandom.reset
       (SeededRandom.perform_all Math_sin cs (SeededRandom.new s)))
  = SeededRandom.outputs Math_sin n (SeededRandom.new s).
Proof. rewrite reset_after_calls. reflexivity. Qed.

(** The instance of the specification: seed 42, five outputs, drawn again
    after a reset. *)
Example reset_reproduces_42 (Math_sin : float -> float) :
  let r := SeededRandom.new 42%float in
  let used :=
    SeededRandom.perform_all Math_sin (repeat SeededRandom.CallNext 5) r in
  SeededRandom.outputs Math_sin 5 (SeededRandom.reset used)
  = SeededRandom.outputs Math_sin 5 r.
Proof. intros r used. unfold used, r. rewrite reset_after_calls. reflexivity. Qed.

(** C5, as the code has it. [choice] of an empty array does not fail: it
    returns [undefined], after one draw from the generator. *)
Theorem choice_empty_returns_undefined (Math_sin : float -> float)
  (A : Type) (r : SeededRandom.t) :
  SeededRandom.choice Math_sin (@nil A) r
  = (Normal None, exec (SeededRandom.next Math_sin) r).
Proof. apply choice_nil. Qed.

(** C5, as stated, fails: on the generator seeded with 42 the call on the
    empty array completes normally. *)
Lemma choice_empty_does_not_fail :
  ~ (exists e : exn,
       fst (SeededRandom.choice Reference.Math_sin (@nil nat)
              (SeededRandom.new 42%float)) = Throw e).
Proof.
  intros [e H]. rewrite choice_nil in H. discriminate H.
Qed.

(** ** SimulationFactory *)

Section FactoryFacts.

Variables Math_sin Math_cos : float -> float.
Variable randoms : nat -> float.

Import AttackSimulation.

Local Abbreviation create :=
  (SimulationFactory.create Math_sin Math_cos randoms).
Local Abbreviation initialize :=
  (AttackSimulation.initialize Math_sin Math_cos randoms).

(** A name that is neither a scenario nor a member of [Object.prototype]
    is refused: [null] is returned and the error is logged. *)
Lemma create_unknown (name : string) (rng : SeededRandom.t) (w h : float) :
  ~ In name Scenario.own_keys ->
  ~ In name Scenario.Object_prototype_keys ->
  create name rng w h = (None, [("Unknown scenario: " ++ name)%string]).
Proof.
  intros Hown Hproto.
  unfold SimulationFactory.create, Scenario.SCENARIOS.
  assert (Hn : forall k, In k Scenario.own_keys -> String.eqb name k = false).
  { intros k Hk. apply String.eqb_neq. intros ->. exact (Hown Hk). }
  rewrite !Hn by (simpl; tauto).
  destruct (existsb (String.eqb name) Scenario.Object_prototype_keys) eqn:E.
  - apply existsb_exists in E. destruct E as [k [Hk E]].
    apply String.eqb_eq in E. subst k. contradiction.
  - reflexivity.
Qed.

(** A scenario name yields the matching subclass, constructed on the
    scenario's definition and initialized once; nothing is logged. *)
Lemma create_known (rng : SeededRandom.t) (w h : float) :
  create "ddos" rng w h
  = (Some (initialize (construct DDoSAttack Scenario.ddos rng w h)), [])
  /\ create "mitm" rng w h
     = (Some (initialize (construct MITMAttack Scenario.mitm rng w h)), [])
  /\ create "firewall" rng w h
     = (Some (initialize (construct FirewallAttack Scenario.firewall rng w h)),
        [])
  /\ create "arpSpoof" rng w h
     = (Some (initialize (construct ARPSpoofAttack Scenario.arpSpoof rng w h)),
        []).
Proof. repeat split. Qed.

End FactoryFacts.

(** C6 at the names [SCENARIOS] inherits from [Object.prototype]. None of
    them is a scenario, yet for each of them [create] logs nothing and
    returns an instance: a DDoS simulation whose only node is the server. *)
Theorem create_accepts_inherited_keys (Math_sin Math_cos : float -> float)
  (randoms : nat -> float) (rng : SeededRandom.t) (w h : float) :
  Forall
    (fun name =>
       ~ In name Scenario.own_keys
       /\ exists s,
            SimulationFactory.create Math_sin Math_cos randoms name rng w h
            = (Some s, [])
            /\ AttackSimulation.class_of s = AttackSimulation.DDoSAttack
            /\ map Node.id (AttackSimulation.nodes s) = ["server"%string]
            /\ AttackSimulation.scenario s = Scenario.Object_prototype_member)
    Scenario.Object_prototype_keys.
Proof.
  unfold Scenario.Object_prototype_keys.
  repeat (apply Forall_cons || apply Forall_nil);
    (split;
     [ simpl; intros H; repeat (destruct H as [H|H]; [discriminate H|]);
       exact H
     | eexists; split; [reflexivity|]; repeat split ]).
Qed.

(** C7. [create('ddos', rng, 800, 600)] returns a simulation with exactly one
    server node and [scenario.attackers] = 30 attacker nodes, 31 nodes in
    all, and the connections of every attacker contain ['server']. *)
Theorem create_ddos_topology (Math_sin Math_cos : float -> float)
  (randoms : nat -> float) (rng : SeededRandom.t) :
  exists s,
    SimulationFactory.create Math_sin Math_cos randoms "ddos" rng
      800%float 600%float = (Some s, [])
    /\ Scenario.attackers (AttackSimulation.scenario s) = Some 30%N
    /\ length (AttackSimulation.nodes s) = 31%nat
    /\ length (Node.of_type Node.server (AttackSimulation.nodes s)) = 1%nat
    /\ length (Node.of_type Node.attacker (AttackSimulation.nodes s)) = 30%nat
    /\ Forall (fun n => In "server"%string (Node.connections n))
         (Node.of_type Node.attacker (AttackSimulation.nodes s)).
Proof.
  eexists. split; [reflexivity|].
  repeat split.
  cbn -[PrimFloat.div PrimFloat.mul PrimFloat.add Num.Math_min Num.of_N].
  repeat (apply Forall_cons; [left; reflexivity|]). apply Forall_nil.
Qed.

(** ** The monad *)

Section MonadRules.

Context {S : Type}.

Section Extends.

Variable R : S -> S -> Prop.
Hypothesis R_refl : forall s, R s s.
Hypothesis R_trans : forall a b c, R a b -> R b c -> R a c.

Lemma extends_ret (A : Type) (a : A) : extends R (ret a).
Proof. intro s. apply R_refl. Qed.

Lemma extends_get : extends R get.
Proof. intro s. apply R_refl. Qed.

Lemma extends_throw (A : Type) (e : exn) : extends R (@throw S A e).
Proof. intro s. apply R_refl. Qed.

Lemma extends_modify (f : S -> S) :
  (forall s, R s (f s)) -> extends R (modify f).
Proof. intros H s. apply H. Qed.

Lemma extends_bind (A B : Type) (m : JS S A) (k : A -> JS S B) :
  extends R m -> (forall a, extends R (k a)) -> extends R (bind m k).
Proof.
  intros Hm Hk s. unfold bind. specialize (Hm s).
  destruct (m s) as [[a| e |] s']; simpl in *; try assumption.
  eapply R_trans; [exact Hm | apply Hk].
Qed.

Lemma extends_for_lt (fuel : nat) (i bound : float) (body : JS S unit) :
  extends R body -> extends R (AttackSimulation.for_lt fuel i bound body).
Proof.
  intro Hb. revert i. induction fuel as [|f IH]; intro i; simpl.
  - intro s. apply R_refl.
  - destruct (i <? bound)%float.
    + apply extends_bind; [exact Hb | intros _; apply IH].
    + apply extends_ret.
Qed.

End Extends.

End MonadRules.

(** ** The engine, relation by relation

    What [generatePackets], [updateMetrics] and the scheduled callbacks do
    to the state is a sequence of a dozen elementary changes.  A reflexive
    and transitive relation that holds across each of them holds across the
    methods, however they complete. *)

Section EngineRules.

Import AttackSimulation.

Variable Math_sin : float -> float.
Variable R : t -> t -> Prop.
Variable ok : float -> Prop.

Hypothesis R_refl : forall s, R s s.
Hypothesis R_trans : forall a b c, R a b -> R b c -> R a c.
Hypothesis ok_1 : ok 1%float.
Hypothesis ok_1_5 : ok 1.5%float.
Hypothesis ok_2 : ok 2%float.

Hypothesis R_rng : forall s r, R s (set_rng r s).
Hypothesis R_createPacket :
  forall source target type speed,
    ok speed -> extends R (createPacket source target type speed).
Hypothesis R_setTimeout :
  forall cb, callback_ok ok cb -> extends R (setTimeout cb).
Hypothesis R_load : forall load lat, extends R (set_serverLoad load lat).
Hypothesis R_deactivate :
  forall s i p,
    nth_error (packets s) i = Some p ->
    R s (set_packets (map_at i (Packet.set_active false) (packets s)) s).
Hypothesis R_dropped : extends R (count dropped_incr).
Hypothesis R_received :
  forall countable s i p,
    nth_error (packets s) i = Some p -> arrived countable p = true ->
    R s (set_metrics (received_incr (metrics s)) s).
Hypothesis R_block :
  forall s pid, R s (set_packets (block pid (packets s)) s).
Hypothesis R_blocked : extends R (count blocked_incr).

Lemma extends_on_rng (A : Type) (m : JS SeededRandom.t A) :
  extends R (on_rng m).
Proof.
  intro s. unfold on_rng. destruct (m (rng s)) as [c r]. apply R_rng.
Qed.

Lemma extends_forEach_from (n i : nat)
  (callback : nat -> Packet.t -> JS t unit) :
  (forall j p s, nth_error (packets s) j = Some p ->
                 R s (snd (callback j p s))) ->
  extends R (forEach_from n i callback).
Proof.
  intro Hcb. revert i. induction n as [|n IH]; intros i s; simpl.
  - apply R_refl.
  - unfold bind, get at 1.
    destruct (nth_error (packets s) i) as [p|] eqn:E.
    + specialize (Hcb i p s E).
      destruct (callback i p s) as [[[]| e |] s']; simpl in *;
        try exact Hcb.
      eapply R_trans; [exact Hcb | apply IH].
    + unfold ret. apply IH.
Qed.

Lemma extends_packets_forEach (callback : nat -> Packet.t -> JS t unit) :
  (forall j p s, nth_error (packets s) j = Some p ->
                 R s (snd (callback j p s))) ->
  extends R (packets_forEach callback).
Proof.
  intros Hcb s. unfold packets_forEach, bind, get.
  apply extends_forEach_from, Hcb.
Qed.

Lemma extends_count_received (countable : Packet.t -> bool) :
  extends R (count_received countable).
Proof.
  apply extends_packets_forEach. intros j p s E.
  destruct (arrived countable p) eqn:Ha.
  - exact (R_received countable s j p E Ha).
  - apply R_refl.
Qed.

Lemma extends_drop_overloaded : extends R (drop_overloaded Math_sin).
Proof.
  apply extends_packets_forEach. intros j p s E.
  destruct (Packet.active p && (0.9 <? Packet.progress p)%float);
    [|apply R_refl].
  unfold bind, rng_next, on_rng.
  destruct (SeededRandom.next Math_sin (rng s)) as [[d| e |] r] eqn:En;
    simpl; try apply R_rng.
  destruct (d <? 0.3)%float; [|apply R_rng].
  unfold mutate_packet, modify. simpl.
  eapply R_trans; [apply R_rng|].
  eapply R_trans; [apply (R_deactivate (set_rng r s) j p E)|].
  apply R_dropped.
Qed.

Ltac prim :=
  solve
    [ apply extends_get; assumption
    | apply extends_ret; assumption
    | apply extends_throw; assumption
    | apply extends_on_rng
    | apply R_createPacket; assumption
    | apply R_setTimeout; (assumption || exact I)
    | apply R_load
    | apply R_dropped
    | apply R_blocked ].

Ltac seq x := apply extends_bind; [assumption | prim | intro x].

Lemma extends_generatePackets_DDoS (fuel : nat) (intensity : float) :
  extends R (generatePackets_DDoS Math_sin fuel intensity).
Proof.
  unfold generatePackets_DDoS. seq s0.
  apply extends_for_lt; try assumption. seq d.
  destruct (d <? 0.5)%float; [|prim].
  seq a. seq p. prim.
Qed.

Lemma extends_generatePackets_MITM (fuel : nat) (intensity : float) :
  extends R (generatePackets_MITM Math_sin fuel intensity).
Proof.
  unfold generatePackets_MITM. seq s0.
  apply extends_for_lt; try assumption. seq d.
  destruct (d <? 0.5)%float; [|prim].
  seq d'. destruct (d' <? 0.5)%float; seq p; prim.
Qed.

Lemma extends_generatePackets_Firewall (fuel : nat) (intensity : float) :
  extends R (generatePackets_Firewall Math_sin fuel intensity).
Proof.
  unfold generatePackets_Firewall. seq s0.
  apply extends_for_lt; try assumption. seq d.
  destruct (d <? 0.5)%float; [|prim].
  seq c. destruct c as [c|]; [|prim]. seq p. prim.
Qed.

Lemma extends_generatePackets_ARPSpoof (fuel : nat) (intensity : float) :
  extends R (generatePackets_ARPSpoof Math_sin fuel intensity).
Proof.
  unfold generatePackets_ARPSpoof. seq s0.
  apply extends_for_lt; try assumption. seq d.
  destruct (d <? 0.3)%float.
  - seq src.
    assert (Hrelay : forall others,
      extends R
        (target <- rng_choice Math_sin others ;;
         match target with
         | Some _ =>
             _ <- createPacket src (Node.find_id "attacker" (nodes s0))
                    Packet.normal 1%float ;;
             setTimeout
               (Relay (Node.find_id "attacker" (nodes s0)) target
                  Packet.attack 1%float)
         | None => ret tt
         end)%js).
    { intro others. seq tg. destruct tg as [tg|]; [|prim]. seq p. prim. }
    destruct src as [src|]; [apply Hrelay|].
    destruct (Node.of_type Node.client (nodes s0)); [apply Hrelay | prim].
  - seq d'. destruct (d' <? 0.5)%float; [|prim].
    seq tg. seq p. prim.
Qed.

Lemma extends_generatePackets (fuel : nat) (intensity : float) :
  extends R (generatePackets Math_sin fuel intensity).
Proof.
  intro s. unfold generatePackets. destruct (class_of s).
  - apply extends_generatePackets_DDoS.
  - apply extends_generatePackets_MITM.
  - apply extends_generatePackets_Firewall.
  - apply extends_generatePackets_ARPSpoof.
Qed.

Lemma extends_updateMetrics_DDoS : extends R (updateMetrics_DDoS Math_sin).
Proof.
  unfold updateMetrics_DDoS. seq s0. seq u.
  destruct (80 <? _)%float.
  - apply extends_drop_overloaded.
  - apply extends_count_received.
Qed.

Lemma extends_updateMetrics : extends R (updateMetrics Math_sin).
Proof.
  intro s. unfold updateMetrics. destruct (class_of s).
  - apply extends_updateMetrics_DDoS.
  - unfold updateMetrics_MITM. revert s. seq s0. seq d. seq u.
    apply extends_count_received.
  - unfold updateMetrics_Firewall. revert s. seq s0. seq u.
    apply extends_count_received.
  - unfold updateMetrics_ARPSpoof. revert s. seq s0. seq d. seq u.
    apply extends_count_received.
Qed.

(** After the sweep: [generatePackets] then [updateMetrics]. *)
Lemma extends_generate_then_metrics (fuel : nat) (intensity : float) :
  extends R
    (generatePackets Math_sin fuel intensity ;; updateMetrics Math_sin)%js.
Proof.
  apply extends_bind; try assumption.
  - apply extends_generatePackets.
  - intros _. apply extends_updateMetrics.
Qed.

Lemma extends_run_callback (cb : callback) :
  callback_ok ok cb -> extends R (run_callback Math_sin cb).
Proof.
  destruct cb as [from to type speed | pid isAttack packetType fw srv];
    simpl; intro Hok.
  - destruct from, to; try prim. seq p. prim.
  - seq s0.
    apply extends_bind; try assumption.
    + destruct isAttack; [|prim]. seq d. prim.
    + intros [|].
      * apply extends_bind; try assumption; [|intros _; prim].
        apply extends_modify. intro s. apply R_block.
      * destruct fw, srv; try prim. seq p. prim.
Qed.

End EngineRules.

(** ** Lists *)

Lemma Forall_map_at (A : Type) (Q : A -> Prop) (f : A -> A) (i : nat)
  (l : list A) :
  (forall x, Q x -> Q (f x)) -> Forall Q l ->
  Forall Q (AttackSimulation.map_at i f l).
Proof.
  intros Hf H. revert i. induction H as [|x l Hx Hl IH]; intro i.
  - destruct i; constructor.
  - destruct i; simpl; constructor; auto.
Qed.

Lemma Forall_nth_error (A : Type) (Q : A -> Prop) (l : list A) (i : nat)
  (x : A) : Forall Q l -> nth_error l i = Some x -> Q x.
Proof.
  intros H E. rewrite Forall_forall in H. apply H.
  eapply nth_error_In, E.
Qed.

(** ** Counter monotonicity *)

Section Counters.

Import AttackSimulation.

Variable Math_sin : float -> float.

Lemma counters_le_refl (m : Metrics) : counters_le m m.
Proof. unfold counters_le. repeat split; apply N.le_refl. Qed.

Lemma counters_le_trans (a b c : Metrics) :
  counters_le a b -> counters_le b c -> counters_le a c.
Proof. unfold counters_le. intros H1 H2. repeat split; lia. Qed.

Lemma counters_grow_refl (s : t) : counters_grow s s.
Proof. apply counters_le_refl. Qed.

Lemma counters_grow_trans (a b c : t) :
  counters_grow a b -> counters_grow b c -> counters_grow a c.
Proof. apply counters_le_trans. Qed.

Lemma counters_grow_same_metrics (s s' : t) :
  metrics s' = metrics s -> counters_grow s s'.
Proof. unfold counters_grow. intros ->. apply counters_le_refl. Qed.

Lemma counters_grow_count (incr : Metrics -> Metrics) :
  (forall m, counters_le m (incr m)) ->
  extends counters_grow (count incr).
Proof. intros H s. apply H. Qed.

Lemma counters_sent (m : Metrics) : counters_le m (sent_incr m).
Proof. unfold counters_le; simpl. repeat split; lia. Qed.

Lemma counters_received (m : Metrics) : counters_le m (received_incr m).
Proof. unfold counters_le; simpl. repeat split; lia. Qed.

Lemma counters_dropped (m : Metrics) : counters_le m (dropped_incr m).
Proof. unfold counters_le; simpl. repeat split; lia. Qed.

Lemma counters_blocked (m : Metrics) : counters_le m (blocked_incr m).
Proof. unfold counters_le; simpl. repeat split; lia. Qed.

Lemma counters_createPacket source target type speed :
  extends counters_grow (createPacket source target type speed).
Proof.
  intro s. unfold createPacket.
  destruct (Packet.new _ source target type speed); simpl;
    try (apply counters_grow_same_metrics; reflexivity).
  apply counters_sent.
Qed.

Lemma counters_generate_then_metrics (fuel : nat) (intensity : float) :
  extends counters_grow
    (generatePackets Math_sin fuel intensity ;; updateMetrics Math_sin)%js.
Proof.
  apply extends_generate_then_metrics with (ok := fun _ => True);
    try exact I; try exact counters_grow_refl;
    try exact counters_grow_trans.
  - intros s r. apply counters_grow_same_metrics; reflexivity.
  - intros. apply counters_createPacket.
  - intros cb _ s. apply counters_grow_same_metrics; reflexivity.
  - intros load lat s. unfold counters_grow, counters_le; simpl.
    repeat split; lia.
  - intros s i p _. apply counters_grow_same_metrics; reflexivity.
  - apply counters_grow_count, counters_dropped.
  - intros c s i p _ _. apply counters_received.
Qed.

Lemma counters_update (fuel : nat) (deltaTime speed intensity : float) :
  extends counters_grow (update Math_sin fuel deltaTime speed intensity).
Proof.
  intro s. unfold update.
  destruct (Packet.sweep _) as [[kept| e |] objects]; simpl;
    try (apply counters_grow_same_metrics; reflexivity).
  eapply counters_grow_trans;
    [|apply counters_generate_then_metrics].
  apply counters_grow_same_metrics; reflexivity.
Qed.

Lemma counters_run_callback (cb : callback) :
  extends counters_grow (run_callback Math_sin cb).
Proof.
  apply extends_run_callback with (ok := fun _ => True);
    try exact I; try exact counters_grow_refl;
    try exact counters_grow_trans.
  - intros s r. apply counters_grow_same_metrics; reflexivity.
  - intros. apply counters_createPacket.
  - intros s pid. apply counters_grow_same_metrics; reflexivity.
  - apply counters_grow_count, counters_blocked.
  - destruct cb; exact I.
Qed.

Lemma counters_step (fuel : nat) (e : event) :
  extends counters_grow (step Math_sin fuel e).
Proof.
  destruct e as [deltaTime speed intensity|]; simpl.
  - apply counters_update.
  - intro s. destruct (timers s) as [|cb rest]; simpl.
    + apply counters_grow_refl.
    + eapply counters_grow_trans; [|apply counters_run_callback].
      apply counters_grow_same_metrics; reflexivity.
Qed.

Lemma counters_run (fuel : nat) (es : list event) (s : t) :
  counters_grow s (run Math_sin fuel es s).
Proof.
  revert s. induction es as [|e es IH]; intro s; simpl.
  - apply counters_grow_refl.
  - eapply counters_grow_trans; [apply counters_step | apply IH].
Qed.

End Counters.

(** C3. For every simulation state and every sequence of [update] calls,
    with timers firing anywhere in between, each of [packetsSent],
    [packetsReceived], [packetsDropped] and [packetsBlocked] is, after any
    further part of the sequence, at least what it was before it; in
    particular after a tick it is at least what it was after the previous
    one. *)
Theorem counters_never_decrease (Math_sin : float -> float) (fuel : nat)
  (before after : list AttackSimulation.event) (s : AttackSimulation.t) :
  counters_grow
    (AttackSimulation.run Math_sin fuel before s)
    (AttackSimulation.run Math_sin fuel (before ++ after) s).
Proof.
  unfold AttackSimulation.run. rewrite fold_left_app.
  apply counters_run.
Qed.

(** ** Arrivals *)

Section Arrivals.

Import AttackSimulation.

Variable Math_sin : float -> float.

Lemma update_kept_not_arrived (p p' : Packet.t) :
  Packet.update p = (Normal true, p') -> not_arrived p'.
Proof.
  unfold Packet.update, not_arrived.
  destruct (negb (Packet.active p)); [discriminate|].
  destruct (1 <=? _)%float eqn:E; [discriminate|].
  simpl in *. destruct (Packet.target p); [|discriminate].
  intro H. injection H as <-. exact E.
Qed.

Lemma sweep_kept_not_arrived (ps kept objects : list Packet.t) :
  Packet.sweep ps = (Normal kept, objects) -> Forall not_arrived kept.
Proof.
  revert kept objects. induction ps as [|p ps IH]; intros kept objects; simpl.
  - intro H. injection H as <- <-. constructor.
  - destruct (Packet.update p) as [[keep| e |] p'] eqn:Eu; try discriminate.
    destruct (Packet.sweep ps) as [[kept'| e |] rest'];
      try discriminate.
    intro H. injection H as <- <-.
    specialize (IH kept' rest' eq_refl).
    destruct keep; [|exact IH].
    constructor; [|exact IH]. eapply update_kept_not_arrived, Eu.
Qed.

(** A packet with a target does not make [update()] throw, so a live
    collection of such packets is swept to the end. *)
Lemma targets_defined_sweep_completes (s : t) :
  Forall (fun p => Packet.target p <> None) (packets s) ->
  sweep_completes s = true.
Proof.
  unfold sweep_completes. induction 1 as [|p ps Hp _ IH]; simpl.
  - reflexivity.
  - unfold Packet.update.
    destruct (negb (Packet.active p)); simpl.
    + destruct (Packet.sweep ps) as [[kept| e |] rest]; simpl in *;
        first [reflexivity | discriminate IH].
    + destruct (1 <=? _)%float; simpl.
      * destruct (Packet.sweep ps) as [[kept| e |] rest]; simpl in *;
          first [reflexivity | discriminate IH].
      * destruct (Packet.target p); [|contradiction]. simpl.
        destruct (Packet.sweep ps) as [[kept| e |] rest]; simpl in *;
          first [reflexivity | discriminate IH].
Qed.

Lemma nothing_received_refl (s : t) : nothing_received s s.
Proof. intro H. split; [exact H | reflexivity]. Qed.

Lemma nothing_received_trans (a b c : t) :
  nothing_received a b -> nothing_received b c -> nothing_received a c.
Proof.
  intros H1 H2 Ha. destruct (H1 Ha) as [Hb E1].
  destruct (H2 Hb) as [Hc E2]. split; [exact Hc | congruence].
Qed.

Lemma nothing_received_same (s s' : t) :
  packets s' = packets s ->
  packetsReceived (metrics s') = packetsReceived (metrics s) ->
  nothing_received s s'.
Proof.
  intros Hp Hm H. unfold live_not_arrived in *. rewrite Hp. auto.
Qed.

Lemma arrived_not_arrived (countable : Packet.t -> bool) (p : Packet.t) :
  not_arrived p -> arrived countable p = false.
Proof.
  unfold not_arrived, arrived. intros ->.
  rewrite andb_false_r. reflexivity.
Qed.

Lemma nothing_received_createPacket source target type speed :
  extends nothing_received (createPacket source target type speed).
Proof.
  intro s. unfold createPacket, Packet.new.
  destruct source as [src|]; simpl.
  - intro H. split; [|reflexivity].
    unfold live_not_arrived in *; simpl.
    apply Forall_app. split; [exact H|].
    constructor; [reflexivity | constructor].
  - apply nothing_received_same; reflexivity.
Qed.

Lemma nothing_received_generate_then_metrics (fuel : nat)
  (intensity : float) :
  extends nothing_received
    (generatePackets Math_sin fuel intensity ;; updateMetrics Math_sin)%js.
Proof.
  apply extends_generate_then_metrics with (ok := fun _ => True);
    try exact I; try exact nothing_received_refl;
    try exact nothing_received_trans.
  - intros s r. apply nothing_received_same; reflexivity.
  - intros. apply nothing_received_createPacket.
  - intros cb _ s. apply nothing_received_same; reflexivity.
  - intros load lat s. apply nothing_received_same; reflexivity.
  - intros s i p _ H. split; [|reflexivity].
    unfold live_not_arrived in *; simpl.
    apply Forall_map_at; [|exact H]. intros x Hx. exact Hx.
  - intros c s i p E Ha H. exfalso.
    rewrite (arrived_not_arrived c p (Forall_nth_error _ _ _ _ _ H E)) in Ha.
    discriminate Ha.
Qed.

End Arrivals.

(** In no state does an [update] whose sweep completes count an arrival:
    the packets that reach 1 are filtered out before [updateMetrics] looks
    for them. *)
Lemma update_counts_no_arrival (Math_sin : float -> float) (fuel : nat)
  (deltaTime speed intensity : float) (s : AttackSimulation.t) :
  sweep_completes s = true ->
  let s' :=
    exec (AttackSimulation.update Math_sin fuel deltaTime speed intensity) s in
  live_not_arrived s'
  /\ AttackSimulation.packetsReceived (AttackSimulation.metrics s')
     = AttackSimulation.packetsReceived (AttackSimulation.metrics s).
Proof.
  unfold sweep_completes, exec, AttackSimulation.update. simpl.
  destruct (Packet.sweep (AttackSimulation.packets s))
    as [[kept| e |] objects] eqn:E; try discriminate.
  intros _.
  apply (nothing_received_generate_then_metrics Math_sin fuel intensity
           (AttackSimulation.set_packets kept
              (AttackSimulation.set_time
                 (AttackSimulation.time s + deltaTime * speed)%float s))).
  unfold live_not_arrived. simpl.
  eapply sweep_kept_not_arrived, E.
Qed.



(** C2 at the application's defaults. One packet is sent in the first
    frame; fifty frames later it has reached the server and left the live
    collection, and no counter has recorded it. *)
Theorem arrived_packet_is_not_counted :
  let m := AttackSimulation.metrics (Reference.ddos_after 50) in
  AttackSimulation.packetsSent m = 1%N
  /\ AttackSimulation.packets (Reference.ddos_after 50) = []
  /\ AttackSimulation.packetsReceived m = 0%N
  /\ AttackSimulation.packetsDropped m = 0%N
  /\ AttackSimulation.packetsBlocked m = 0%N.
Proof. vm_compute. repeat split. Qed.

(** ** Packet.update *)

Section PacketUpdate.

Lemma update_inactive (p : Packet.t) :
  Packet.active p = false -> Packet.update p = (Normal false, p).
Proof. intro H. unfold Packet.update. rewrite H. reflexivity. Qed.

(** What a call on an active packet does to speed, progress and the
    active flag, whether or not the read of the target throws. *)
Lemma update_active (p : Packet.t) :
  Packet.active p = true ->
  let p' := snd (Packet.update p) in
  Packet.speed p' = Packet.speed p
  /\ Packet.progress p' = (Packet.progress p + Packet.speed p * 0.01)%float
  /\ Packet.active p' = negb (1 <=? Packet.progress p')%float
  /\ ((1 <=? Packet.progress p')%float = true ->
      fst (Packet.update p) = Normal false).
Proof.
  intro H. unfold Packet.update. rewrite H. simpl.
  destruct (1 <=? Packet.progress p + Packet.speed p * 0.01)%float eqn:E;
    simpl.
  - rewrite E. repeat split.
  - destruct (Packet.target p); simpl; rewrite E, ?H; repeat split;
      intro; discriminate.
Qed.

Lemma update_speed (p : Packet.t) :
  Packet.speed (snd (Packet.update p)) = Packet.speed p.
Proof.
  destruct (Packet.active p) eqn:H.
  - apply (update_active p H).
  - rewrite update_inactive by exact H. reflexivity.
Qed.

End PacketUpdate.

(** ** Trajectories *)

Section Trajectories.

Lemma trajectory_ok_engine (v : float) :
  engine_speed v -> trajectory_ok v = true.
Proof. intros [->|[->| ->]]; vm_compute; reflexivity. Qed.

Lemma lifetime_pos (v : float) : engine_speed v -> (0 < lifetime v)%nat.
Proof. intros [->|[->| ->]]; vm_compute; lia. Qed.

Lemma trajectory_before (v : float) (k : nat) :
  engine_speed v -> (k < lifetime v)%nat ->
  let x := progress_after v k in
  (0 <=? x)%float = true /\ (x <? 1)%float = true
  /\ (1 <=? x)%float = false
  /\ (x <? progress_after v (S k))%float = true.
Proof.
  intros Hv Hk. pose proof (trajectory_ok_engine v Hv) as H.
  unfold trajectory_ok in H. apply andb_prop in H. destruct H as [H _].
  rewrite forallb_forall in H.
  specialize (H k). rewrite in_seq in H. specialize (H ltac:(lia)).
  cbv zeta in H. repeat (apply andb_prop in H; destruct H as [H ?]).
  cbv zeta. repeat split; try assumption.
  now apply negb_true_iff.
Qed.

Lemma trajectory_end (v : float) :
  engine_speed v -> (1 <=? progress_after v (lifetime v))%float = true.
Proof.
  intros Hv. pose proof (trajectory_ok_engine v Hv) as H.
  unfold trajectory_ok in H. apply andb_prop in H. apply H.
Qed.

Lemma on_trajectory_new (id : N) (source target : option Node.t)
  (type : Packet.kind) (speed : float) (p : Packet.t) :
  engine_speed speed ->
  Packet.new id source target type speed = Normal p -> on_trajectory p.
Proof.
  intros Hv. unfold Packet.new. destruct source; [|discriminate].
  intro H. injection H as <-. split; [exact Hv|].
  exists 0%nat. simpl. repeat split; try lia.
  intros _. apply lifetime_pos, Hv.
Qed.

Lemma on_trajectory_deactivated (p : Packet.t) :
  on_trajectory p -> on_trajectory (Packet.set_active false p).
Proof.
  intros [Hv [k [Hk [Hp _]]]]. split; [exact Hv|].
  exists k. simpl. repeat split; try assumption. discriminate.
Qed.

Lemma on_trajectory_blocked (p : Packet.t) :
  on_trajectory p ->
  on_trajectory (Packet.set_active false (Packet.set_type Packet.blocked p)).
Proof.
  intros [Hv [k [Hk [Hp _]]]]. split; [exact Hv|].
  exists k. simpl. repeat split; try assumption. discriminate.
Qed.

Lemma on_trajectory_update (p : Packet.t) :
  on_trajectory p -> on_trajectory (snd (Packet.update p)).
Proof.
  intros Hp. destruct (Packet.active p) eqn:Ha.
  - destruct Hp as [Hv [k [Hk [Hprog Hact]]]].
    specialize (Hact Ha).
    destruct (update_active p Ha) as [Hs [Hpr [Hac _]]].
    split; [rewrite Hs; exact Hv|].
    exists (S k). rewrite Hs. repeat split.
    + lia.
    + rewrite Hpr, Hprog. reflexivity.
    + rewrite Hac, Hpr, Hprog. intro Hn. apply negb_true_iff in Hn.
      change (progress_after (Packet.speed p) k + Packet.speed p * 0.01)%float
        with (progress_after (Packet.speed p) (S k)) in Hn.
      destruct (Nat.eq_dec (S k) (lifetime (Packet.speed p))) as [E|E];
        [|lia].
      rewrite E, (trajectory_end _ Hv) in Hn. discriminate Hn.
  - rewrite update_inactive by exact Ha. exact Hp.
Qed.

Lemma on_trajectory_sweep (ps : list Packet.t) :
  Forall on_trajectory ps ->
  Forall on_trajectory (snd (Packet.sweep ps))
  /\ forall kept, fst (Packet.sweep ps) = Normal kept ->
                  Forall on_trajectory kept.
Proof.
  induction 1 as [|p ps Hp Hps [IHo IHk]]; simpl.
  - split; [constructor|]. intros kept H. injection H as <-. constructor.
  - pose proof (on_trajectory_update p Hp) as Hp'.
    destruct (Packet.update p) as [[keep| e |] p']; simpl in *.
    + destruct (Packet.sweep ps) as [[kept'| e |] rest']; simpl in *;
        (split; [constructor; assumption|]); intros kept H;
        try discriminate.
      injection H as <-. specialize (IHk kept' eq_refl).
      destruct keep; [constructor|]; assumption.
    + split; [constructor; assumption|]. discriminate.
    + split; [constructor; assumption|]. discriminate.
Qed.

(** The claims of the specification about one packet, from its place on
    the trajectory. *)
Lemma on_trajectory_progress (p : Packet.t) :
  on_trajectory p ->
  let p' := snd (Packet.update p) in
  (Packet.active p = true ->
   (0 <=? Packet.progress p)%float = true
   /\ (Packet.progress p <? 1)%float = true
   /\ (Packet.progress p <? Packet.progress p')%float = true)
  /\ ((1 <=? Packet.progress p)%float = true ->
      Packet.active p = false /\ fst (Packet.update p) = Normal false)
  /\ (Packet.active p = true -> (1 <=? Packet.progress p')%float = true ->
      Packet.active p' = false /\ fst (Packet.update p) = Normal false).
Proof.
  intros [Hv [k [Hk [Hprog Hact]]]] p'.
  assert (Hlive : Packet.active p = true ->
                  (1 <=? Packet.progress p)%float = false).
  { intro Ha. rewrite Hprog. apply (trajectory_before _ k Hv (Hact Ha)). }
  split; [|split].
  - intro Ha. destruct (trajectory_before _ k Hv (Hact Ha)) as [H0 [H1 [_ Hlt]]].
    cbv zeta in *. rewrite Hprog. repeat split; try assumption.
    unfold p'. destruct (update_active p Ha) as [_ [Hpr _]].
    rewrite Hpr, Hprog. exact Hlt.
  - intro H. destruct (Packet.active p) eqn:Ha.
    + rewrite (Hlive eq_refl) in H. discriminate H.
    + split; [reflexivity|]. rewrite update_inactive by exact Ha.
      reflexivity.
  - intros Ha H. subst p'.
    destruct (update_active p Ha) as [_ [_ [Hac Hf]]].
    split; [rewrite Hac, H; reflexivity | apply Hf, H].
Qed.

End Trajectories.

(** ** The invariant of the engine *)

Section EngineInvariant.

Import AttackSimulation.

Variables Math_sin Math_cos : float -> float.

Lemma keeps_refl (P : t -> Prop) (s : t) : keeps P s s.
Proof. intro H. exact H. Qed.

Lemma keeps_trans (P : t -> Prop) (a b c : t) :
  keeps P a b -> keeps P b c -> keeps P a c.
Proof. unfold keeps. auto. Qed.

Lemma engine_inv_same (s s' : t) :
  packets s' = packets s -> timers s' = timers s ->
  keeps engine_inv s s'.
Proof. unfold keeps, engine_inv. intros -> ->. auto. Qed.

Lemma engine_inv_createPacket source target type speed :
  engine_speed speed ->
  extends (keeps engine_inv) (createPacket source target type speed).
Proof.
  intros Hv s. unfold createPacket.
  destruct (Packet.new (packetIdCounter s) source target type speed)
    as [p| e |] eqn:E; simpl;
    try (apply engine_inv_same; reflexivity).
  intros [Hp Ht]. split; [|exact Ht]. simpl.
  apply Forall_app. split; [exact Hp|].
  constructor; [|constructor].
  eapply on_trajectory_new; [exact Hv | exact E].
Qed.

Lemma engine_inv_setTimeout (cb : callback) :
  callback_ok engine_speed cb ->
  extends (keeps engine_inv) (setTimeout cb).
Proof.
  intros Hcb s [Hp Ht]. split; [exact Hp|]. simpl.
  apply Forall_app. split; [exact Ht|]. constructor; [exact Hcb|constructor].
Qed.

Lemma engine_inv_generate_then_metrics (fuel : nat) (intensity : float) :
  extends (keeps engine_inv)
    (generatePackets Math_sin fuel intensity ;; updateMetrics Math_sin)%js.
Proof.
  apply extends_generate_then_metrics with (ok := engine_speed);
    try exact (keeps_refl engine_inv);
    try exact (keeps_trans engine_inv).
  - left. reflexivity.
  - right. left. reflexivity.
  - right. right. reflexivity.
  - intros s r. apply engine_inv_same; reflexivity.
  - exact engine_inv_createPacket.
  - exact engine_inv_setTimeout.
  - intros load lat s. apply engine_inv_same; reflexivity.
  - intros s i p _ [Hp Ht]. split; [|exact Ht]. simpl.
    apply Forall_map_at; [exact on_trajectory_deactivated | exact Hp].
  - intros c s i p _ _. apply engine_inv_same; reflexivity.
Qed.

Lemma engine_inv_update (fuel : nat) (deltaTime speed intensity : float) :
  extends (keeps engine_inv) (update Math_sin fuel deltaTime speed intensity).
Proof.
  intros s [Hp Ht]. unfold update. simpl.
  destruct (on_trajectory_sweep (packets s) Hp) as [Ho Hk].
  destruct (Packet.sweep (packets s)) as [[kept| e |] objects]; simpl in *;
    try (split; assumption).
  apply engine_inv_generate_then_metrics.
  split; [apply Hk; reflexivity | exact Ht].
Qed.

Lemma on_trajectory_block (pid : N) (ps : list Packet.t) :
  Forall on_trajectory ps -> Forall on_trajectory (block pid ps).
Proof.
  induction 1 as [|p ps Hp _ IH]; simpl; constructor; try exact IH.
  destruct (Packet.id p =? pid)%N;
    [apply on_trajectory_blocked|]; exact Hp.
Qed.

Lemma engine_inv_run_callback (cb : callback) :
  callback_ok engine_speed cb ->
  extends (keeps engine_inv) (run_callback Math_sin cb).
Proof.
  apply extends_run_callback;
    try exact (keeps_refl engine_inv);
    try exact (keeps_trans engine_inv).
  - right. left. reflexivity.
  - intros s r. apply engine_inv_same; reflexivity.
  - exact engine_inv_createPacket.
  - intros s pid [Hp Ht]. split; [|exact Ht]. simpl.
    apply on_trajectory_block, Hp.
Qed.

Lemma engine_inv_step (fuel : nat) (e : event) :
  extends (keeps engine_inv) (step Math_sin fuel e).
Proof.
  destruct e as [deltaTime speed intensity|]; simpl.
  - apply engine_inv_update.
  - intros s Hs. destruct (timers s) as [|cb rest] eqn:E; simpl.
    + exact Hs.
    + destruct Hs as [Hp Ht]. rewrite E in Ht.
      apply engine_inv_run_callback.
      * exact (Forall_inv Ht).
      * split; [exact Hp | exact (Forall_inv_tail Ht)].
Qed.

(** [initialize] builds nodes only. *)
Lemma initialize_packets_timers (randoms : nat -> float) (s : t) :
  packets (initialize Math_sin Math_cos randoms s) = packets s
  /\ timers (initialize Math_sin Math_cos randoms s) = timers s.
Proof.
  unfold initialize. destruct (class_of s); try (split; reflexivity).
  unfold initialize_Firewall.
  destruct (firewall_clients _ _ _ _ _ _ _) as [[ns| e |] r];
    split; reflexivity.
Qed.

Lemma reachable_engine_inv (s : t) :
  reachable Math_sin Math_cos s -> engine_inv s.
Proof.
  induction 1 as [randoms name rng w h s log Hc | fuel e s _ IH].
  - unfold SimulationFactory.create in Hc.
    destruct (Scenario.SCENARIOS name) as [sc|]; [|discriminate].
    injection Hc as <- _.
    destruct (initialize_packets_timers randoms
                (construct (SimulationFactory.class_for name) sc rng w h))
      as [Hp Ht].
    unfold engine_inv. rewrite Hp, Ht. split; constructor.
  - apply engine_inv_step, IH.
Qed.

Lemma reachable_run (fuel : nat) (es : list event) (s : t) :
  reachable Math_sin Math_cos s ->
  reachable Math_sin Math_cos (run Math_sin fuel es s).
Proof.
  revert s. induction es as [|e es IH]; intros s H; simpl.
  - exact H.
  - apply IH. apply reachable_step, H.
Qed.

End EngineInvariant.

(** C8. For every packet of the live collection of a simulation the factory
    returned, at any point of its run: while the packet is active its
    progress lies in [0, 1) and the next [update()] strictly increases it;
    a packet whose progress is 1 or more is inactive, and [update()]
    answers false on it, which is what the sweep removes it on; and the
    [update()] that takes an active packet to 1 or more deactivates it and
    answers false. *)
Theorem packet_progress_invariant (Math_sin Math_cos : float -> float)
  (s : AttackSimulation.t) (p : Packet.t) :
  reachable Math_sin Math_cos s ->
  In p (AttackSimulation.packets s) ->
  let p' := snd (Packet.update p) in
  (Packet.active p = true ->
   (0 <=? Packet.progress p)%float = true
   /\ (Packet.progress p <? 1)%float = true
   /\ (Packet.progress p <? Packet.progress p')%float = true)
  /\ ((1 <=? Packet.progress p)%float = true ->
      Packet.active p = false /\ fst (Packet.update p) = Normal false)
  /\ (Packet.active p = true -> (1 <=? Packet.progress p')%float = true ->
      Packet.active p' = false /\ fst (Packet.update p) = Normal false).
Proof.
  intros Hs Hp. apply on_trajectory_progress.
  destruct (reachable_engine_inv Math_sin Math_cos s Hs) as [H _].
  rewrite Forall_forall in H. apply H, Hp.
Qed.

Lemma reference_ddos_reachable (n : nat) :
  reachable Reference.Math_sin Reference.Math_cos (Reference.ddos_after n).
Proof.
  apply reachable_run.
  apply (reachable_create Reference.Math_sin Reference.Math_cos
           Reference.randoms "ddos" (SeededRandom.new 12345%float)
           800%float 600%float Reference.ddos []).
  reflexivity.
Defined.

(** The packet taken here is at progress 0.98, one call from arrival. *)
Lemma packet_progress_invariant_witness :
  match Reference.packet_after 49 with
  | Some p =>
      reachable Reference.Math_sin Reference.Math_cos (Reference.ddos_after 49)
      /\ In p (AttackSimulation.packets (Reference.ddos_after 49))
      /\ (let p' := snd (Packet.update p) in
          (Packet.active p = true ->
           (0 <=? Packet.progress p)%float = true
           /\ (Packet.progress p <? 1)%float = true
           /\ (Packet.progress p <? Packet.progress p')%float = true)
          /\ ((1 <=? Packet.progress p)%float = true ->
              Packet.active p = false
              /\ fst (Packet.update p) = Normal false)
          /\ (Packet.active p = true ->
              (1 <=? Packet.progress p')%float = true ->
              Packet.active p' = false
              /\ fst (Packet.update p) = Normal false))
  | None => False
  end.
Proof.
  assert (Hin : forall p, Reference.packet_after 49 = Some p ->
                In p (AttackSimulation.packets (Reference.ddos_after 49))).
  { unfold Reference.packet_after.
    destruct (AttackSimulation.packets (Reference.ddos_after 49));
      [discriminate|].
    intros p H. injection H as <-. left. reflexivity. }
  destruct (Reference.packet_after 49) as [p|] eqn:E.
  - split; [apply reference_ddos_reachable|].
    split; [apply Hin; reflexivity|].
    apply (packet_progress_invariant Reference.Math_sin Reference.Math_cos
             (Reference.ddos_after 49) p (reference_ddos_reachable 49)
             (Hin p eq_refl)).
  - vm_compute in E. discriminate E.
Defined.

(** ** The DDoS frame *)

Section Outcomes.








End Outcomes.

Section DDoSFrame.

Import AttackSimulation.

Variable Math_sin : float -> float.

Lemma js_nth_In (A : Type) (l : list A) (i : float) (x : A) :
  Num.js_nth l i = Some x -> In x l.
Proof.
  unfold Num.js_nth. destruct (Num.array_index i) as [k|]; [|discriminate].
  destruct (k <? N.of_nat (length l))%N; [|discriminate].
  apply nth_error_In.
Qed.

Lemma choice_In (A : Type) (l : list A) (r : SeededRandom.t) (x : A) :
  fst (SeededRandom.choice Math_sin l r) = Normal (Some x) -> In x l.
Proof.
  unfold SeededRandom.choice, SeededRandom.int, SeededRandom.range, bind, ret.
  simpl. intro H. injection H as H. eapply js_nth_In, H.
Qed.

Variable serverNode : option Node.t.
Variable attackers : list Node.t.

Local Abbreviation slot :=
  (d <- rng_next Math_sin ;;
   if (d <? 0.5)%float then
     attacker <- rng_choice Math_sin attackers ;;
     _ <- createPacket attacker serverNode Packet.attack 2%float ;;
     ret tt
   else ret tt)%js.



End DDoSFrame.




(** ** Determinism *)

Section Views.

Import AttackSimulation.

Lemma view_fields (s1 s2 : t) :
  view s1 = view s2 ->
  class_of s1 = class_of s2 /\ scenario s1 = scenario s2
  /\ rng s1 = rng s2 /\ canvasWidth s1 = canvasWidth s2
  /\ canvasHeight s1 = canvasHeight s2
  /\ same_nodes (nodes s1) (nodes s2)
  /\ map packet_view (packets s1) = map packet_view (packets s2)
  /\ metrics s1 = metrics s2 /\ time s1 = time s2
  /\ packetIdCounter s1 = packetIdCounter s2
  /\ map callback_view (timers s1) = map callback_view (timers s2).
Proof.
  unfold view, same_nodes. intro H. injection H. intros. repeat split; assumption.
Qed.

Lemma view_intro (s1 s2 : t) :
  class_of s1 = class_of s2 -> scenario s1 = scenario s2 ->
  rng s1 = rng s2 -> canvasWidth s1 = canvasWidth s2 ->
  canvasHeight s1 = canvasHeight s2 ->
  same_nodes (nodes s1) (nodes s2) ->
  map packet_view (packets s1) = map packet_view (packets s2) ->
  metrics s1 = metrics s2 -> time s1 = time s2 ->
  packetIdCounter s1 = packetIdCounter s2 ->
  map callback_view (timers s1) = map callback_view (timers s2) ->
  view s1 = view s2.
Proof. unfold view, same_nodes. intros. congruence. Qed.

End Views.

Ltac view_solve H :=
  let F := fresh "F" in
  pose proof (view_fields _ _ H) as F; unfold same_nodes in F;
  decompose [and] F; clear F;
  apply view_intro; unfold same_nodes; simpl; try congruence.

Section SameView.

Import AttackSimulation.

Variable Math_sin : float -> float.

(** *** Pure functions commute with the view *)

Lemma find_id_view (name : string) (ns : list Node.t) :
  Node.find_id name (map node_view ns)
  = option_map node_view (Node.find_id name ns).
Proof.
  unfold Node.find_id. induction ns as [|n ns IH]; simpl; [reflexivity|].
  destruct (String.eqb (Node.id n) name); [reflexivity | exact IH].
Qed.

Lemma filter_view (test : Node.t -> bool) (ns : list Node.t) :
  (forall n, test (node_view n) = test n) ->
  filter test (map node_view ns) = map node_view (filter test ns).
Proof.
  intro Ht. induction ns as [|n ns IH]; simpl; [reflexivity|].
  rewrite Ht. destruct (test n); simpl; rewrite IH; reflexivity.
Qed.

Lemma same_node_find (name : string) (a b : list Node.t) :
  same_nodes a b -> same_node (Node.find_id name a) (Node.find_id name b).
Proof.
  unfold same_nodes, same_node. intro H.
  rewrite <- !find_id_view, H. reflexivity.
Qed.

Lemma same_nodes_filter (test : Node.t -> bool) (a b : list Node.t) :
  (forall n, test (node_view n) = test n) ->
  same_nodes a b -> same_nodes (filter test a) (filter test b).
Proof.
  unfold same_nodes. intros Ht H.
  rewrite <- !filter_view by exact Ht. rewrite H. reflexivity.
Qed.

Lemma js_nth_map (A B : Type) (f : A -> B) (l : list A) (i : float) :
  Num.js_nth (map f l) i = option_map f (Num.js_nth l i).
Proof.
  unfold Num.js_nth. destruct (Num.array_index i) as [k|]; [|reflexivity].
  rewrite length_map. destruct (k <? N.of_nat (length l))%N; [|reflexivity].
  apply nth_error_map.
Qed.

Lemma update_view (p : Packet.t) :
  Packet.update (packet_view p)
  = (fst (Packet.update p), packet_view (snd (Packet.update p))).
Proof.
  unfold Packet.update. simpl.
  destruct (Packet.active p); simpl; [|reflexivity].
  destruct (1 <=? _)%float; simpl; [reflexivity|].
  destruct (Packet.target p); reflexivity.
Qed.

Lemma sweep_view (ps : list Packet.t) :
  Packet.sweep (map packet_view ps)
  = (match fst (Packet.sweep ps) with
     | Normal kept => Normal (map packet_view kept)
     | Throw e => Throw e
     | Exhausted => Exhausted
     end, map packet_view (snd (Packet.sweep ps))).
Proof.
  induction ps as [|p ps IH]; simpl; [reflexivity|].
  rewrite update_view.
  destruct (Packet.update p) as [[keep| e |] p']; simpl; try reflexivity.
  rewrite IH. destruct (Packet.sweep ps) as [[kept| e |] rest]; simpl;
    try reflexivity.
  destruct keep; reflexivity.
Qed.

Lemma active_view (ps : list Packet.t) :
  length (filter Packet.active (map packet_view ps))
  = length (filter Packet.active ps).
Proof.
  induction ps as [|p ps IH]; simpl; [reflexivity|].
  destruct (Packet.active p); simpl; rewrite IH; reflexivity.
Qed.

Lemma activePackets_view (s1 s2 : t) :
  view s1 = view s2 -> activePackets s1 = activePackets s2.
Proof.
  intro H. destruct (view_fields _ _ H) as [_ [_ [_ [_ [_ [_ [Hp _]]]]]]].
  unfold activePackets. rewrite <- (active_view (packets s1)), Hp, active_view.
  reflexivity.
Qed.

Lemma map_at_view (i : nat) (f : Packet.t -> Packet.t) (ps : list Packet.t) :
  (forall p, packet_view (f p) = f (packet_view p)) ->
  map packet_view (map_at i f ps) = map_at i f (map packet_view ps).
Proof.
  intro Hf. revert i. induction ps as [|p ps IH]; intro i; simpl.
  - destruct i; reflexivity.
  - destruct i; simpl; [rewrite Hf | rewrite IH]; reflexivity.
Qed.

Lemma block_view (pid : N) (ps : list Packet.t) :
  map packet_view (block pid ps) = block pid (map packet_view ps).
Proof.
  unfold block. rewrite !map_map. apply map_ext. intro p. simpl.
  destruct (Packet.id p =? pid)%N; reflexivity.
Qed.

(** *** The monad *)

Lemma same_view_ret (A : Type) (RA : A -> A -> Prop) (a b : A) :
  RA a b -> same_view RA (ret a) (ret b).
Proof. intros H s1 s2 Hs. split; assumption. Qed.

Lemma same_view_throw (A : Type) (RA : A -> A -> Prop) (e : exn) :
  same_view RA (throw e) (throw e).
Proof. intros s1 s2 Hs. split; [reflexivity | assumption]. Qed.

Lemma same_view_get :
  same_view (fun a b => view a = view b) get get.
Proof. intros s1 s2 Hs. split; assumption. Qed.

Lemma same_view_modify (f1 f2 : t -> t) :
  (forall s1 s2, view s1 = view s2 -> view (f1 s1) = view (f2 s2)) ->
  same_view eq (modify f1) (modify f2).
Proof. intros H s1 s2 Hs. split; [reflexivity | apply H, Hs]. Qed.

Lemma same_view_bind (A B : Type) (RA : A -> A -> Prop)
  (RB : B -> B -> Prop) (m1 m2 : JS t A) (k1 k2 : A -> JS t B) :
  same_view RA m1 m2 ->
  (forall a b, RA a b -> same_view RB (k1 a) (k2 b)) ->
  same_view RB (bind m1 k1) (bind m2 k2).
Proof.
  intros Hm Hk s1 s2 Hs. unfold bind.
  destruct (Hm s1 s2 Hs) as [Hc Hv].
  destruct (m1 s1) as [[a| e |] s1'], (m2 s2) as [[b| e' |] s2'];
    simpl in *; try contradiction; try (split; assumption).
  apply Hk; assumption.
Qed.

Lemma same_view_for_lt (fuel : nat) (i bound : float)
  (body1 body2 : JS t unit) :
  same_view eq body1 body2 ->
  same_view eq (for_lt fuel i bound body1) (for_lt fuel i bound body2).
Proof.
  intro Hb. revert i. induction fuel as [|f IH]; intro i; simpl.
  - intros s1 s2 Hs. split; [exact I | exact Hs].
  - destruct (i <? bound)%float.
    + eapply same_view_bind; [exact Hb | intros _ _ _; apply IH].
    + apply same_view_ret. reflexivity.
Qed.

(** *** The primitives of the engine *)

Lemma same_view_on_rng (A : Type) (m : JS SeededRandom.t A) :
  same_view eq (on_rng m) (on_rng m).
Proof.
  intros s1 s2 Hs. unfold on_rng.
  assert (Hr : rng s1 = rng s2) by apply (view_fields _ _ Hs).
  rewrite Hr. destruct (m (rng s2)) as [c r]. simpl. split.
  - destruct c; simpl; trivial.
  - view_solve Hs.
Qed.

Lemma same_view_choice (A : Type) (f : A -> A) (l1 l2 : list A) :
  map f l1 = map f l2 ->
  same_view (fun a b => option_map f a = option_map f b)
    (rng_choice Math_sin l1) (rng_choice Math_sin l2).
Proof.
  intros Hl s1 s2 Hs.
  assert (Hr : rng s1 = rng s2) by apply (view_fields _ _ Hs).
  assert (Hn : length l1 = length l2).
  { rewrite <- (length_map f l1), Hl, length_map. reflexivity. }
  unfold rng_choice, on_rng, SeededRandom.choice, SeededRandom.int,
    SeededRandom.range, bind, ret.
  cbn [SeededRandom.next fst snd]. rewrite Hr, Hn. split.
  - simpl. rewrite <- !js_nth_map, Hl. reflexivity.
  - view_solve Hs.
Qed.

Lemma same_view_createPacket (src1 src2 tgt1 tgt2 : option Node.t)
  (type : Packet.kind) (speed : float) :
  same_node src1 src2 -> same_node tgt1 tgt2 ->
  same_view same_packet (createPacket src1 tgt1 type speed)
    (createPacket src2 tgt2 type speed).
Proof.
  unfold same_node. intros Hsrc Htgt s1 s2 Hs.
  assert (Hc : packetIdCounter s1 = packetIdCounter s2)
    by apply (view_fields _ _ Hs).
  unfold createPacket, Packet.new.
  destruct src1 as [a|], src2 as [b|]; try discriminate; simpl.
  - assert (Hab : node_view a = node_view b)
      by (simpl in Hsrc; congruence).
    assert (Hp : same_packet
      (Packet.mk (packetIdCounter s1) a tgt1 type speed 0%float (Node.x a)
         (Node.y a) true [])
      (Packet.mk (packetIdCounter s2) b tgt2 type speed 0%float (Node.x b)
         (Node.y b) true [])).
    { unfold same_packet, packet_view. simpl.
      rewrite Hab, Htgt, Hc.
      change (Node.x a) with (Node.x (node_view a)).
      change (Node.y a) with (Node.y (node_view a)).
      rewrite Hab. reflexivity. }
    split; [exact Hp|].
    view_solve Hs. rewrite !map_app. simpl.
    unfold same_packet in Hp. congruence.
  - split; [reflexivity|]. view_solve Hs.
Qed.

Lemma same_view_setTimeout (cb1 cb2 : callback) :
  callback_view cb1 = callback_view cb2 ->
  same_view eq (setTimeout cb1) (setTimeout cb2).
Proof.
  intro Hcb. apply same_view_modify. intros s1 s2 Hs.
  view_solve Hs. rewrite !map_app. simpl. congruence.
Qed.

Lemma same_view_count (incr : Metrics -> Metrics) :
  same_view eq (count incr) (count incr).
Proof. apply same_view_modify. intros s1 s2 Hs. view_solve Hs. Qed.

Lemma same_view_set_serverLoad (load lat : float) :
  same_view eq (set_serverLoad load lat) (set_serverLoad load lat).
Proof. apply same_view_modify. intros s1 s2 Hs. view_solve Hs. Qed.

Lemma same_view_mutate_packet (i : nat) (f : Packet.t -> Packet.t) :
  (forall p, packet_view (f p) = f (packet_view p)) ->
  same_view eq (mutate_packet i f) (mutate_packet i f).
Proof.
  intro Hf. apply same_view_modify. intros s1 s2 Hs. view_solve Hs.
  rewrite !map_at_view by exact Hf. congruence.
Qed.

Lemma same_view_forEach_from (n i : nat)
  (cb1 cb2 : nat -> Packet.t -> JS t unit) :
  (forall j p1 p2, same_packet p1 p2 -> same_view eq (cb1 j p1) (cb2 j p2)) ->
  same_view eq (forEach_from n i cb1) (forEach_from n i cb2).
Proof.
  intro Hcb. revert i. induction n as [|n IH]; intro i; simpl.
  - apply same_view_ret. reflexivity.
  - eapply same_view_bind; [apply same_view_get|].
    intros a b Hab. eapply same_view_bind; [|intros _ _ _; apply IH].
    assert (Hp : map packet_view (packets a) = map packet_view (packets b))
      by apply (view_fields _ _ Hab).
    assert (Hn : option_map packet_view (nth_error (packets a) i)
                 = option_map packet_view (nth_error (packets b) i)).
    { rewrite <- !nth_error_map, Hp. reflexivity. }
    destruct (nth_error (packets a) i) as [p1|],
             (nth_error (packets b) i) as [p2|]; try discriminate.
    + apply Hcb. unfold same_packet. simpl in Hn. congruence.
    + apply same_view_ret. reflexivity.
Qed.

Lemma same_view_packets_forEach (cb1 cb2 : nat -> Packet.t -> JS t unit) :
  (forall j p1 p2, same_packet p1 p2 -> same_view eq (cb1 j p1) (cb2 j p2)) ->
  same_view eq (packets_forEach cb1) (packets_forEach cb2).
Proof.
  intro Hcb. eapply same_view_bind; [apply same_view_get|].
  intros a b Hab.
  assert (Hn : length (packets a) = length (packets b)).
  { rewrite <- (length_map packet_view (packets a)),
      <- (length_map packet_view (packets b)).
    f_equal. apply (view_fields _ _ Hab). }
  rewrite Hn. apply same_view_forEach_from, Hcb.
Qed.

(** *** The methods *)

Ltac sv_ret := apply same_view_ret; reflexivity.

Lemma same_packet_fields (p1 p2 : Packet.t) :
  same_packet p1 p2 ->
  Packet.id p1 = Packet.id p2 /\ Packet.type p1 = Packet.type p2
  /\ Packet.progress p1 = Packet.progress p2
  /\ Packet.active p1 = Packet.active p2.
Proof.
  unfold same_packet, packet_view. intro H. injection H. intros.
  repeat split; assumption.
Qed.

Lemma same_view_generatePackets_DDoS (fuel : nat) (intensity : float) :
  same_view eq (generatePackets_DDoS Math_sin fuel intensity)
    (generatePackets_DDoS Math_sin fuel intensity).
Proof.
  unfold generatePackets_DDoS.
  eapply same_view_bind; [apply same_view_get|]. intros a b Hab.
  destruct (view_fields _ _ Hab) as [_ [Hsc [_ [_ [_ [Hn _]]]]]].
  rewrite Hsc. apply same_view_for_lt.
  eapply same_view_bind; [apply same_view_on_rng|]. intros d d' <-.
  destruct (d <? 0.5)%float; [|sv_ret].
  eapply same_view_bind.
  { apply same_view_choice with (f := node_view).
    apply same_nodes_filter; [reflexivity | exact Hn]. }
  intros x y Hxy. eapply same_view_bind; [|intros; sv_ret].
  apply same_view_createPacket; [exact Hxy | apply same_node_find, Hn].
Qed.

Lemma same_view_generatePackets_MITM (fuel : nat) (intensity : float) :
  same_view eq (generatePackets_MITM Math_sin fuel intensity)
    (generatePackets_MITM Math_sin fuel intensity).
Proof.
  unfold generatePackets_MITM.
  eapply same_view_bind; [apply same_view_get|]. intros a b Hab.
  destruct (view_fields _ _ Hab) as [_ [Hsc [_ [_ [_ [Hn _]]]]]].
  rewrite Hsc. apply same_view_for_lt.
  pose proof (same_node_find "client1" _ _ Hn) as H1.
  pose proof (same_node_find "client2" _ _ Hn) as H2.
  pose proof (same_node_find "attacker" _ _ Hn) as H3.
  unfold same_node in *.
  eapply same_view_bind; [apply same_view_on_rng|]. intros d d' <-.
  destruct (d <? 0.5)%float; [|sv_ret].
  eapply same_view_bind; [apply same_view_on_rng|]. intros e e' <-.
  destruct (e <? 0.5)%float;
    (eapply same_view_bind;
     [ apply same_view_createPacket; assumption
     | intros; apply same_view_setTimeout; simpl; congruence ]).
Qed.

Lemma same_view_generatePackets_Firewall (fuel : nat) (intensity : float) :
  same_view eq (generatePackets_Firewall Math_sin fuel intensity)
    (generatePackets_Firewall Math_sin fuel intensity).
Proof.
  unfold generatePackets_Firewall.
  eapply same_view_bind; [apply same_view_get|]. intros a b Hab.
  destruct (view_fields _ _ Hab) as [_ [Hsc [_ [_ [_ [Hn _]]]]]].
  rewrite Hsc. apply same_view_for_lt.
  pose proof (same_node_find "firewall" _ _ Hn) as H1.
  pose proof (same_node_find "server" _ _ Hn) as H2.
  eapply same_view_bind; [apply same_view_on_rng|]. intros d d' <-.
  destruct (d <? 0.5)%float; [|sv_ret].
  eapply same_view_bind.
  { apply same_view_choice with (f := node_view).
    apply same_nodes_filter; [reflexivity | exact Hn]. }
  intros [c1|] [c2|] Hc; try discriminate; [|apply same_view_throw].
  assert (Ht : Node.type c1 = Node.type c2)
    by (unfold node_view in Hc; simpl in Hc; congruence).
  rewrite Ht.
  eapply same_view_bind; [apply same_view_createPacket; assumption|].
  intros p1 p2 Hp. apply same_view_setTimeout.
  destruct (same_packet_fields _ _ Hp) as [Hid _].
  unfold same_node in *. simpl. congruence.
Qed.

Lemma same_view_generatePackets_ARPSpoof (fuel : nat) (intensity : float) :
  same_view eq (generatePackets_ARPSpoof Math_sin fuel intensity)
    (generatePackets_ARPSpoof Math_sin fuel intensity).
Proof.
  unfold generatePackets_ARPSpoof.
  eapply same_view_bind; [apply same_view_get|]. intros a b Hab.
  destruct (view_fields _ _ Hab) as [_ [Hsc [_ [_ [_ [Hn _]]]]]].
  rewrite Hsc. apply same_view_for_lt.
  pose proof (same_node_find "attacker" _ _ Hn) as Ha.
  assert (Hcl : same_nodes (Node.of_type Node.client (nodes a))
                  (Node.of_type Node.client (nodes b))).
  { apply same_nodes_filter; [reflexivity | exact Hn]. }
  set (att1 := Node.find_id "attacker" (nodes a)) in *.
  set (att2 := Node.find_id "attacker" (nodes b)) in *.
  set (cl1 := Node.of_type Node.client (nodes a)) in *.
  set (cl2 := Node.of_type Node.client (nodes b)) in *.
  assert (Hrelay : forall src1 src2 o1 o2,
    same_node src1 src2 -> same_nodes o1 o2 ->
    same_view eq
      (target <- rng_choice Math_sin o1 ;;
       match target with
       | Some _ =>
           _ <- createPacket src1 att1 Packet.normal 1%float ;;
           setTimeout (Relay att1 target Packet.attack 1%float)
       | None => ret tt
       end)%js
      (target <- rng_choice Math_sin o2 ;;
       match target with
       | Some _ =>
           _ <- createPacket src2 att2 Packet.normal 1%float ;;
           setTimeout (Relay att2 target Packet.attack 1%float)
       | None => ret tt
       end)%js).
  { intros src1 src2 o1 o2 Hsrc Ho.
    eapply same_view_bind;
      [apply same_view_choice with (f := node_view); exact Ho|].
    intros [t1|] [t2|] Ht; try discriminate; [|sv_ret].
    eapply same_view_bind; [apply same_view_createPacket; assumption|].
    intros. apply same_view_setTimeout.
    unfold same_node in *. simpl in *. congruence. }
  eapply same_view_bind; [apply same_view_on_rng|]. intros d d' <-.
  destruct (d <? 0.3)%float.
  - eapply same_view_bind;
      [apply same_view_choice with (f := node_view); exact Hcl|].
    intros [s1|] [s2|] Hsrc; try discriminate.
    + apply Hrelay; [exact Hsrc|].
      assert (Hid : Node.id s1 = Node.id s2)
        by (unfold node_view in Hsrc; simpl in Hsrc; congruence).
      rewrite Hid. apply same_nodes_filter; [reflexivity | exact Hcl].
    + destruct cl1 as [|x1 r1], cl2 as [|x2 r2]; try discriminate.
      * apply Hrelay; [exact Hsrc | reflexivity].
      * apply same_view_throw.
  - eapply same_view_bind; [apply same_view_on_rng|]. intros e e' <-.
    destruct (e <? 0.5)%float; [|sv_ret].
    eapply same_view_bind;
      [apply same_view_choice with (f := node_view); exact Hcl|].
    intros t1 t2 Ht. eapply same_view_bind; [|intros; sv_ret].
    apply same_view_createPacket; assumption.
Qed.

Lemma same_view_generatePackets (fuel : nat) (intensity : float) :
  same_view eq (generatePackets Math_sin fuel intensity)
    (generatePackets Math_sin fuel intensity).
Proof.
  intros s1 s2 Hs. unfold generatePackets.
  destruct (view_fields _ _ Hs) as [Hc _]. rewrite Hc.
  destruct (class_of s2).
  - apply same_view_generatePackets_DDoS, Hs.
  - apply same_view_generatePackets_MITM, Hs.
  - apply same_view_generatePackets_Firewall, Hs.
  - apply same_view_generatePackets_ARPSpoof, Hs.
Qed.

Lemma same_view_count_received (countable : Packet.t -> bool) :
  (forall p1 p2, same_packet p1 p2 -> countable p1 = countable p2) ->
  same_view eq (count_received countable) (count_received countable).
Proof.
  intro Hc. apply same_view_packets_forEach. intros j p1 p2 Hp.
  destruct (same_packet_fields _ _ Hp) as [_ [_ [Hpr Hac]]].
  unfold arrived. rewrite Hpr, Hac, (Hc p1 p2 Hp).
  destruct (_ && _ && _); [apply same_view_count | sv_ret].
Qed.

Lemma same_view_drop_overloaded :
  same_view eq (drop_overloaded Math_sin) (drop_overloaded Math_sin).
Proof.
  apply same_view_packets_forEach. intros j p1 p2 Hp.
  destruct (same_packet_fields _ _ Hp) as [_ [_ [Hpr Hac]]].
  rewrite Hpr, Hac. destruct (_ && _); [|sv_ret].
  eapply same_view_bind; [apply same_view_on_rng|]. intros d d' <-.
  destruct (d <? 0.3)%float; [|sv_ret].
  eapply same_view_bind; [|intros; apply same_view_count].
  apply same_view_mutate_packet. reflexivity.
Qed.

Lemma same_view_updateMetrics :
  same_view eq (updateMetrics Math_sin) (updateMetrics Math_sin).
Proof.
  intros s1 s2 Hs. unfold updateMetrics.
  destruct (view_fields _ _ Hs) as [Hc _]. rewrite Hc.
  destruct (class_of s2); revert s1 s2 Hs Hc.
  - intros s1 s2 Hs _. revert s1 s2 Hs. unfold updateMetrics_DDoS.
    eapply same_view_bind; [apply same_view_get|]. intros a b Hab.
    rewrite (activePackets_view a b Hab).
    eapply same_view_bind; [apply same_view_set_serverLoad|]. intros _ _ _.
    destruct (80 <? _)%float.
    + apply same_view_drop_overloaded.
    + apply same_view_count_received. reflexivity.
  - intros s1 s2 Hs _. revert s1 s2 Hs. unfold updateMetrics_MITM.
    eapply same_view_bind; [apply same_view_get|]. intros a b Hab.
    rewrite (activePackets_view a b Hab).
    eapply same_view_bind; [apply same_view_on_rng|]. intros d d' <-.
    eapply same_view_bind; [apply same_view_set_serverLoad|]. intros _ _ _.
    apply same_view_count_received. reflexivity.
  - intros s1 s2 Hs _. revert s1 s2 Hs. unfold updateMetrics_Firewall.
    eapply same_view_bind; [apply same_view_get|]. intros a b Hab.
    rewrite (activePackets_view a b Hab).
    eapply same_view_bind; [apply same_view_set_serverLoad|]. intros _ _ _.
    apply same_view_count_received. intros p1 p2 Hp.
    destruct (same_packet_fields _ _ Hp) as [_ [Ht _]]. rewrite Ht.
    reflexivity.
  - intros s1 s2 Hs _. revert s1 s2 Hs. unfold updateMetrics_ARPSpoof.
    eapply same_view_bind; [apply same_view_get|]. intros a b Hab.
    rewrite (activePackets_view a b Hab).
    eapply same_view_bind; [apply same_view_on_rng|]. intros d d' <-.
    eapply same_view_bind; [apply same_view_set_serverLoad|]. intros _ _ _.
    apply same_view_count_received. reflexivity.
Qed.

Lemma same_view_update (fuel : nat) (deltaTime speed intensity : float) :
  same_view eq (update Math_sin fuel deltaTime speed intensity)
    (update Math_sin fuel deltaTime speed intensity).
Proof.
  intros s1 s2 Hs. unfold update.
  destruct (view_fields _ _ Hs) as [_ [_ [_ [_ [_ [_ [Hp [_ [Ht _]]]]]]]]].
  pose proof (sweep_view (packets s1)) as H1.
  pose proof (sweep_view (packets s2)) as H2.
  rewrite Hp, H2 in H1. simpl. rewrite Ht.
  destruct (Packet.sweep (packets s1)) as [[k1| e1 |] o1],
           (Packet.sweep (packets s2)) as [[k2| e2 |] o2];
    simpl in H1; try discriminate;
    injection H1; intros.
  - eapply same_view_bind;
      [apply same_view_generatePackets
      | intros; apply same_view_updateMetrics |].
    view_solve Hs.
  - subst. split; [reflexivity|]. view_solve Hs.
  - split; [exact I|]. view_solve Hs.
Qed.

Lemma same_view_run_callback (cb1 cb2 : callback) :
  callback_view cb1 = callback_view cb2 ->
  same_view eq (run_callback Math_sin cb1) (run_callback Math_sin cb2).
Proof.
  destruct cb1 as [f1 t1 ty1 sp1 | pid1 ia1 pt1 fw1 sv1],
           cb2 as [f2 t2 ty2 sp2 | pid2 ia2 pt2 fw2 sv2];
    simpl; intro H; try discriminate.
  - injection H. intros -> -> Ht Hf.
    destruct f1, f2, t1, t2; try discriminate; try sv_ret.
    eapply same_view_bind; [|intros; sv_ret].
    apply same_view_createPacket; assumption.
  - injection H. intros Hsv Hfw -> -> ->.
    eapply same_view_bind; [apply same_view_get|]. intros a b Hab.
    destruct (view_fields _ _ Hab) as [_ [Hsc _]]. rewrite Hsc.
    eapply same_view_bind with (RA := eq).
    + destruct ia2; [|sv_ret].
      eapply same_view_bind; [apply same_view_on_rng|]. intros d d' <-.
      sv_ret.
    + intros x y <-. destruct x.
      * eapply same_view_bind; [|intros; apply same_view_count].
        apply same_view_modify. intros s1 s2 Hs. view_solve Hs.
        rewrite !block_view. congruence.
      * destruct fw1, fw2, sv1, sv2; try discriminate; try sv_ret.
        eapply same_view_bind; [|intros; sv_ret].
        apply same_view_createPacket; assumption.
Qed.

Lemma same_view_step (fuel : nat) (e : event) :
  same_view eq (step Math_sin fuel e) (step Math_sin fuel e).
Proof.
  destruct e as [deltaTime speed intensity|]; simpl.
  - apply same_view_update.
  - intros s1 s2 Hs.
    destruct (view_fields _ _ Hs)
      as [_ [_ [_ [_ [_ [_ [_ [_ [_ [_ Ht]]]]]]]]]].
    destruct (timers s1) as [|cb1 r1] eqn:E1,
             (timers s2) as [|cb2 r2] eqn:E2; try discriminate.
    + split; [reflexivity | exact Hs].
    + simpl in Ht. injection Ht as Hcb Hr.
      apply same_view_run_callback; [exact Hcb|].
      view_solve Hs.
Qed.

Lemma view_step (fuel : nat) (e : event) (s1 s2 : t) :
  view s1 = view s2 ->
  view (exec (step Math_sin fuel e) s1) = view (exec (step Math_sin fuel e) s2).
Proof. intro H. apply (same_view_step fuel e s1 s2 H). Qed.

Lemma observations_same_view (fuel : nat) (es : list event) (s1 s2 : t) :
  view s1 = view s2 ->
  observations Math_sin fuel es s1 = observations Math_sin fuel es s2.
Proof.
  unfold observations. revert s1 s2.
  induction es as [|e es IH]; intros s1 s2 H; simpl; [reflexivity|].
  pose proof (view_step fuel e s1 s2 H) as H'.
  destruct (is_update e); simpl; [rewrite H'; f_equal|]; apply IH, H'.
Qed.

End SameView.

(** *** The DDoS simulation schedules nothing *)

Section DDoSIdle.

Import AttackSimulation.

Variables Math_sin Math_cos : float -> float.

Lemma ddos_idle_same (s s' : t) :
  class_of s' = class_of s -> timers s' = timers s ->
  keeps ddos_idle s s'.
Proof. unfold keeps, ddos_idle. intros -> ->. auto. Qed.

Lemma ddos_idle_createPacket source target type speed :
  extends (keeps ddos_idle) (createPacket source target type speed).
Proof.
  intro s. unfold createPacket.
  destruct (Packet.new _ source target type speed); simpl;
    apply ddos_idle_same; reflexivity.
Qed.

Lemma ddos_idle_update (fuel : nat) (deltaTime speed intensity : float) :
  extends (keeps ddos_idle) (update Math_sin fuel deltaTime speed intensity).
Proof.
  intros s Hs. unfold update. simpl.
  destruct (Packet.sweep (packets s)) as [[kept| e |] objects]; simpl;
    try exact Hs.
  unfold bind.
  set (s1 := set_packets kept (set_time _ s)).
  assert (H1 : ddos_idle s1) by exact Hs.
  assert (Hg : ddos_idle (snd (generatePackets Math_sin fuel intensity s1))).
  { unfold generatePackets. destruct H1 as [Hc Ht]. rewrite Hc.
    apply (extends_generatePackets_DDoS Math_sin (keeps ddos_idle)
             (fun _ => True)); try exact I.
    - exact (keeps_refl ddos_idle).
    - exact (keeps_trans ddos_idle).
    - intros s0 r. apply ddos_idle_same; reflexivity.
    - intros. apply ddos_idle_createPacket.
    - split; assumption. }
  destruct (generatePackets Math_sin fuel intensity s1) as [[[]| e |] s2];
    simpl in *; try exact Hg.
  unfold updateMetrics. destruct Hg as [Hc Ht]. rewrite Hc.
  apply (extends_updateMetrics_DDoS Math_sin (keeps ddos_idle)).
  - exact (keeps_refl ddos_idle).
  - exact (keeps_trans ddos_idle).
  - intros s0 r. apply ddos_idle_same; reflexivity.
  - intros load lat s0. apply ddos_idle_same; reflexivity.
  - intros s0 i p _. apply ddos_idle_same; reflexivity.
  - intro s0. apply ddos_idle_same; reflexivity.
  - intros c s0 i p _ _. apply ddos_idle_same; reflexivity.
  - split; assumption.
Qed.

Lemma ddos_idle_timer (fuel : nat) (s : t) :
  ddos_idle s -> exec (step Math_sin fuel TimerFires) s = s.
Proof. intros [_ Ht]. unfold exec. simpl. rewrite Ht. reflexivity. Qed.

Lemma ddos_idle_step (fuel : nat) (e : event) :
  extends (keeps ddos_idle) (step Math_sin fuel e).
Proof.
  destruct e as [deltaTime speed intensity|].
  - apply ddos_idle_update.
  - intros s Hs.
    change (snd (step Math_sin fuel TimerFires s))
      with (exec (step Math_sin fuel TimerFires) s).
    rewrite ddos_idle_timer by exact Hs. exact Hs.
Qed.

(** In a DDoS run the timer events are idle: only the [update] calls
    matter. *)
Lemma ddos_ticks_updates_only (fuel : nat) (es : list event) (s : t) :
  ddos_idle s ->
  after_each_tick Math_sin fuel es s
  = after_each_tick Math_sin fuel (updates_of es) s.
Proof.
  revert s. induction es as [|e es IH]; intros s Hs; [reflexivity|].
  destruct e as [deltaTime speed intensity|].
  - cbn [updates_of filter is_update after_each_tick].
    fold (updates_of es). f_equal. apply IH.
    apply (ddos_idle_step fuel (Update deltaTime speed intensity) s Hs).
  - cbn [updates_of filter is_update after_each_tick].
    fold (updates_of es). rewrite ddos_idle_timer by exact Hs.
    apply IH, Hs.
Qed.

(** *** Construction *)

Lemma firewall_clients_view (randoms1 randoms2 : nat -> float) (w h : float)
  (sc : Scenario.t) (idx : list N) (r : SeededRandom.t) :
  match firewall_clients Math_sin randoms1 w h sc idx r,
        firewall_clients Math_sin randoms2 w h sc idx r with
  | (Normal ns1, r1), (Normal ns2, r2) => same_nodes ns1 ns2 /\ r1 = r2
  | _, _ => False
  end.
Proof.
  revert r. induction idx as [|i idx IH]; intro r; simpl.
  - split; reflexivity.
  - unfold bind at 1 3. unfold SeededRandom.range at 1 2, bind at 1 3.
    cbn [SeededRandom.next ret].
    set (r' := SeededRandom.mk _ _).
    unfold bind. specialize (IH r').
    destruct (firewall_clients Math_sin randoms1 w h sc idx r')
      as [[ns1| e |] r1],
      (firewall_clients Math_sin randoms2 w h sc idx r')
      as [[ns2| e' |] r2]; try contradiction.
    destruct IH as [Hn ->]. unfold ret. split; [|reflexivity].
    unfold same_nodes in *. simpl. rewrite Hn. reflexivity.
Qed.

(** The values of [Math.random()] do not show in the view of the
    simulation [initialize] builds. *)
Lemma initialize_view (randoms1 randoms2 : nat -> float) (s : t) :
  view (initialize Math_sin Math_cos randoms1 s)
  = view (initialize Math_sin Math_cos randoms2 s).
Proof.
  unfold initialize. destruct (class_of s).
  - unfold initialize_DDoS, view. simpl. f_equal.
    rewrite !map_app. f_equal. simpl. f_equal.
    rewrite !map_map. apply map_ext. reflexivity.
  - unfold initialize_MITM, view. simpl. f_equal.
    rewrite !map_app. reflexivity.
  - unfold initialize_Firewall.
    pose proof (firewall_clients_view randoms1 randoms2 (canvasWidth s)
                  (canvasHeight s) (scenario s)
                  (Scenario.indices
                     (Scenario.sum (Scenario.attackers (scenario s))
                        (Scenario.legitimateClients (scenario s))))
                  (rng s)) as H.
    destruct (firewall_clients Math_sin randoms1 _ _ _ _ _)
      as [[ns1| e |] r1],
      (firewall_clients Math_sin randoms2 _ _ _ _ _)
      as [[ns2| e' |] r2]; try contradiction.
    destruct H as [Hn ->]. unfold view, same_nodes in *. simpl. f_equal.
    rewrite !map_app. simpl. rewrite Hn. reflexivity.
  - unfold initialize_ARPSpoof, view. simpl. f_equal.
    rewrite !map_map, !map_app, !map_map. f_equal.
Qed.

Lemma initialize_class (randoms : nat -> float) (s : t) :
  class_of (initialize Math_sin Math_cos randoms s) = class_of s.
Proof.
  unfold initialize. destruct (class_of s) eqn:E; try (simpl; exact E).
  unfold initialize_Firewall.
  destruct (firewall_clients _ _ _ _ _ _ _) as [[ns| e |] r]; simpl; exact E.
Qed.

End DDoSIdle.

(** C1, as the code has it. Two simulations of one scenario, created with
    the same seed and canvas, and fed the same sequence of [update] calls,
    have after every tick the same node positions, the same packets with
    the same trajectories and the same metrics (the same state, the
    [pulsePhase] that [Math.random()] gives each node apart) when the
    scenario is the DDoS one, whatever the timers do; and in every scenario
    when their timers also fire at the same points of the sequence. *)
Theorem same_seed_same_observations (Math_sin Math_cos : float -> float)
  (randoms1 randoms2 : nat -> float) (name : string) (seed w h : float)
  (fuel : nat) (es1 es2 : list AttackSimulation.event)
  (s1 s2 : AttackSimulation.t) :
  fst (SimulationFactory.create Math_sin Math_cos randoms1 name
         (SeededRandom.new seed) w h) = Some s1 ->
  fst (SimulationFactory.create Math_sin Math_cos randoms2 name
         (SeededRandom.new seed) w h) = Some s2 ->
  same_schedule (AttackSimulation.class_of s1) es1 es2 ->
  observations Math_sin fuel es1 s1 = observations Math_sin fuel es2 s2.
Proof.
  unfold SimulationFactory.create.
  destruct (Scenario.SCENARIOS name) as [sc|]; [|discriminate].
  simpl. intros H1 H2. injection H1 as <-. injection H2 as <-.
  set (s0 := AttackSimulation.construct (SimulationFactory.class_for name)
               sc (SeededRandom.new seed) w h).
  pose proof (initialize_view Math_sin Math_cos randoms1 randoms2 s0) as Hv.
  intros [[Hc Hu]|<-].
  - rewrite initialize_class in Hc.
    assert (Hidle : forall randoms,
              ddos_idle
                (AttackSimulation.initialize Math_sin Math_cos randoms s0)).
    { intro randoms. split.
      - rewrite initialize_class. exact Hc.
      - apply initialize_packets_timers. }
    unfold observations.
    rewrite (ddos_ticks_updates_only Math_sin fuel es1 _ (Hidle randoms1)).
    rewrite (ddos_ticks_updates_only Math_sin fuel es2 _ (Hidle randoms2)).
    rewrite Hu.
    apply (observations_same_view Math_sin fuel (updates_of es2) _ _ Hv).
  - apply observations_same_view, Hv.
Qed.

(** Two DDoS simulations with seed 12345 whose nodes were given different
    phases, fed the same two frames, one of them with a timer event in
    between. *)
Lemma same_seed_same_observations_witness :
  let s1 :=
    AttackSimulation.initialize Reference.Math_sin Reference.Math_cos
      Reference.randoms
      (AttackSimulation.construct AttackSimulation.DDoSAttack Scenario.ddos
         (SeededRandom.new 12345%float) 800%float 600%float) in
  let s2 :=
    AttackSimulation.initialize Reference.Math_sin Reference.Math_cos
      Reference.other_randoms
      (AttackSimulation.construct AttackSimulation.DDoSAttack Scenario.ddos
         (SeededRandom.new 12345%float) 800%float 600%float) in
  fst (SimulationFactory.create Reference.Math_sin Reference.Math_cos
         Reference.randoms "ddos" (SeededRandom.new 12345%float)
         800%float 600%float) = Some s1
  /\ fst (SimulationFactory.create Reference.Math_sin Reference.Math_cos
            Reference.other_randoms "ddos" (SeededRandom.new 12345%float)
            800%float 600%float) = Some s2
  /\ same_schedule (AttackSimulation.class_of s1)
       Reference.relay_late Reference.relay_on_time
  /\ observations Reference.Math_sin 3 Reference.relay_late s1
     = observations Reference.Math_sin 3 Reference.relay_on_time s2.
Proof.
  intros s1 s2.
  assert (H1 : fst (SimulationFactory.create Reference.Math_sin
                      Reference.Math_cos Reference.randoms "ddos"
                      (SeededRandom.new 12345%float) 800%float 600%float)
               = Some s1) by reflexivity.
  assert (H2 : fst (SimulationFactory.create Reference.Math_sin
                      Reference.Math_cos Reference.other_randoms "ddos"
                      (SeededRandom.new 12345%float) 800%float 600%float)
               = Some s2) by reflexivity.
  assert (H3 : same_schedule (AttackSimulation.class_of s1)
                 Reference.relay_late Reference.relay_on_time)
    by (left; split; reflexivity).
  split; [exact H1|]. split; [exact H2|]. split; [exact H3|].
  exact (same_seed_same_observations Reference.Math_sin Reference.Math_cos
           Reference.randoms Reference.other_randoms "ddos" 12345%float
           800%float 600%float 3 Reference.relay_late Reference.relay_on_time
           s1 s2 H1 H2 H3).
Defined.

(** C1, as stated, fails for the MITM scenario. One simulation, seed 12345,
    is fed the same two [update] calls in two runs; the relay scheduled in
    the first frame fires before the second frame in one run and after it
    in the other, and after the second tick the first run has sent two
    packets where the other has sent one. *)
Lemma mitm_observations_depend_on_timers :
  exists s,
    fst (Reference.create "mitm") = Some s
    /\ updates_of Reference.relay_on_time = updates_of Reference.relay_late
    /\ map (fun o => AttackSimulation.packetsSent (AttackSimulation.metrics o))
         (observations Reference.Math_sin 3 Reference.relay_on_time s)
       = [1%N; 2%N]
    /\ map (fun o => AttackSimulation.packetsSent (AttackSimulation.metrics o))
         (observations Reference.Math_sin 3 Reference.relay_late s)
       = [1%N; 1%N]
    /\ observations Reference.Math_sin 3 Reference.relay_on_time s
       <> observations Reference.Math_sin 3 Reference.relay_late s.
Proof.
  eexists. split; [reflexivity|]. split; [reflexivity|].
  split; [vm_compute; reflexivity|]. split; [vm_compute; reflexivity|].
  intro H.
  apply (f_equal
           (map (fun o =>
                   AttackSimulation.packetsSent (AttackSimulation.metrics o))))
    in H.
  vm_compute in H. discriminate H.
Qed.

(** ** Fuel *)

Section Fuel.

Import AttackSimulation.

Variable Math_sin : float -> float.

Lemma within_fuel_ret (S A : Type) (a : A) : within_fuel (@ret S A a).
Proof. intros s H. discriminate H. Qed.

Lemma within_fuel_throw (S A : Type) (e : exn) : within_fuel (@throw S A e).
Proof. intros s H. discriminate H. Qed.

Lemma within_fuel_get (S : Type) : within_fuel (@get S).
Proof. intros s H. discriminate H. Qed.

Lemma within_fuel_modify (S : Type) (f : S -> S) : within_fuel (modify f).
Proof. intros s H. discriminate H. Qed.

Lemma within_fuel_bind (S A B : Type) (m : JS S A) (k : A -> JS S B) :
  within_fuel m -> (forall a, within_fuel (k a)) -> within_fuel (bind m k).
Proof.
  intros Hm Hk s. unfold bind. specialize (Hm s).
  destruct (m s) as [[a| e |] s']; simpl in *.
  - apply Hk.
  - discriminate.
  - exfalso. apply Hm. reflexivity.
Qed.

Lemma within_fuel_for_lt (S : Type) (fuel : nat) (i bound : float)
  (body : JS S unit) :
  slots fuel i bound <> None -> within_fuel body ->
  within_fuel (for_lt fuel i bound body).
Proof.
  intros Hs Hb. revert i Hs. induction fuel as [|f IH]; intros i Hs; simpl in *.
  - contradiction.
  - destruct (i <? bound)%float.
    + apply within_fuel_bind; [exact Hb|]. intros _. apply IH.
      destruct (slots f (i + 1)%float bound); [discriminate | exact Hs].
    + apply within_fuel_ret.
Qed.

Lemma within_fuel_on_rng (A : Type) (m : JS SeededRandom.t A) :
  within_fuel m -> within_fuel (on_rng m).
Proof.
  intros Hm s. unfold on_rng. specialize (Hm (rng s)).
  destruct (m (rng s)) as [c r]. exact Hm.
Qed.

Lemma within_fuel_next : within_fuel (SeededRandom.next Math_sin).
Proof. intros r H. discriminate H. Qed.

Lemma within_fuel_range (a b : float) :
  within_fuel (SeededRandom.range Math_sin a b).
Proof. intros r H. discriminate H. Qed.

Lemma within_fuel_choice (A : Type) (l : list A) :
  within_fuel (SeededRandom.choice Math_sin l).
Proof. intros r H. discriminate H. Qed.

Lemma within_fuel_createPacket source target type speed :
  within_fuel (createPacket source target type speed).
Proof.
  intros s. unfold createPacket, Packet.new.
  destruct source; simpl; discriminate.
Qed.

Lemma within_fuel_forEach_from (n i : nat)
  (callback : nat -> Packet.t -> JS t unit) :
  (forall j p, within_fuel (callback j p)) ->
  within_fuel (forEach_from n i callback).
Proof.
  intro Hcb. revert i. induction n as [|n IH]; intro i; simpl.
  - apply within_fuel_ret.
  - apply within_fuel_bind; [apply within_fuel_get|]. intro s.
    apply within_fuel_bind; [|intros _; apply IH].
    destruct (nth_error (packets s) i); [apply Hcb | apply within_fuel_ret].
Qed.

Ltac fuel_prim :=
  solve
    [ apply within_fuel_ret
    | apply within_fuel_throw
    | apply within_fuel_get
    | apply within_fuel_modify
    | apply within_fuel_createPacket
    | apply within_fuel_on_rng;
      first [ apply within_fuel_next | apply within_fuel_range
            | apply within_fuel_choice ] ].

Ltac fuel_seq x := apply within_fuel_bind; [fuel_prim | intro x].

Lemma within_fuel_generatePackets (fuel : nat) (intensity : float) (s : t) :
  slots fuel 0%float (packetsThisFrame (scenario s) intensity) <> None ->
  fst (generatePackets Math_sin fuel intensity s) <> Exhausted.
Proof.
  intro Hs. unfold generatePackets.
  destruct (class_of s).
  - unfold generatePackets_DDoS, bind at 1, get.
    apply within_fuel_for_lt; [exact Hs|].
    fuel_seq d. destruct (d <? 0.5)%float; [|fuel_prim].
    fuel_seq a. fuel_seq p. fuel_prim.
  - unfold generatePackets_MITM, bind at 1, get.
    apply within_fuel_for_lt; [exact Hs|].
    fuel_seq d. destruct (d <? 0.5)%float; [|fuel_prim].
    fuel_seq d'. destruct (d' <? 0.5)%float; fuel_seq p; fuel_prim.
  - unfold generatePackets_Firewall, bind at 1, get.
    apply within_fuel_for_lt; [exact Hs|].
    fuel_seq d. destruct (d <? 0.5)%float; [|fuel_prim].
    fuel_seq c. destruct c; [|fuel_prim]. fuel_seq p. fuel_prim.
  - unfold generatePackets_ARPSpoof, bind at 1, get.
    apply within_fuel_for_lt; [exact Hs|].
    fuel_seq d. destruct (d <? 0.3)%float.
    + fuel_seq src.
      assert (Hrelay : forall others,
        within_fuel
          (target <- rng_choice Math_sin others ;;
           match target with
           | Some _ =>
               _ <- createPacket src (Node.find_id "attacker" (nodes s))
                      Packet.normal 1%float ;;
               setTimeout
                 (Relay (Node.find_id "attacker" (nodes s)) target
                    Packet.attack 1%float)
           | None => ret tt
           end)%js).
      { intro others. fuel_seq tg. destruct tg; [|fuel_prim].
        fuel_seq p. fuel_prim. }
      destruct src; [apply Hrelay|].
      destruct (Node.of_type Node.client (nodes s));
        [apply Hrelay | fuel_prim].
    + fuel_seq d'. destruct (d' <? 0.5)%float; [|fuel_prim].
      fuel_seq tg. fuel_seq p. fuel_prim.
Qed.

Lemma within_fuel_count_received (countable : Packet.t -> bool) :
  within_fuel (count_received countable).
Proof.
  unfold count_received, packets_forEach. fuel_seq s.
  apply within_fuel_forEach_from. intros j p.
  destruct (arrived countable p); fuel_prim.
Qed.

Lemma within_fuel_updateMetrics : within_fuel (updateMetrics Math_sin).
Proof.
  intro s. unfold updateMetrics. destruct (class_of s); revert s.
  - unfold updateMetrics_DDoS. fuel_seq s0. fuel_seq u.
    destruct (80 <? _)%float; [|apply within_fuel_count_received].
    unfold drop_overloaded, packets_forEach. fuel_seq s1.
    apply within_fuel_forEach_from. intros j p.
    destruct (_ && _); [|fuel_prim].
    fuel_seq d. destruct (d <? 0.3)%float; [|fuel_prim].
    fuel_seq v. fuel_prim.
  - unfold updateMetrics_MITM. fuel_seq s0. fuel_seq d. fuel_seq u.
    apply within_fuel_count_received.
  - unfold updateMetrics_Firewall. fuel_seq s0. fuel_seq u.
    apply within_fuel_count_received.
  - unfold updateMetrics_ARPSpoof. fuel_seq s0. fuel_seq d. fuel_seq u.
    apply within_fuel_count_received.
Qed.

Lemma sweep_within_fuel (ps : list Packet.t) :
  fst (Packet.sweep ps) <> Exhausted.
Proof.
  induction ps as [|p ps IH]; simpl; [discriminate|].
  assert (Hu : fst (Packet.update p) <> Exhausted).
  { unfold Packet.update. destruct (negb (Packet.active p)); [discriminate|].
    destruct (1 <=? _)%float; [discriminate|]. simpl.
    destruct (Packet.target p); discriminate. }
  destruct (Packet.update p) as [[keep| e |] p']; simpl in *;
    [|discriminate | contradiction].
  destruct (Packet.sweep ps) as [[kept| e |] rest]; simpl in *;
    [discriminate | discriminate | contradiction].
Qed.

(** With fuel for the slots of the frame, [update] returns or throws. *)
Lemma update_within_fuel (fuel : nat) (deltaTime speed intensity : float)
  (s : t) :
  slots fuel 0%float (packetsThisFrame (scenario s) intensity) <> None ->
  fst (update Math_sin fuel deltaTime speed intensity s) <> Exhausted.
Proof.
  intro Hs. unfold update. simpl.
  pose proof (sweep_within_fuel (packets s)) as Hsw.
  destruct (Packet.sweep (packets s)) as [[kept| e |] objects]; simpl in *;
    [|discriminate | contradiction].
  unfold bind.
  set (s1 := set_packets kept (set_time _ s)).
  pose proof (within_fuel_generatePackets fuel intensity s1 Hs) as Hg.
  destruct (generatePackets Math_sin fuel intensity s1) as [[[]| e |] s2];
    simpl in *; [|discriminate | contradiction].
  apply within_fuel_updateMetrics.
Qed.

End Fuel.

(** Fuel 3 covers every frame the application can ask for. *)
Lemma slider_frames_within_fuel (sc : Scenario.t) (intensity : float) :
  In sc scenario_objects -> In intensity slider_values ->
  at_most_two_slots sc intensity = true.
Proof.
  intros Hsc Hi.
  assert (H : forallb (fun sc => forallb (at_most_two_slots sc) slider_values)
                scenario_objects = true) by (vm_compute; reflexivity).
  rewrite forallb_forall in H. specialize (H sc Hsc).
  rewrite forallb_forall in H. apply H, Hi.
Qed.

Lemma slider_update_returns_or_throws (Math_sin : float -> float)
  (deltaTime speed intensity : float) (s : AttackSimulation.t) :
  In (AttackSimulation.scenario s) scenario_objects ->
  In intensity slider_values ->
  fst (AttackSimulation.update Math_sin 3 deltaTime speed intensity s)
  <> Exhausted.
Proof.
  intros Hsc Hi. apply update_within_fuel.
  pose proof (slider_frames_within_fuel _ _ Hsc Hi) as H.
  unfold at_most_two_slots in H.
  destruct (slots 3 0%float _); [discriminate | discriminate H].
Qed.

(** ** Packet identity *)

Section PacketIdentity.

Import AttackSimulation.

Variables Math_sin Math_cos : float -> float.

Lemma update_id (p : Packet.t) :
  Packet.id (snd (Packet.update p)) = Packet.id p.
Proof.
  unfold Packet.update. destruct (negb (Packet.active p)); [reflexivity|].
  destruct (1 <=? _)%float; [reflexivity|]. simpl.
  destruct (Packet.target p); reflexivity.
Qed.

Lemma sweep_objects_ids (ps : list Packet.t) :
  map Packet.id (snd (Packet.sweep ps)) = map Packet.id ps.
Proof.
  induction ps as [|p ps IH]; simpl; [reflexivity|].
  pose proof (update_id p) as Hp.
  destruct (Packet.update p) as [[keep| e |] p']; simpl in *;
    try (rewrite Hp; reflexivity).
  destruct (Packet.sweep ps) as [c rest]. simpl in *.
  rewrite Hp, IH. reflexivity.
Qed.

Lemma sweep_kept_ids (ps kept : list Packet.t) :
  fst (Packet.sweep ps) = Normal kept ->
  (forall x, In x (map Packet.id kept) -> In x (map Packet.id ps))
  /\ (NoDup (map Packet.id ps) -> NoDup (map Packet.id kept)).
Proof.
  revert kept. induction ps as [|p ps IH]; intros kept; simpl.
  - intro H. injection H as <-. split; auto.
  - pose proof (update_id p) as Hp.
    destruct (Packet.update p) as [[keep| e |] p']; simpl in *;
      try discriminate.
    destruct (Packet.sweep ps) as [[kept'| e |] rest]; simpl in *;
      try discriminate.
    intro H. injection H as <-. destruct (IH kept' eq_refl) as [Hin Hnd].
    destruct keep; simpl.
    + rewrite Hp. split.
      * intros x [Hx|Hx]; [left; exact Hx | right; apply Hin, Hx].
      * intro H. inversion H as [|a l Hnotin Hrest]; subst.
        constructor; [|apply Hnd, Hrest].
        intro Hx. apply Hnotin, Hin, Hx.
    + split.
      * intros x Hx. right. apply Hin, Hx.
      * intro H. inversion H; subst. auto.
Qed.

Lemma map_at_ids (i : nat) (f : Packet.t -> Packet.t) (ps : list Packet.t) :
  (forall p, Packet.id (f p) = Packet.id p) ->
  map Packet.id (map_at i f ps) = map Packet.id ps.
Proof.
  intro Hf. revert i. induction ps as [|p ps IH]; intro i.
  - destruct i; reflexivity.
  - destruct i; simpl; [rewrite Hf | rewrite IH]; reflexivity.
Qed.

Lemma block_ids (pid : N) (ps : list Packet.t) :
  map Packet.id (block pid ps) = map Packet.id ps.
Proof.
  unfold block. rewrite map_map. apply map_ext. intro p.
  destruct (Packet.id p =? pid)%N; reflexivity.
Qed.

Lemma ids_distinct_ids (s s' : t) :
  map Packet.id (packets s') = map Packet.id (packets s) ->
  packetIdCounter s' = packetIdCounter s ->
  keeps ids_distinct s s'.
Proof.
  unfold keeps, ids_distinct. intros Hp Hc [Hn Hf]. rewrite Hp, Hc.
  split; [exact Hn|].
  rewrite Forall_forall in *. intros p Hin.
  assert (Hid : In (Packet.id p) (map Packet.id (packets s))).
  { rewrite <- Hp. apply in_map, Hin. }
  apply in_map_iff in Hid. destruct Hid as [q [Hq Hqin]].
  rewrite <- Hq. apply Hf, Hqin.
Qed.

Lemma ids_distinct_createPacket source target type speed :
  extends (keeps ids_distinct) (createPacket source target type speed).
Proof.
  intros s [Hn Hf]. unfold createPacket, Packet.new.
  destruct source as [src|]; simpl.
  - split; simpl.
    + rewrite map_app. simpl. apply NoDup_app; [exact Hn | | ].
      * constructor; [intros [] | constructor].
      * intros x Hx [Hy|[]]. subst x.
        apply in_map_iff in Hx. destruct Hx as [q [Hq Hqin]].
        rewrite Forall_forall in Hf. specialize (Hf q Hqin). lia.
    + apply Forall_app. split.
      * eapply Forall_impl; [|exact Hf]. simpl. intros; lia.
      * constructor; [simpl; lia | constructor].
  - split; [exact Hn|]. simpl.
    eapply Forall_impl; [|exact Hf]. simpl. intros; lia.
Qed.

Lemma ids_distinct_step (fuel : nat) (e : event) :
  extends (keeps ids_distinct) (step Math_sin fuel e).
Proof.
  destruct e as [deltaTime speed intensity|]; simpl.
  - intros s Hs. unfold update. simpl.
    pose proof (sweep_objects_ids (packets s)) as Ho.
    pose proof (sweep_kept_ids (packets s)) as Hk.
    destruct (Packet.sweep (packets s)) as [[kept| e |] objects]; simpl in *;
      try (revert Hs; apply ids_distinct_ids; [exact Ho | reflexivity]).
    destruct (Hk kept eq_refl) as [Hin Hnd]. destruct Hs as [Hn Hf].
    apply (extends_generate_then_metrics Math_sin (keeps ids_distinct)
             (fun _ => True)); try exact I.
    + exact (keeps_refl ids_distinct).
    + exact (keeps_trans ids_distinct).
    + intros s0 r. apply ids_distinct_ids; reflexivity.
    + intros. apply ids_distinct_createPacket.
    + intros cb _ s0. apply ids_distinct_ids; reflexivity.
    + intros load lat s0. apply ids_distinct_ids; reflexivity.
    + intros s0 i p _. apply ids_distinct_ids; [|reflexivity].
      apply map_at_ids. reflexivity.
    + intro s0. apply ids_distinct_ids; reflexivity.
    + intros c s0 i p _ _. apply ids_distinct_ids; reflexivity.
    + split; simpl; [apply Hnd, Hn|].
      rewrite Forall_forall in *. intros p Hp.
      assert (Hid : In (Packet.id p) (map Packet.id (packets s)))
        by (apply Hin, in_map, Hp).
      apply in_map_iff in Hid. destruct Hid as [q [Hq Hqin]].
      rewrite <- Hq. apply Hf, Hqin.
  - intros s Hs. destruct (timers s) as [|cb rest]; simpl; [exact Hs|].
    apply (extends_run_callback Math_sin (keeps ids_distinct)
             (fun _ => True)); try exact I.
    + exact (keeps_refl ids_distinct).
    + exact (keeps_trans ids_distinct).
    + intros s0 r. apply ids_distinct_ids; reflexivity.
    + intros. apply ids_distinct_createPacket.
    + intros s0 pid. apply ids_distinct_ids; [|reflexivity].
      apply block_ids.
    + intro s0. apply ids_distinct_ids; reflexivity.
    + destruct cb; exact I.
    + exact Hs.
Qed.

(** In every reachable state an id names at most one live packet. *)
Lemma reachable_ids_distinct (s : t) :
  reachable Math_sin Math_cos s -> ids_distinct s.
Proof.
  induction 1 as [randoms name rng w h s log Hc | fuel e s _ IH].
  - unfold SimulationFactory.create in Hc.
    destruct (Scenario.SCENARIOS name) as [sc|]; [|discriminate].
    injection Hc as <- _.
    destruct (initialize_packets_timers Math_sin Math_cos randoms
                (construct (SimulationFactory.class_for name) sc rng w h))
      as [Hp _].
    unfold ids_distinct. rewrite Hp. split; constructor.
  - apply ids_distinct_step, IH.
Qed.

End PacketIdentity.

Section Rounding.

Variables prec emax : Z.

Lemma shr_1_nonneg (mrs : shr_record) :
  (0 <= shr_m mrs)%Z -> (0 <= shr_m (shr_1 mrs))%Z.
Proof.
  destruct mrs as [m r s]. simpl.
  destruct m as [|p|p]; simpl; try lia; destruct p; simpl; lia.
Qed.

Lemma iter_shr_1_nonneg (p : positive) (mrs : shr_record) :
  (0 <= shr_m mrs)%Z -> (0 <= shr_m (iter_pos shr_1 p mrs))%Z.
Proof.
  revert mrs. induction p as [p IH|p IH|]; intros mrs H; simpl.
  - apply IH, IH, shr_1_nonneg, H.
  - apply IH, IH, H.
  - apply shr_1_nonneg, H.
Qed.

Lemma shr_nonneg (mrs : shr_record) (e n : Z) :
  (0 <= shr_m mrs)%Z -> (0 <= shr_m (fst (shr mrs e n)))%Z.
Proof.
  intro H. unfold shr. destruct n; simpl; try exact H.
  apply iter_shr_1_nonneg, H.
Qed.

Lemma shr_fexp_nonneg (m e : Z) (l : location) :
  (0 <= m)%Z -> (0 <= shr_m (fst (shr_fexp prec emax m e l)))%Z.
Proof.
  intro H. unfold shr_fexp. apply shr_nonneg.
  destruct l as [|[| |]]; exact H.
Qed.

Lemma round_nearest_even_nonneg (m : Z) (l : location) :
  (0 <= m)%Z -> (0 <= round_nearest_even m l)%Z.
Proof.
  intro H. unfold round_nearest_even.
  destruct l as [|[| |]]; try exact H; [destruct (Z.even m)|]; lia.
Qed.

(** Rounding a non-negative mantissa under a positive sign gives a
    non-negative number. *)
Lemma binary_round_aux_nonneg (mx ex : Z) (lx : location) :
  (0 <= mx)%Z ->
  SF_nonneg (binary_round_aux prec emax false mx ex lx) = true.
Proof.
  intro H. unfold binary_round_aux.
  pose proof (shr_fexp_nonneg mx ex lx H) as H1.
  destruct (shr_fexp prec emax mx ex lx) as [mrs' e']. simpl in H1.
  pose proof (shr_fexp_nonneg
                (round_nearest_even (shr_m mrs') (loc_of_shr_record mrs'))
                e' loc_Exact
                (round_nearest_even_nonneg _ _ H1)) as H2.
  destruct (shr_fexp prec emax _ e' loc_Exact) as [mrs'' e'']. simpl in H2.
  destruct (shr_m mrs'') as [|m|m]; [reflexivity | | lia].
  destruct (e'' <=? emax - prec)%Z; reflexivity.
Qed.

Lemma binary_normalize_nonneg (m e : Z) :
  (0 <= m)%Z -> SF_nonneg (binary_normalize prec emax m e false) = true.
Proof.
  intro H. unfold binary_normalize. destruct m as [|p|p];
    [reflexivity | | lia].
  unfold binary_round. destruct (shl_align _ _ _) as [mz ez].
  apply binary_round_aux_nonneg. lia.
Qed.

Lemma SFdiv_nonneg (x : spec_float) (my : positive) (ey : Z) :
  SF_nonneg x = true ->
  SF_nonneg (SFdiv prec emax x (S754_finite false my ey)) = true.
Proof.
  destruct x as [sx|[|]| |[|] mx ex]; try discriminate; intros _;
    try reflexivity.
  unfold SFdiv, SFdiv_core_binary. simpl xorb.
  set (m' := match (ex - ey - _)%Z with
             | Z0 => Z.pos mx
             | Z.pos _ => Z.shiftl (Z.pos mx) _
             | Z.neg _ => 0%Z
             end).
  assert (Hm : (0 <= m')%Z).
  { unfold m'. destruct (ex - ey - _)%Z; try lia.
    apply Z.shiftl_nonneg. lia. }
  pose proof (Z.div_pos m' (Z.pos my) Hm ltac:(lia)) as Hq.
  unfold Z.div in Hq.
  destruct (Z.div_eucl m' (Z.pos my)) as [q r]. simpl in Hq.
  apply binary_round_aux_nonneg, Hq.
Qed.

Lemma SFmul_nonneg (x : spec_float) (my : positive) (ey : Z) :
  SF_nonneg x = true ->
  SF_nonneg (SFmul prec emax x (S754_finite false my ey)) = true.
Proof.
  destruct x as [sx|[|]| |[|] mx ex]; try discriminate; intros _;
    try reflexivity.
  unfold SFmul. simpl xorb. apply binary_round_aux_nonneg. lia.
Qed.

End Rounding.

Section Comparisons.

Lemma SFcompare_antisym (x y : spec_float) :
  SFcompare y x = option_map CompOpp (SFcompare x y).
Proof.
  destruct x as [sx|sx| |sx mx ex], y as [sy|sy| |sy my ey];
    try reflexivity;
    try (destruct sx; reflexivity); try (destruct sy; reflexivity);
    try (destruct sx, sy; reflexivity).
  simpl. destruct sx, sy; try reflexivity;
    rewrite (Z.compare_antisym ex ey);
    destruct (ex ?= ey)%Z; simpl; try reflexivity;
    rewrite (Pos.compare_cont_antisym mx my Eq); simpl;
    destruct (Pos.compare_cont Eq mx my); reflexivity.
Qed.

Lemma SFcompare_refl (x : spec_float) :
  x <> S754_nan -> SFcompare x x = Some Eq.
Proof.
  destruct x as [s|s| |s m e]; try (intros _; destruct s; reflexivity).
  - intro H. elim H. reflexivity.
  - intros _. simpl. rewrite Z.compare_refl, Pos.compare_cont_refl.
    destruct s; reflexivity.
Qed.

Lemma nonneg_not_nan (x : float) : nonneg x = true -> is_nan x = false.
Proof.
  unfold nonneg, is_nan. intro H. rewrite eqb_spec. unfold SFeqb.
  rewrite SFcompare_refl; [reflexivity|].
  intro E. rewrite E in H. discriminate H.
Qed.

Lemma nonneg_zero_le (x : float) : nonneg x = true -> (0 <=? x)%float = true.
Proof.
  unfold nonneg. intro H. rewrite leb_spec.
  change (Prim2SF 0) with (S754_zero false).
  destruct (Prim2SF x) as [s|[|]| |[|] m e]; try discriminate; reflexivity.
Qed.

Lemma ltb_leb (x y : float) : (x <? y)%float = true -> (x <=? y)%float = true.
Proof.
  rewrite ltb_spec, leb_spec. unfold SFltb, SFleb.
  destruct (SFcompare _ _) as [[| |]|]; try discriminate; reflexivity.
Qed.

Lemma SFcompare_defined (x y : spec_float) :
  x <> S754_nan -> y <> S754_nan -> SFcompare x y <> None.
Proof.
  destruct x as [sx|sx| |sx mx ex], y as [sy|sy| |sy my ey];
    intros Hx Hy; try (elim Hx; reflexivity); try (elim Hy; reflexivity);
    simpl; discriminate.
Qed.

Lemma is_nan_spec (x : float) :
  is_nan x = false -> Prim2SF x <> S754_nan.
Proof.
  unfold is_nan. rewrite eqb_spec. unfold SFeqb. intros H E.
  rewrite E in H. discriminate H.
Qed.

(** Of two numbers, neither of them [NaN], the first is at most the second
    unless the second is below it. *)
Lemma not_ltb_leb (x y : float) :
  is_nan x = false -> is_nan y = false ->
  (y <? x)%float = false -> (x <=? y)%float = true.
Proof.
  intros Hx Hy. apply is_nan_spec in Hx, Hy.
  rewrite ltb_spec, leb_spec. unfold SFltb, SFleb.
  rewrite (SFcompare_antisym (Prim2SF x) (Prim2SF y)).
  pose proof (SFcompare_defined _ _ Hx Hy) as Hc.
  destruct (SFcompare (Prim2SF x) (Prim2SF y)) as [[| |]|]; simpl;
    try reflexivity; try discriminate.
  elim Hc. reflexivity.
Qed.

End Comparisons.

Section Signs.

Lemma of_N_nonneg (n : N) : nonneg (Num.of_N n) = true.
Proof.
  unfold nonneg, Num.of_N. rewrite of_uint63_spec.
  apply binary_normalize_nonneg.
  apply Uint63.to_Z_bounded.
Qed.

Lemma div_nonneg (x y : float) :
  nonneg x = true -> positive_finite y = true -> nonneg (x / y) = true.
Proof.
  unfold nonneg, positive_finite. intros Hx Hy. rewrite div_spec.
  destruct (Prim2SF y) as [s|s| |[|] m e]; try discriminate Hy.
  apply SFdiv_nonneg, Hx.
Qed.

Lemma mul_nonneg (x y : float) :
  nonneg x = true -> positive_finite y = true -> nonneg (x * y) = true.
Proof.
  unfold nonneg, positive_finite. intros Hx Hy. rewrite mul_spec.
  destruct (Prim2SF y) as [s|s| |[|] m e]; try discriminate Hy.
  apply SFmul_nonneg, Hx.
Qed.

(** [Math.min(100, x)] of a non-negative [x] lies in [0, 100]. *)
Lemma Math_min_100_percentage (x : float) :
  nonneg x = true -> percentage (Num.Math_min 100 x).
Proof.
  intro Hx. pose proof (nonneg_not_nan x Hx) as Hn.
  unfold Num.Math_min. rewrite Hn.
  change (is_nan 100) with false. cbn [orb].
  destruct (100 <? x)%float eqn:E1; [split; reflexivity|].
  destruct (x <? 100)%float eqn:E2.
  - split; [apply nonneg_zero_le, Hx | apply ltb_leb, E2].
  - change (Num.is_neg_zero 100) with false. cbv iota.
    split; [apply nonneg_zero_le, Hx|].
    apply not_ltb_leb; [exact Hn | reflexivity | exact E1].
Qed.

(** The load every [updateMetrics] computes. *)
Lemma load_percentage (n : N) (k : float) :
  positive_finite k = true ->
  percentage (Num.Math_min 100 (Num.of_N n / k * 100)).
Proof.
  intro Hk. apply Math_min_100_percentage.
  apply mul_nonneg; [|reflexivity].
  apply div_nonneg; [apply of_N_nonneg | exact Hk].
Qed.

End Signs.

Section Setting.

Import AttackSimulation.

Variables Math_sin Math_cos : float -> float.

Lemma same_setting_refl (s : t) : same_setting s s.
Proof. repeat split. Qed.

Lemma same_setting_trans (a b c : t) :
  same_setting a b -> same_setting b c -> same_setting a c.
Proof.
  unfold same_setting.
  intros [H1 [H2 [H3 [H4 H5]]]] [K1 [K2 [K3 [K4 K5]]]].
  repeat split; congruence.
Qed.

Lemma same_setting_createPacket source target type speed :
  extends same_setting (createPacket source target type speed).
Proof.
  intro s. unfold createPacket.
  destruct (Packet.new _ source target type speed); repeat split.
Qed.

Lemma same_setting_generate_then_metrics (fuel : nat) (intensity : float) :
  extends same_setting
    (generatePackets Math_sin fuel intensity ;; updateMetrics Math_sin)%js.
Proof.
  apply extends_generate_then_metrics with (ok := fun _ => True);
    try exact I; try exact same_setting_refl;
    try exact same_setting_trans;
    try (intros; apply same_setting_createPacket);
    unfold extends; intros; repeat split.
Qed.

Lemma same_setting_update (fuel : nat) (deltaTime speed intensity : float) :
  extends same_setting (update Math_sin fuel deltaTime speed intensity).
Proof.
  intro s. unfold update.
  destruct (Packet.sweep _) as [[kept| e |] objects]; simpl;
    [|repeat split | repeat split].
  eapply same_setting_trans; [|apply same_setting_generate_then_metrics].
  repeat split.
Qed.

Lemma same_setting_run_callback (cb : callback) :
  extends same_setting (run_callback Math_sin cb).
Proof.
  apply extends_run_callback with (ok := fun _ => True);
    try exact I; try exact same_setting_refl;
    try exact same_setting_trans;
    try (intros; apply same_setting_createPacket);
    try (destruct cb; exact I);
    unfold extends; intros; repeat split.
Qed.

Lemma same_setting_step (fuel : nat) (e : event) :
  extends same_setting (step Math_sin fuel e).
Proof.
  destruct e as [deltaTime speed intensity|]; simpl.
  - apply same_setting_update.
  - intro s. destruct (timers s) as [|cb rest]; simpl.
    + apply same_setting_refl.
    + eapply same_setting_trans; [|apply same_setting_run_callback].
      repeat split.
Qed.

Lemma same_setting_run (fuel : nat) (es : list event) (s : t) :
  same_setting s (run Math_sin fuel es s).
Proof.
  revert s. induction es as [|e es IH]; intro s; simpl.
  - apply same_setting_refl.
  - eapply same_setting_trans; [apply same_setting_step | apply IH].
Qed.

End Setting.

(** X1. No [update] call and no timer callback adds, removes, moves or
    reconnects a node, or changes the scenario, the subclass or the canvas
    size of the simulation: after any run they are what [initialize] left,
    however the calls completed. *)
Theorem run_keeps_nodes_and_scenario (Math_sin : float -> float) (fuel : nat)
  (es : list AttackSimulation.event) (s : AttackSimulation.t) :
  let s' := AttackSimulation.run Math_sin fuel es s in
  AttackSimulation.nodes s' = AttackSimulation.nodes s
  /\ AttackSimulation.class_of s' = AttackSimulation.class_of s
  /\ AttackSimulation.scenario s' = AttackSimulation.scenario s
  /\ AttackSimulation.canvasWidth s' = AttackSimulation.canvasWidth s
  /\ AttackSimulation.canvasHeight s' = AttackSimulation.canvasHeight s.
Proof. apply same_setting_run. Qed.

Section Received.

Import AttackSimulation.

Variables Math_sin Math_cos : float -> float.

Lemma same_received_refl (s : t) : same_received s s.
Proof. reflexivity. Qed.

Lemma same_received_trans (a b c : t) :
  same_received a b -> same_received b c -> same_received a c.
Proof. unfold same_received. congruence. Qed.

Lemma same_received_createPacket source target type speed :
  extends same_received (createPacket source target type speed).
Proof.
  intro s. unfold createPacket.
  destruct (Packet.new _ source target type speed); reflexivity.
Qed.

Lemma same_received_run_callback (cb : callback) :
  extends same_received (run_callback Math_sin cb).
Proof.
  apply extends_run_callback with (ok := fun _ => True);
    try exact I; try exact same_received_refl;
    try exact same_received_trans;
    try (intros; apply same_received_createPacket);
    try (destruct cb; exact I);
    unfold extends; intros; reflexivity.
Qed.

(** An [update] counts no arrival, whether its sweep completes or not. *)
Lemma same_received_update (fuel : nat) (deltaTime speed intensity : float) :
  extends same_received (update Math_sin fuel deltaTime speed intensity).
Proof.
  intro s. destruct (sweep_completes s) eqn:E.
  - apply (update_counts_no_arrival Math_sin fuel deltaTime speed intensity
             s E).
  - unfold sweep_completes in E. unfold update. simpl.
    destruct (Packet.sweep (packets s)) as [[kept| e |] objects];
      simpl in *; [discriminate E | reflexivity | reflexivity].
Qed.

Lemma same_received_step (fuel : nat) (e : event) :
  extends same_received (step Math_sin fuel e).
Proof.
  destruct e as [deltaTime speed intensity|]; simpl.
  - apply same_received_update.
  - intro s. destruct (timers s) as [|cb rest]; simpl.
    + reflexivity.
    + apply (same_received_run_callback cb (set_timers rest s)).
Qed.

Lemma initialize_metrics (randoms : nat -> float) (s : t) :
  metrics (initialize Math_sin Math_cos randoms s) = metrics s
  /\ packetIdCounter (initialize Math_sin Math_cos randoms s)
     = packetIdCounter s.
Proof.
  unfold initialize. destruct (class_of s); try (split; reflexivity).
  unfold initialize_Firewall.
  destruct (firewall_clients _ _ _ _ _ _ _) as [[ns| e |] r];
    split; reflexivity.
Qed.

Lemma reachable_received (s : t) :
  reachable Math_sin Math_cos s -> packetsReceived (metrics s) = 0%N.
Proof.
  induction 1 as [randoms name rng w h s log Hc | fuel e s _ IH].
  - unfold SimulationFactory.create in Hc.
    destruct (Scenario.SCENARIOS name) as [sc|]; [|discriminate].
    injection Hc as <- _.
    destruct (initialize_metrics randoms
                (construct (SimulationFactory.class_for name) sc rng w h))
      as [Hm _].
    rewrite Hm. reflexivity.
  - pose proof (same_received_step fuel e s) as H.
    unfold same_received in H. unfold exec. rewrite H. exact IH.
Qed.

End Received.

(** X2. [packetsReceived] is 0 in every state a simulation returned by the
    factory can reach, in every scenario and whatever the calls of [update]
    and the timers: [updateMetrics] looks for arrived packets in a
    collection from which the sweep has already removed them. *)
Theorem packetsReceived_stays_zero (Math_sin Math_cos : float -> float)
  (s : AttackSimulation.t) :
  reachable Math_sin Math_cos s ->
  AttackSimulation.packetsReceived (AttackSimulation.getMetrics s) = 0%N.
Proof. apply reachable_received. Qed.

Lemma packetsReceived_stays_zero_witness :
  reachable Reference.Math_sin Reference.Math_cos (Reference.ddos_after 50)
  /\ AttackSimulation.packetsReceived
       (AttackSimulation.getMetrics (Reference.ddos_after 50)) = 0%N.
Proof.
  split; [apply reference_ddos_reachable|].
  apply (packetsReceived_stays_zero Reference.Math_sin Reference.Math_cos
           (Reference.ddos_after 50) (reference_ddos_reachable 50)).
Defined.

Section Trails.

Import AttackSimulation.

Variables Math_sin Math_cos : float -> float.

Lemma push_trail_bounded (pt : Packet.point) (tr : list Packet.point) :
  (length tr <= 10)%nat -> (length (Packet.push_trail pt tr) <= 10)%nat.
Proof.
  intro H. unfold Packet.push_trail.
  destruct (10 <? length (tr ++ [pt]))%nat eqn:E.
  - rewrite length_tl, length_app. simpl. lia.
  - apply Nat.ltb_ge in E. exact E.
Qed.

Lemma update_trail_bounded (p : Packet.t) :
  trail_bounded p -> trail_bounded (snd (Packet.update p)).
Proof.
  unfold trail_bounded, Packet.update. intro H.
  destruct (negb (Packet.active p)); [exact H|].
  destruct (1 <=? _)%float; [exact H|]. simpl.
  destruct (Packet.target p); [|exact H]. simpl.
  apply push_trail_bounded, H.
Qed.

Lemma sweep_trail_bounded (ps : list Packet.t) :
  Forall trail_bounded ps ->
  Forall trail_bounded (snd (Packet.sweep ps))
  /\ forall kept, fst (Packet.sweep ps) = Normal kept ->
                  Forall trail_bounded kept.
Proof.
  induction 1 as [|p ps Hp Hps [IHo IHk]]; simpl.
  - split; [constructor|]. intros kept H. injection H as <-. constructor.
  - pose proof (update_trail_bounded p Hp) as Hp'.
    destruct (Packet.update p) as [[keep| e |] p']; simpl in *.
    + destruct (Packet.sweep ps) as [[kept'| e |] rest']; simpl in *;
        (split; [constructor; assumption|]); intros kept H;
        try discriminate.
      injection H as <-. specialize (IHk kept' eq_refl).
      destruct keep; [constructor|]; assumption.
    + split; [constructor; assumption|]. discriminate.
    + split; [constructor; assumption|]. discriminate.
Qed.

Lemma trails_bounded_same (s s' : t) :
  packets s' = packets s -> keeps trails_bounded s s'.
Proof. unfold keeps, trails_bounded. intros ->. auto. Qed.

Lemma trails_bounded_createPacket source target type speed :
  extends (keeps trails_bounded) (createPacket source target type speed).
Proof.
  intro s. unfold createPacket, Packet.new.
  destruct source as [src|]; simpl.
  - intro H. unfold trails_bounded in *. simpl.
    apply Forall_app. split; [exact H|].
    constructor; [|constructor]. unfold trail_bounded. simpl. lia.
  - apply trails_bounded_same; reflexivity.
Qed.

Lemma trails_bounded_block (pid : N) (ps : list Packet.t) :
  Forall trail_bounded ps -> Forall trail_bounded (block pid ps).
Proof.
  induction 1 as [|p ps Hp _ IH]; simpl; constructor; try exact IH.
  destruct (Packet.id p =? pid)%N; exact Hp.
Qed.

Lemma trails_bounded_step (fuel : nat) (e : event) :
  extends (keeps trails_bounded) (step Math_sin fuel e).
Proof.
  destruct e as [deltaTime speed intensity|]; simpl.
  - intros s Hs. unfold update. simpl.
    destruct (sweep_trail_bounded (packets s) Hs) as [Ho Hk].
    destruct (Packet.sweep (packets s)) as [[kept| e |] objects]; simpl in *;
      try exact Ho.
    apply (extends_generate_then_metrics Math_sin (keeps trails_bounded)
             (fun _ => True)); try exact I.
    + exact (keeps_refl trails_bounded).
    + exact (keeps_trans trails_bounded).
    + intros s0 r. apply trails_bounded_same; reflexivity.
    + intros. apply trails_bounded_createPacket.
    + intros cb _ s0. apply trails_bounded_same; reflexivity.
    + intros load lat s0. apply trails_bounded_same; reflexivity.
    + intros s0 i p _ H. unfold trails_bounded in *. simpl.
      apply Forall_map_at; [|exact H]. intros x Hx. exact Hx.
    + intro s0. apply trails_bounded_same; reflexivity.
    + intros c s0 i p _ _. apply trails_bounded_same; reflexivity.
    + apply Hk. reflexivity.
  - intros s Hs. destruct (timers s) as [|cb rest]; simpl; [exact Hs|].
    apply (extends_run_callback Math_sin (keeps trails_bounded)
             (fun _ => True)); try exact I.
    + exact (keeps_refl trails_bounded).
    + exact (keeps_trans trails_bounded).
    + intros s0 r. apply trails_bounded_same; reflexivity.
    + intros. apply trails_bounded_createPacket.
    + intros s0 pid H. unfold trails_bounded in *. simpl.
      apply trails_bounded_block, H.
    + intro s0. apply trails_bounded_same; reflexivity.
    + destruct cb; exact I.
    + exact Hs.
Qed.

Lemma reachable_trails_bounded (s : t) :
  reachable Math_sin Math_cos s -> trails_bounded s.
Proof.
  induction 1 as [randoms name rng w h s log Hc | fuel e s _ IH].
  - unfold SimulationFactory.create in Hc.
    destruct (Scenario.SCENARIOS name) as [sc|]; [|discriminate].
    injection Hc as <- _.
    destruct (initialize_packets_timers Math_sin Math_cos randoms
                (construct (SimulationFactory.class_for name) sc rng w h))
      as [Hp _].
    unfold trails_bounded. rewrite Hp. constructor.
  - apply trails_bounded_step, IH.
Qed.

End Trails.

(** ** The engine, site by site

    The rules of the engine again, with each call of [createPacket] taken
    with the site it is made from and with the [setTimeout] that follows
    it, and the drop of an overloaded server taken as one change.  [ns] is
    the node collection and [c] the subclass of the simulation. *)

Section Sites.

Import AttackSimulation.

Variable Math_sin : float -> float.
Variable R : t -> t -> Prop.
Variable ns : list Node.t.
Variable c : class.

Hypothesis R_refl : forall s, R s s.
Hypothesis R_trans : forall a b c, R a b -> R b c -> R a c.

Hypothesis S_rng : forall s r, R s (set_rng r s).
Hypothesis S_load :
  forall n k lat,
    positive_finite k = true ->
    extends R
      (set_serverLoad (Num.Math_min 100 (Num.of_N n / k * 100)) lat).
Hypothesis S_received :
  forall countable s i p,
    nth_error (packets s) i = Some p -> arrived countable p = true ->
    R s (set_metrics (received_incr (metrics s)) s).

Hypothesis S_ddos :
  c = DDoSAttack ->
  forall a,
    (forall x, a = Some x -> In x (Node.of_type Node.attacker ns)) ->
    extends R (createPacket a (Node.find_id "server" ns) Packet.attack 2).
Hypothesis S_drop :
  c = DDoSAttack ->
  forall s i p r,
    nth_error (packets s) i = Some p -> Packet.active p = true ->
    R s (set_metrics (dropped_incr (metrics s))
           (set_packets (map_at i (Packet.set_active false) (packets s))
              (set_rng r s))).

Hypothesis S_mitm :
  c = MITMAttack ->
  forall from to,
    (from = Node.find_id "client1" ns /\ to = Node.find_id "client2" ns)
    \/ (from = Node.find_id "client2" ns /\ to = Node.find_id "client1" ns) ->
    extends R
      (_ <- createPacket from (Node.find_id "attacker" ns) Packet.normal 1.5 ;;
       setTimeout
         (Relay (Node.find_id "attacker" ns) to Packet.attack 1.5))%js.

Hypothesis S_firewall :
  c = FirewallAttack ->
  forall cl,
    In cl (firewall_sources ns) ->
    extends R
      (packet <- createPacket (Some cl) (Node.find_id "firewall" ns)
                   (firewall_packetType cl) 1.5 ;;
       setTimeout
         (FirewallDecision (Packet.id packet) (is_attacker cl)
            (firewall_packetType cl) (Node.find_id "firewall" ns)
            (Node.find_id "server" ns)))%js.

Hypothesis S_reroute :
  c = ARPSpoofAttack ->
  forall src tg,
    In src (Node.of_type Node.client ns) ->
    In tg (Node.of_type Node.client ns) ->
    String.eqb (Node.id tg) (Node.id src) = false ->
    extends R
      (_ <- createPacket (Some src) (Node.find_id "attacker" ns)
              Packet.normal 1 ;;
       setTimeout
         (Relay (Node.find_id "attacker" ns) (Some tg) Packet.attack 1))%js.
Hypothesis S_spoof :
  c = ARPSpoofAttack ->
  forall tg,
    (forall x, tg = Some x -> In x (Node.of_type Node.client ns)) ->
    extends R
      (createPacket (Node.find_id "attacker" ns) tg Packet.attack 2).

Lemma rng_choice_In (A : Type) (l : list A) (s : t) (x : A) :
  fst (rng_choice Math_sin l s) = Normal (Some x) -> In x l.
Proof.
  unfold rng_choice, on_rng.
  destruct (SeededRandom.choice Math_sin l (rng s)) as [c0 r] eqn:E.
  simpl. intros ->.
  apply (choice_In Math_sin A l (rng s) x). rewrite E. reflexivity.
Qed.

(** A bind whose first part is a draw from the generator. *)
Lemma sites_draw (A B : Type) (m : JS SeededRandom.t A)
  (k : A -> JS t B) :
  (forall a s, fst (on_rng m s) = Normal a -> extends R (k a)) ->
  extends R (bind (on_rng m) k).
Proof.
  intros Hk s. unfold bind.
  destruct (on_rng m s) as [[a| e |] s'] eqn:E.
  - assert (Hs : s' = set_rng (rng s') s).
    { unfold on_rng in E. destruct (m (rng s)) as [c0 r].
      injection E as _ <-. reflexivity. }
    eapply R_trans; [|apply (Hk a s); rewrite E; reflexivity].
    unfold on_rng in E. destruct (m (rng s)) as [c0 r].
    injection E as _ <-. apply S_rng.
  - unfold on_rng in E. destruct (m (rng s)) as [c0 r].
    injection E as _ <-. apply S_rng.
  - unfold on_rng in E. destruct (m (rng s)) as [c0 r].
    injection E as _ <-. apply S_rng.
Qed.

Lemma sites_generatePackets_DDoS (fuel : nat) (intensity : float) (s0 : t) :
  c = DDoSAttack -> nodes s0 = ns ->
  R s0 (snd (generatePackets_DDoS Math_sin fuel intensity s0)).
Proof.
  intros Hc Hn. unfold generatePackets_DDoS, bind at 1, get. rewrite Hn.
  apply extends_for_lt; try assumption.
  apply sites_draw. intros d _ _.
  destruct (d <? 0.5)%float; [|apply extends_ret; assumption].
  apply sites_draw. intros a s Ha.
  apply extends_bind; try assumption;
    [|intros _; apply extends_ret; assumption].
  apply S_ddos; [exact Hc|]. intros x ->.
  eapply rng_choice_In, Ha.
Qed.

Lemma sites_generatePackets_MITM (fuel : nat) (intensity : float) (s0 : t) :
  c = MITMAttack -> nodes s0 = ns ->
  R s0 (snd (generatePackets_MITM Math_sin fuel intensity s0)).
Proof.
  intros Hc Hn. unfold generatePackets_MITM, bind at 1, get. rewrite Hn.
  apply extends_for_lt; try assumption.
  apply sites_draw. intros d _ _.
  destruct (d <? 0.5)%float; [|apply extends_ret; assumption].
  apply sites_draw. intros d' _ _.
  destruct (d' <? 0.5)%float; apply S_mitm; try exact Hc;
    [left | right]; split; reflexivity.
Qed.

Lemma sites_generatePackets_Firewall (fuel : nat) (intensity : float)
  (s0 : t) :
  c = FirewallAttack -> nodes s0 = ns ->
  R s0 (snd (generatePackets_Firewall Math_sin fuel intensity s0)).
Proof.
  intros Hc Hn. unfold generatePackets_Firewall, bind at 1, get. rewrite Hn.
  apply extends_for_lt; try assumption.
  apply sites_draw. intros d _ _.
  destruct (d <? 0.5)%float; [|apply extends_ret; assumption].
  apply sites_draw. intros [cl|] s Ha; [|apply extends_throw; assumption].
  apply (S_firewall Hc cl). eapply rng_choice_In, Ha.
Qed.

Lemma sites_generatePackets_ARPSpoof (fuel : nat) (intensity : float)
  (s0 : t) :
  c = ARPSpoofAttack -> nodes s0 = ns ->
  R s0 (snd (generatePackets_ARPSpoof Math_sin fuel intensity s0)).
Proof.
  intros Hc Hn. unfold generatePackets_ARPSpoof, bind at 1, get. rewrite Hn.
  apply extends_for_lt; try assumption.
  apply sites_draw. intros d _ _.
  destruct (d <? 0.3)%float.
  - apply sites_draw. intros src s Hsrc.
    destruct src as [src|].
    + apply sites_draw. intros [tg|] s' Htg;
        [|apply extends_ret; assumption].
      apply rng_choice_In in Hsrc. apply rng_choice_In in Htg.
      apply filter_In in Htg. destruct Htg as [Htg Hne].
      apply negb_true_iff in Hne.
      apply (S_reroute Hc src tg Hsrc Htg Hne).
    + destruct (Node.of_type Node.client ns);
        [|apply extends_throw; assumption].
      apply sites_draw. intros [tg|] s' Htg;
        [|apply extends_ret; assumption].
      apply rng_choice_In in Htg. destruct Htg.
  - apply sites_draw. intros d' _ _.
    destruct (d' <? 0.5)%float; [|apply extends_ret; assumption].
    apply sites_draw. intros tg s Htg.
    apply extends_bind; try assumption;
      [|intros _; apply extends_ret; assumption].
    apply S_spoof; [exact Hc|]. intros x ->.
    eapply rng_choice_In, Htg.
Qed.

Lemma sites_generatePackets (fuel : nat) (intensity : float) (s0 : t) :
  class_of s0 = c -> nodes s0 = ns ->
  R s0 (snd (generatePackets Math_sin fuel intensity s0)).
Proof.
  intros Hc Hn. unfold generatePackets. symmetry in Hc.
  destruct (class_of s0).
  - apply sites_generatePackets_DDoS; [exact Hc | exact Hn].
  - apply sites_generatePackets_MITM; [exact Hc | exact Hn].
  - apply sites_generatePackets_Firewall; [exact Hc | exact Hn].
  - apply sites_generatePackets_ARPSpoof; [exact Hc | exact Hn].
Qed.

Lemma sites_drop_overloaded :
  c = DDoSAttack -> extends R (drop_overloaded Math_sin).
Proof.
  intro Hc. apply extends_packets_forEach; try assumption.
  intros j p s E.
  destruct (Packet.active p) eqn:Ha; simpl; [|apply R_refl].
  destruct (0.9 <? Packet.progress p)%float; [|apply R_refl].
  unfold bind, rng_next, on_rng. simpl.
  destruct (_ <? 0.3)%float; simpl.
  - apply (S_drop Hc s j p _ E Ha).
  - apply S_rng.
Qed.

Lemma sites_updateMetrics (s : t) :
  class_of s = c -> R s (snd (updateMetrics Math_sin s)).
Proof.
  intros Hc. unfold updateMetrics. symmetry in Hc.
  destruct (class_of s); revert s.
  - unfold updateMetrics_DDoS.
    apply extends_bind; try assumption.
    intro s0. apply extends_bind; try assumption;
      [apply S_load; reflexivity|].
    intros _.
    destruct (80 <? _)%float.
    + apply sites_drop_overloaded. exact Hc.
    + apply extends_count_received; assumption.
  - unfold updateMetrics_MITM.
    apply extends_bind; try assumption.
    intro s0. apply sites_draw. intros d _ _.
    apply extends_bind; try assumption;
      [apply S_load; reflexivity|].
    intros _.
    apply extends_count_received; assumption.
  - unfold updateMetrics_Firewall.
    apply extends_bind; try assumption.
    intro s0. apply extends_bind; try assumption;
      [apply S_load; reflexivity|].
    intros _.
    apply extends_count_received; assumption.
  - unfold updateMetrics_ARPSpoof.
    apply extends_bind; try assumption.
    intro s0. apply sites_draw. intros d _ _.
    apply extends_bind; try assumption;
      [apply S_load; reflexivity|].
    intros _.
    apply extends_count_received; assumption.
Qed.

End Sites.

(** ** Accounting *)

Section Accounting.

Import AttackSimulation.

Variables Math_sin Math_cos : float -> float.
Variable c : class.

Lemma accounted_same (s s' : t) :
  class_of s' = class_of s ->
  packetsSent (metrics s') = packetsSent (metrics s) ->
  packetsDropped (metrics s') = packetsDropped (metrics s) ->
  packetsBlocked (metrics s') = packetsBlocked (metrics s) ->
  (activeCount (packets s') <= activeCount (packets s))%N ->
  (pendingDecisions s' <= pendingDecisions s)%N ->
  keeps (accounted c) s s'.
Proof.
  unfold keeps, accounted, sent, dropped, blocked.
  intros -> -> -> -> Ha Hp [Hc [H1 [H2 [H3 H4]]]].
  split; [exact Hc|]. split; [lia|]. split; [lia|]. split; [exact H3|].
  intro H. destruct (H4 H) as [Hb H0]. split; [exact Hb | lia].
Qed.

Lemma activeCount_app (ps qs : list Packet.t) :
  activeCount (ps ++ qs) = (activeCount ps + activeCount qs)%N.
Proof.
  unfold activeCount. rewrite filter_app, length_app. lia.
Qed.

Lemma accounted_createPacket source target type speed :
  extends (keeps (accounted c)) (createPacket source target type speed).
Proof.
  intro s. unfold createPacket, Packet.new.
  destruct source as [src|]; simpl.
  - unfold keeps, accounted, sent, dropped, blocked, pendingDecisions.
    simpl. rewrite activeCount_app.
    intros [Hc [H1 [H2 [H3 H4]]]].
    change (activeCount [_]) with 1%N.
    split; [exact Hc|]. split; [lia|]. split; [lia|]. split; [exact H3|].
    exact H4.
  - apply accounted_same; reflexivity || apply N.le_refl.
Qed.

Lemma pendingDecisions_schedule (cb : callback) (s : t) :
  pendingDecisions (set_timers (timers s ++ [cb]) s)
  = (pendingDecisions s + (if is_decision cb then 1 else 0))%N.
Proof.
  unfold pendingDecisions. simpl. rewrite filter_app, length_app. simpl.
  destruct (is_decision cb); simpl; lia.
Qed.

(** A packet sent, then a callback scheduled: a relay anywhere, a decision
    in a firewall simulation. *)
Lemma accounted_send_schedule source target type speed
  (cb : Packet.t -> callback) :
  (forall p, is_decision (cb p) = true) \/ (forall p, is_decision (cb p) = false) ->
  ((forall p, is_decision (cb p) = true) -> c = FirewallAttack) ->
  extends (keeps (accounted c))
    (packet <- createPacket source target type speed ;;
     setTimeout (cb packet))%js.
Proof.
  intros Hcb Hfw s. unfold bind, createPacket, Packet.new.
  destruct source as [src|]; simpl.
  - set (p := Packet.mk _ _ _ _ _ _ _ _ _ _).
    set (s2 := set_metrics _ _).
    change (timers s ++ [cb p]) with (timers s2 ++ [cb p]).
    unfold keeps, accounted. rewrite pendingDecisions_schedule.
    change (pendingDecisions s2) with (pendingDecisions s).
    unfold sent, dropped, blocked.
    simpl. rewrite activeCount_app.
    intros [Hc [H1 [H2 [H3 H4]]]].
    change (activeCount [_]) with 1%N.
    destruct Hcb as [Hd|Hd]; rewrite (Hd p).
    + split; [exact Hc|]. split; [lia|]. split; [lia|]. split; [exact H3|].
      intro H. elim H. apply Hfw, Hd.
    + split; [exact Hc|]. split; [lia|]. split; [lia|]. split; [exact H3|].
      intro H. destruct (H4 H) as [Hb H0]. split; [exact Hb | lia].
  - apply accounted_same; reflexivity || apply N.le_refl.
Qed.

Lemma activeCount_deactivate (ps : list Packet.t) (i : nat) (p : Packet.t) :
  nth_error ps i = Some p -> Packet.active p = true ->
  (activeCount (map_at i (Packet.set_active false) ps) + 1
   = activeCount ps)%N.
Proof.
  unfold activeCount. revert i. induction ps as [|q ps IH]; intros i E Ha.
  - destruct i; discriminate E.
  - destruct i; simpl in *.
    + injection E as ->. rewrite Ha. simpl. lia.
    + specialize (IH i E Ha). destruct (Packet.active q); simpl; lia.
Qed.

Lemma activeCount_block (pid : N) (ps : list Packet.t) :
  (activeCount (block pid ps) <= activeCount ps)%N.
Proof.
  unfold activeCount. induction ps as [|q ps IH]; simpl; [lia|].
  destruct (Packet.id q =? pid)%N; simpl;
    destruct (Packet.active q); simpl; lia.
Qed.

Lemma update_active_le (p : Packet.t) :
  Packet.active (snd (Packet.update p)) = true -> Packet.active p = true.
Proof.
  intro H. destruct (Packet.active p) eqn:E; [reflexivity|].
  rewrite update_inactive in H by exact E. simpl in H. congruence.
Qed.

Lemma activeCount_cons (p : Packet.t) (ps : list Packet.t) :
  activeCount (p :: ps)
  = ((if Packet.active p then 1 else 0) + activeCount ps)%N.
Proof.
  unfold activeCount. cbn [filter].
  destruct (Packet.active p); cbn [length]; lia.
Qed.

Lemma activeCount_sweep (ps : list Packet.t) :
  (activeCount (snd (Packet.sweep ps)) <= activeCount ps)%N
  /\ forall kept, fst (Packet.sweep ps) = Normal kept ->
                  (activeCount kept <= activeCount ps)%N.
Proof.
  induction ps as [|p ps [IHo IHk]]; simpl.
  - split; [apply N.le_refl|]. intros kept H. injection H as <-.
    apply N.le_refl.
  - assert (Hp : ((if Packet.active (snd (Packet.update p)) then 1 else 0)
                  <= (if Packet.active p then 1 else 0))%N).
    { pose proof (update_active_le p) as H.
      destruct (Packet.active (snd (Packet.update p)));
        [rewrite H by reflexivity|]; destruct (Packet.active p); lia. }
    rewrite (activeCount_cons p ps).
    destruct (Packet.update p) as [[keep| e |] p']; simpl in *.
    + destruct (Packet.sweep ps) as [[kept'| e |] rest']; simpl in *;
        rewrite (activeCount_cons p' rest');
        (split; [lia|]); intros kept H; try discriminate.
      injection H as <-. specialize (IHk kept' eq_refl).
      destruct keep; [rewrite (activeCount_cons p' kept')|]; lia.
    + rewrite (activeCount_cons p' ps). split; [lia | discriminate].
    + rewrite (activeCount_cons p' ps). split; [lia | discriminate].
Qed.

Lemma accounted_generatePackets (fuel : nat) (intensity : float) (s : t) :
  accounted c s -> accounted c (snd (generatePackets Math_sin fuel intensity s)).
Proof.
  intro H.
  refine (sites_generatePackets Math_sin (keeps (accounted c)) (nodes s) c
            (keeps_refl _) (keeps_trans _) _ _ _ _ _ _
            fuel intensity s _ eq_refl H).
  - intros s0 r. apply accounted_same; reflexivity || apply N.le_refl.
  - intros _ a _. apply accounted_createPacket.
  - intros _ from to _.
    apply (accounted_send_schedule from _ _ _ (fun _ => Relay _ to _ _)).
    + right. reflexivity.
    + intro Hd. discriminate (Hd (Packet.mk 0 (Node.new 0 "" Node.server 0 0 0) None Packet.normal 0 0 0 0 true [])).
  - intros Hc cl _.
    apply (accounted_send_schedule (Some cl) _ _ _
             (fun packet => FirewallDecision (Packet.id packet) _ _ _ _)).
    + left. reflexivity.
    + intros _. exact Hc.
  - intros _ src tg _ _ _.
    apply (accounted_send_schedule (Some src) _ _ _
             (fun _ => Relay _ (Some tg) _ _)).
    + right. reflexivity.
    + intro Hd. discriminate (Hd (Packet.mk 0 (Node.new 0 "" Node.server 0 0 0) None Packet.normal 0 0 0 0 true [])).
  - intros _ tg _. apply accounted_createPacket.
  - apply H.
Qed.

Lemma accounted_updateMetrics (s : t) :
  accounted c s -> accounted c (snd (updateMetrics Math_sin s)).
Proof.
  intro H.
  refine (sites_updateMetrics Math_sin (keeps (accounted c)) c
            (keeps_refl _) (keeps_trans _) _ _ _ _ s _ H).
  - intros s0 r. apply accounted_same; reflexivity || apply N.le_refl.
  - intros n k lat _ s0.
    apply accounted_same; reflexivity || apply N.le_refl.
  - intros countable s0 i p _ _.
    apply accounted_same; reflexivity || apply N.le_refl.
  - intros Hc s0 i p r E Ha.
    unfold keeps, accounted, sent, dropped, blocked, pendingDecisions. simpl.
    pose proof (activeCount_deactivate (packets s0) i p E Ha) as Hd.
    intros [Hc' [H1 [H2 [H3 H4]]]].
    split; [exact Hc'|]. split; [lia|]. split; [lia|].
    split; [intro Hn; elim Hn; exact Hc | exact H4].
  - apply H.
Qed.

Lemma accounted_update (fuel : nat) (deltaTime speed intensity : float) :
  extends (keeps (accounted c))
    (update Math_sin fuel deltaTime speed intensity).
Proof.
  intros s Hs. unfold update. simpl.
  destruct (activeCount_sweep (packets s)) as [Ho Hk].
  destruct (Packet.sweep (packets s)) as [[kept| e |] objects]; simpl in *;
    try (revert Hs; apply accounted_same; reflexivity || assumption
                                          || apply N.le_refl).
  unfold bind.
  set (s1 := set_packets kept (set_time _ s)).
  assert (H1 : accounted c s1).
  { revert Hs. apply accounted_same; try reflexivity.
    apply Hk. reflexivity. }
  pose proof (accounted_generatePackets fuel intensity s1 H1) as Hg.
  destruct (generatePackets Math_sin fuel intensity s1) as [[[]| e |] s2];
    simpl in *; try exact Hg.
  apply accounted_updateMetrics, Hg.
Qed.

Lemma accounted_send source target type speed :
  extends (keeps (accounted c))
    (_ <- createPacket source target type speed ;; ret tt)%js.
Proof.
  apply extends_bind; [exact (keeps_trans _) | apply accounted_createPacket|].
  intros _. apply extends_ret. exact (keeps_refl _).
Qed.

Lemma accounted_forward (fw srv : option Node.t) (type : Packet.kind) :
  extends (keeps (accounted c))
    (match fw, srv with
     | Some _, Some _ => _ <- createPacket fw srv type 1.5 ;; ret tt
     | _, _ => ret tt
     end)%js.
Proof.
  destruct fw, srv; try (apply extends_ret; exact (keeps_refl _)).
  apply accounted_send.
Qed.

Lemma accounted_timer (fuel : nat) :
  extends (keeps (accounted c)) (step Math_sin fuel TimerFires).
Proof.
  intros s Hs. unfold step.
  destruct (timers s) as [|cb rest] eqn:Et; [exact Hs|].
  destruct cb as [from to type speed | pid isAttack packetType fw srv].
  - assert (H1 : accounted c (set_timers rest s)).
    { revert Hs. apply accounted_same; try reflexivity.
      unfold pendingDecisions. rewrite Et. simpl. lia. }
    unfold run_callback.
    destruct from, to; try exact H1.
    apply accounted_send, H1.
  - assert (Hfw : c = FirewallAttack).
    { destruct Hs as [_ [_ [_ [_ H4]]]].
      destruct c; try reflexivity;
        (assert (Hz : pendingDecisions s = 0%N) by (apply H4; discriminate));
        unfold pendingDecisions in Hz; rewrite Et in Hz; simpl in Hz; lia. }
    assert (Hpop : (pendingDecisions (set_timers rest s) + 1
                    = pendingDecisions s)%N).
    { unfold pendingDecisions. rewrite Et. cbn [filter is_decision length].
      simpl timers. lia. }
    assert (Hdec : forall r,
      let s1 := set_rng r (set_timers rest s) in
      accounted c
        (set_metrics (blocked_incr (metrics s1))
           (set_packets (block pid (packets s1)) s1))).
    { intros r s1. destruct Hs as [Hc [H1 [H2 [H3 H4]]]].
      unfold accounted, sent, dropped, blocked in *.
      pose proof (activeCount_block pid (packets s)) as Hb.
      assert (Hq : pendingDecisions
                     (set_metrics (blocked_incr (metrics s1))
                        (set_packets (block pid (packets s1)) s1))
                   = pendingDecisions (set_timers rest s)) by reflexivity.
      rewrite Hq. simpl.
      split; [exact Hc|]. split; [lia|]. split; [lia|]. split; [exact H3|].
      intro Hn. elim Hn. exact Hfw. }
    assert (Hfwd : forall r,
      accounted c (set_rng r (set_timers rest s))).
    { intro r. revert Hs. apply accounted_same; try reflexivity.
      change (pendingDecisions (set_rng r (set_timers rest s)))
        with (pendingDecisions (set_timers rest s)). lia. }
    unfold run_callback, bind at 1, get. unfold bind at 1.
    destruct isAttack.
    + unfold bind at 1, rng_next, on_rng. cbn [SeededRandom.next fst snd ret].
      destruct (_ <? _)%float.
      * unfold bind, modify, count, modify. cbn [fst snd]. apply Hdec.
      * apply accounted_forward, Hfwd.
    + unfold ret at 1.
      apply accounted_forward.
      revert Hs. apply accounted_same; try reflexivity.
      rewrite <- Hpop. lia.
Qed.

Lemma accounted_step (fuel : nat) (e : event) :
  extends (keeps (accounted c)) (step Math_sin fuel e).
Proof.
  destruct e as [deltaTime speed intensity|].
  - apply accounted_update.
  - apply accounted_timer.
Qed.

End Accounting.

Lemma reachable_accounted (Math_sin Math_cos : float -> float)
  (s : AttackSimulation.t) :
  reachable Math_sin Math_cos s -> accounted (AttackSimulation.class_of s) s.
Proof.
  induction 1 as [randoms name rng w h s log Hc | fuel e s _ IH].
  - unfold SimulationFactory.create in Hc.
    destruct (Scenario.SCENARIOS name) as [sc|]; [|discriminate].
    injection Hc as <- _.
    set (s0 := AttackSimulation.construct _ sc rng w h).
    destruct (initialize_packets_timers Math_sin Math_cos randoms s0)
      as [Hp Ht].
    destruct (initialize_metrics Math_sin Math_cos randoms s0) as [Hm _].
    unfold accounted, sent, dropped, blocked, pendingDecisions, activeCount.
    rewrite Hp, Ht, Hm. simpl.
    split; [reflexivity|]. split; [lia|]. split; [lia|].
    split; [reflexivity|]. split; reflexivity.
  - pose proof (same_setting_step Math_sin fuel e s) as [_ [Hc _]].
    unfold exec. rewrite Hc.
    apply accounted_step, IH.
Qed.

Section Traffic.

Import AttackSimulation.

Variables Math_sin Math_cos : float -> float.
Variable c : class.
Variable ns : list Node.t.

(** What the shape of a packet depends on. *)
Lemma shaped_fields (p q : Packet.t) :
  Packet.source q = Packet.source p -> Packet.target q = Packet.target p ->
  Packet.type q = Packet.type p -> Packet.speed q = Packet.speed p ->
  (Packet.active q = true -> Packet.active p = true) ->
  shaped c ns p -> shaped c ns q.
Proof.
  intros Hs Ht Hty Hv Ha. unfold shaped.
  destruct c; unfold shaped_DDoS, shaped_MITM, shaped_Firewall,
    shaped_ARPSpoof; rewrite Hs, Ht, Hty, Hv; try (intro H; exact H).
  intros [H1 [[H2 [H3 [H4|[H4 [H5 H6]]]]]|H2]]; split; try assumption.
  - left. split; [assumption|]. split; [assumption|]. left. assumption.
  - left. split; [assumption|]. split; [assumption|]. right.
    split; [assumption|]. split; [assumption|].
    destruct (Packet.active q); [|reflexivity].
    rewrite Ha in H6 by reflexivity. discriminate H6.
  - right. assumption.
Qed.

Lemma update_fields (p : Packet.t) :
  let q := snd (Packet.update p) in
  Packet.source q = Packet.source p /\ Packet.target q = Packet.target p
  /\ Packet.type q = Packet.type p /\ Packet.speed q = Packet.speed p
  /\ Packet.id q = Packet.id p.
Proof.
  cbv zeta. unfold Packet.update.
  destruct (negb (Packet.active p)); [repeat split|].
  destruct (1 <=? _)%float; [repeat split|]. simpl.
  destruct (Packet.target p) eqn:E; simpl; rewrite ?E; repeat split.
Qed.

Lemma shaped_update (p : Packet.t) :
  shaped c ns p -> shaped c ns (snd (Packet.update p)).
Proof.
  destruct (update_fields p) as [H1 [H2 [H3 [H4 _]]]].
  apply shaped_fields; try assumption. apply update_active_le.
Qed.

Lemma shaped_deactivated (p : Packet.t) :
  shaped c ns p -> shaped c ns (Packet.set_active false p).
Proof. apply shaped_fields; try reflexivity. discriminate. Qed.

(** The sweep keeps objects of the array, updated. *)
Lemma sweep_kept_from (ps : list Packet.t) :
  (forall q, In q (snd (Packet.sweep ps)) ->
             exists p, In p ps /\ q = snd (Packet.update p) \/ In q ps)
  /\ forall kept, fst (Packet.sweep ps) = Normal kept ->
       forall q, In q kept -> exists p, In p ps /\ q = snd (Packet.update p).
Proof.
  induction ps as [|p ps [IHo IHk]]; simpl.
  - split; [intros q []|]. intros kept H. injection H as <-. intros q [].
  - destruct (Packet.update p) as [[keep| e |] p'] eqn:Eu; simpl.
    + assert (Hp' : p' = snd (Packet.update p)) by (rewrite Eu; reflexivity).
      destruct (Packet.sweep ps) as [[kept'| e |] rest']; simpl in *.
      * split.
        -- intros q [<-|Hq].
           ++ exists p. left. split; [left; reflexivity | exact Hp'].
           ++ destruct (IHo q Hq) as [x [[Hx E]|Hx]]; exists x;
                [left; split; [right; exact Hx | exact E] | right; right; exact Hx].
        -- intros kept H. injection H as <-. intros q Hq.
           assert (Hq' : q = p' \/ In q kept').
           { destruct keep; [destruct Hq as [<-|Hq]; auto | auto]. }
           destruct Hq' as [->|Hq'].
           ++ exists p. split; [left; reflexivity | exact Hp'].
           ++ destruct (IHk kept' eq_refl q Hq') as [x [Hx E]].
              exists x. split; [right; exact Hx | exact E].
      * split; [|discriminate].
        intros q [<-|Hq].
        -- exists p. left. split; [left; reflexivity | exact Hp'].
        -- destruct (IHo q Hq) as [x [[Hx E]|Hx]]; exists x;
             [left; split; [right; exact Hx | exact E] | right; right; exact Hx].
      * split; [|discriminate].
        intros q [<-|Hq].
        -- exists p. left. split; [left; reflexivity | exact Hp'].
        -- destruct (IHo q Hq) as [x [[Hx E]|Hx]]; exists x;
             [left; split; [right; exact Hx | exact E] | right; right; exact Hx].
    + assert (Hp' : p' = snd (Packet.update p)) by (rewrite Eu; reflexivity).
      split; [|discriminate].
      intros q [<-|Hq].
      * exists p. left. split; [left; reflexivity | exact Hp'].
      * exists q. right. right. exact Hq.
    + assert (Hp' : p' = snd (Packet.update p)) by (rewrite Eu; reflexivity).
      split; [|discriminate].
      intros q [<-|Hq].
      * exists p. left. split; [left; reflexivity | exact Hp'].
      * exists q. right. right. exact Hq.
Qed.


(** A state whose packets are packets of [s] with the same id, source and
    target, each still of its shape, and that has the timers and the
    counter of [s]. *)
Lemma traffic_derived (s s' : t) :
  class_of s' = class_of s -> nodes s' = nodes s ->
  timers s' = timers s -> packetIdCounter s' = packetIdCounter s ->
  (forall q, In q (packets s') ->
     exists p, In p (packets s)
               /\ Packet.id q = Packet.id p
               /\ Packet.source q = Packet.source p
               /\ Packet.target q = Packet.target p
               /\ (shaped c ns p -> shaped c ns q)) ->
  keeps (traffic c ns) s s'.
Proof.
  intros Hc Hn Ht Hk Hq [H1 [H2 [H3 [H4 [H5 H6]]]]].
  unfold traffic. rewrite Hc, Hn, Ht, Hk.
  split; [exact H1|]. split; [exact H2|].
  rewrite Forall_forall in H3, H5.
  split; [|split; [exact H4|split]].
  - apply Forall_forall. intros q Hin.
    destruct (Hq q Hin) as [p [Hp [_ [_ [_ Hs]]]]]. apply Hs, H3, Hp.
  - apply Forall_forall. intros q Hin.
    destruct (Hq q Hin) as [p [Hp [Hid _]]]. rewrite Hid. apply H5, Hp.
  - eapply Forall_impl; [|exact H6].
    intros [from to type speed | pid isAttack type fw srv]; simpl;
      [trivial|].
    intros [Hlt Hnames]. split; [exact Hlt|].
    intros q Hin Hid.
    destruct (Hq q Hin) as [p [Hp [Hid' [Hsrc [Htg _]]]]].
    rewrite Hsrc, Htg. apply Hnames; [exact Hp | congruence].
Qed.

Lemma traffic_same (s s' : t) :
  class_of s' = class_of s -> nodes s' = nodes s ->
  timers s' = timers s -> packetIdCounter s' = packetIdCounter s ->
  packets s' = packets s ->
  keeps (traffic c ns) s s'.
Proof.
  intros Hc Hn Ht Hk Hp. apply traffic_derived; try assumption.
  rewrite Hp. intros q Hq. exists q. repeat split; auto.
Qed.

Lemma In_map_at (A : Type) (f : A -> A) (i : nat) (l : list A) (y : A) :
  In y (map_at i f l) -> exists x, In x l /\ (y = x \/ y = f x).
Proof.
  revert i. induction l as [|a l IH]; intros i H.
  - destruct i; destruct H.
  - destruct i; simpl in H.
    + destruct H as [Hy|H].
      * exists a. split; [left; reflexivity | right; symmetry; exact Hy].
      * exists y. split; [right; exact H | left; reflexivity].
    + destruct H as [Hy|H].
      * exists a. split; [left; reflexivity | left; symmetry; exact Hy].
      * destruct (IH i H) as [x [Hx E]]. exists x.
        split; [right; exact Hx | exact E].
Qed.

Lemma traffic_deactivate (s : t) (i : nat) (r : SeededRandom.t) :
  keeps (traffic c ns) s
    (set_metrics (dropped_incr (metrics s))
       (set_packets (map_at i (Packet.set_active false) (packets s))
          (set_rng r s))).
Proof.
  apply traffic_derived; try reflexivity.
  simpl. intros q Hq. apply In_map_at in Hq.
  destruct Hq as [p [Hp [->| ->]]]; exists p; repeat split; auto.
  apply shaped_deactivated.
Qed.

Lemma traffic_swept (s : t) (v : float) :
  traffic c ns s ->
  traffic c ns (set_packets (snd (Packet.sweep (packets s))) (set_time v s))
  /\ forall kept, fst (Packet.sweep (packets s)) = Normal kept ->
       traffic c ns (set_packets kept (set_time v s)).
Proof.
  intro H. destruct (sweep_kept_from (packets s)) as [Ho Hk]. split.
  - revert H. apply traffic_derived; try reflexivity.
    simpl. intros q Hq. destruct (Ho q Hq) as [p [[Hp ->]|Hp]].
    + exists p. destruct (update_fields p) as [H1 [H2 [_ [_ H5]]]].
      repeat split; auto. apply shaped_update.
    + exists q. repeat split; auto.
  - intros kept E. revert H. apply traffic_derived; try reflexivity.
    simpl. intros q Hq. destruct (Hk kept E q Hq) as [p [Hp ->]].
    exists p. destruct (update_fields p) as [H1 [H2 [_ [_ H5]]]].
    repeat split; auto. apply shaped_update.
Qed.

(** A packet created at a site of the scenario. *)
Lemma traffic_createPacket source target type speed :
  (forall id p, Packet.new id source target type speed = Normal p ->
                shaped c ns p) ->
  extends (keeps (traffic c ns)) (createPacket source target type speed).
Proof.
  intros Hnew s. unfold createPacket.
  destruct (Packet.new (packetIdCounter s) source target type speed)
    as [p| e |] eqn:E.
  - intros [H1 [H2 [H3 [H4 [H5 H6]]]]].
    assert (Hid : Packet.id p = packetIdCounter s).
    { unfold Packet.new in E. destruct source; [|discriminate].
      injection E as <-. reflexivity. }
    unfold traffic. simpl.
    split; [exact H1|]. split; [exact H2|].
    split; [|split; [exact H4|split]].
    + apply Forall_app. split; [exact H3|].
      constructor; [|constructor]. eapply Hnew, E.
    + apply Forall_app. split.
      * eapply Forall_impl; [|exact H5]. simpl. intros; lia.
      * constructor; [lia | constructor].
    + eapply Forall_impl; [|exact H6].
      intros [from to ty v | pid isAttack ty fw srv]; simpl; [trivial|].
      intros [Hlt Hnames]. split; [lia|].
      intros q Hin Hq. apply in_app_iff in Hin.
      destruct Hin as [Hin|[<-|[]]]; [apply Hnames; assumption|].
      lia.
  - intros [H1 [H2 [H3 [H4 [H5 H6]]]]].
    unfold traffic. simpl.
    split; [exact H1|]. split; [exact H2|].
    split; [exact H3|]. split; [exact H4|]. split.
    + eapply Forall_impl; [|exact H5]. simpl. intros; lia.
    + eapply Forall_impl; [|exact H6].
      intros [from to ty v | pid isAttack ty fw srv]; simpl; [trivial|].
      intros [Hlt Hnames]. split; [lia | exact Hnames].
  - discriminate || (unfold Packet.new in E; destruct source; discriminate E).
Qed.

Lemma traffic_relay (cb : callback) :
  is_decision cb = false -> scheduled c ns cb ->
  extends (keeps (traffic c ns)) (setTimeout cb).
Proof.
  intros Hd Hcb s [H1 [H2 [H3 [H4 [H5 H6]]]]].
  unfold traffic. simpl.
  split; [exact H1|]. split; [exact H2|]. split; [exact H3|].
  split; [|split; [exact H5|]].
  - apply Forall_app. split; [exact H4|]. constructor; [exact Hcb|constructor].
  - apply Forall_app. split; [exact H6|]. constructor; [|constructor].
    destruct cb; [exact I | discriminate Hd].
Qed.


Lemma new_fields (id : N) (source target : option Node.t)
  (type : Packet.kind) (speed : float) (p : Packet.t) :
  Packet.new id source target type speed = Normal p ->
  source = Some (Packet.source p) /\ Packet.target p = target
  /\ Packet.type p = type /\ Packet.speed p = speed
  /\ Packet.id p = id /\ Packet.active p = true.
Proof.
  unfold Packet.new. destruct source; [|discriminate].
  intro H. injection H as <-. repeat split.
Qed.

Lemma traffic_send_relay source target type speed (cb : callback) :
  (forall id p, Packet.new id source target type speed = Normal p ->
                shaped c ns p) ->
  is_decision cb = false -> scheduled c ns cb ->
  extends (keeps (traffic c ns))
    (_ <- createPacket source target type speed ;; setTimeout cb)%js.
Proof.
  intros Hnew Hd Hcb.
  apply extends_bind; [exact (keeps_trans _)| |].
  - apply traffic_createPacket, Hnew.
  - intros _. apply traffic_relay; assumption.
Qed.

(** The firewall site: the decision scheduled captures the packet just
    sent. *)
Lemma traffic_send_decide (cl : Node.t) :
  c = FirewallAttack -> In cl (firewall_sources ns) ->
  extends (keeps (traffic c ns))
    (packet <- createPacket (Some cl) (Node.find_id "firewall" ns)
                 (firewall_packetType cl) 1.5 ;;
     setTimeout
       (FirewallDecision (Packet.id packet) (is_attacker cl)
          (firewall_packetType cl) (Node.find_id "firewall" ns)
          (Node.find_id "server" ns)))%js.
Proof.
  intros Hc Hcl s Hs.
  assert (Hshape : forall id p,
    Packet.new id (Some cl) (Node.find_id "firewall" ns)
      (firewall_packetType cl) 1.5 = Normal p -> shaped c ns p).
  { intros id p E. apply new_fields in E.
    destruct E as [Hsrc [Htg [Hty [Hv _]]]]. injection Hsrc as Hsrc.
    rewrite Hc. unfold shaped, shaped_Firewall.
    rewrite <- Hsrc, Htg, Hty, Hv.
    split; [reflexivity|]. left. split; [exact Hcl|].
    split; [reflexivity|]. left. reflexivity. }
  pose proof (traffic_createPacket _ _ _ _ Hshape s Hs) as H2.
  destruct Hs as [_ [_ [_ [_ [Hids _]]]]].
  unfold bind, createPacket, Packet.new in *. cbn [fst snd] in *.
  set (p := Packet.mk _ _ _ _ _ _ _ _ _ _) in *.
  set (s2 := set_metrics _ _) in *.
  destruct H2 as [H1 [H2 [H3 [H4 [H5 H6]]]]].
  unfold setTimeout, modify, traffic. cbn [fst snd].
  change (class_of (set_timers _ s2)) with (class_of s2).
  change (nodes (set_timers _ s2)) with (nodes s2).
  change (packets (set_timers _ s2)) with (packets s2).
  change (packetIdCounter (set_timers _ s2)) with (packetIdCounter s2).
  split; [exact H1|]. split; [exact H2|]. split; [exact H3|].
  split; [|split; [exact H5|]].
  - apply Forall_app. split; [exact H4|]. constructor; [|constructor].
    rewrite Hc. simpl. unfold firewall_packetType.
    split; [reflexivity|]. split; reflexivity.
  - apply Forall_app. split; [exact H6|]. constructor; [|constructor].
    simpl. split; [lia|].
    intros q Hin Hq. apply in_app_iff in Hin.
    destruct Hin as [Hin|[<-|[]]].
    + rewrite Forall_forall in Hids. specialize (Hids q Hin). lia.
    + simpl. split; [exact Hcl|]. split; reflexivity.
Qed.

Lemma traffic_generatePackets (fuel : nat) (intensity : float) (s : t) :
  traffic c ns s ->
  traffic c ns (snd (generatePackets Math_sin fuel intensity s)).
Proof.
  intro H. pose proof H as [Hc [Hn _]].
  refine (sites_generatePackets Math_sin (keeps (traffic c ns)) ns c
            (keeps_refl _) (keeps_trans _) _ _ _ _ _ _
            fuel intensity s Hc Hn H).
  - intros s0 r. apply traffic_same; reflexivity.
  - intros E a Ha.
    apply traffic_createPacket. intros id p En. apply new_fields in En.
    destruct En as [Hsrc [Htg [Hty [Hv _]]]].
    rewrite E. unfold shaped, shaped_DDoS.
    split; [exact Hty|]. split; [exact Hv|].
    split; [apply Ha, Hsrc | exact Htg].
  - intros E from to Hft.
    apply traffic_send_relay; [|reflexivity|].
    + intros id p En. apply new_fields in En.
      destruct En as [Hsrc [Htg [Hty [Hv _]]]].
      rewrite E. unfold shaped, shaped_MITM.
      split; [exact Hv|]. left. split; [exact Hty|]. split; [exact Htg|].
      rewrite <- Hsrc. destruct Hft as [[-> _]|[-> _]]; auto.
    + rewrite E. simpl. split; [reflexivity|].
      split; [|split; reflexivity].
      destruct Hft as [[_ ->]|[_ ->]]; auto.
  - intros E cl Hcl. apply traffic_send_decide; assumption.
  - intros E src tg Hsrc Htg Hne.
    apply traffic_send_relay; [|reflexivity|].
    + intros id p En. apply new_fields in En.
      destruct En as [Hs [Ht [Hty [Hv _]]]]. injection Hs as Hs.
      rewrite E. unfold shaped, shaped_ARPSpoof. left.
      split; [exact Hty|]. split; [exact Hv|].
      split; [rewrite <- Hs; exact Hsrc | exact Ht].
    + rewrite E. simpl. split; [reflexivity|].
      split; [|split; reflexivity].
      exists tg. split; [reflexivity | exact Htg].
  - intros E tg Htg.
    apply traffic_createPacket. intros id p En. apply new_fields in En.
    destruct En as [Hs [Ht [Hty [Hv _]]]].
    rewrite E. unfold shaped, shaped_ARPSpoof. right.
    split; [exact Hty|]. split; [right; exact Hv|].
    split; [symmetry; exact Hs|].
    rewrite Ht. exact Htg.
Qed.

Lemma traffic_updateMetrics (s : t) :
  traffic c ns s -> traffic c ns (snd (updateMetrics Math_sin s)).
Proof.
  intro H. pose proof H as [Hc _].
  refine (sites_updateMetrics Math_sin (keeps (traffic c ns)) c
            (keeps_refl _) (keeps_trans _) _ _ _ _ s Hc H).
  - intros s0 r. apply traffic_same; reflexivity.
  - intros n k lat _ s0. apply traffic_same; reflexivity.
  - intros countable s0 i p _ _. apply traffic_same; reflexivity.
  - intros _ s0 i p r _ _. apply traffic_deactivate.
Qed.

Lemma traffic_update (fuel : nat) (deltaTime speed intensity : float) :
  extends (keeps (traffic c ns))
    (update Math_sin fuel deltaTime speed intensity).
Proof.
  intros s Hs. unfold update.
  destruct (traffic_swept s (time s + deltaTime * speed)%float Hs)
    as [Ho Hk].
  change (packets (set_time (time s + deltaTime * speed)%float s))
    with (packets s).
  destruct (Packet.sweep (packets s)) as [[kept| e |] objects];
    cbn [fst snd] in *; try exact Ho.
  specialize (Hk kept eq_refl). unfold bind.
  pose proof (traffic_generatePackets fuel intensity _ Hk) as Hg.
  destruct (generatePackets Math_sin fuel intensity _) as [[[]| e |] s2];
    cbn [fst snd] in *; try exact Hg.
  apply traffic_updateMetrics, Hg.
Qed.

Lemma traffic_pop (s : t) (cb : callback) (rest : list callback) :
  timers s = cb :: rest -> traffic c ns s ->
  traffic c ns (set_timers rest s)
  /\ scheduled c ns cb
  /\ decision_names ns (packets s) (packetIdCounter s) cb.
Proof.
  intros Et [H1 [H2 [H3 [H4 [H5 H6]]]]]. rewrite Et in H4, H6.
  split; [|split; [exact (Forall_inv H4) | exact (Forall_inv H6)]].
  unfold traffic. simpl.
  repeat (split; [assumption|]).
  split; [exact (Forall_inv_tail H4)|].
  split; [exact H5 | exact (Forall_inv_tail H6)].
Qed.

Lemma In_block (pid : N) (ps : list Packet.t) (q : Packet.t) :
  In q (block pid ps) ->
  exists p, In p ps
            /\ (q = p
                \/ (Packet.id p = pid
                    /\ q = Packet.set_active false
                             (Packet.set_type Packet.blocked p))).
Proof.
  unfold block. intro H. apply in_map_iff in H.
  destruct H as [p [E Hp]]. exists p. split; [exact Hp|].
  destruct (Packet.id p =? pid)%N eqn:Eid.
  - right. split; [apply N.eqb_eq, Eid | symmetry; exact E].
  - left. symmetry. exact E.
Qed.

Lemma traffic_timer (fuel : nat) :
  extends (keeps (traffic c ns)) (step Math_sin fuel TimerFires).
Proof.
  intros s Hs. unfold step.
  destruct (timers s) as [|cb rest] eqn:Et; [exact Hs|].
  destruct (traffic_pop s cb rest Et Hs) as [H1 [Hcb Hnames]].
  destruct cb as [from to type speed | pid isAttack packetType fw srv].
  - unfold run_callback.
    destruct from as [from|], to as [to|]; try exact H1.
    apply (extends_bind (keeps (traffic c ns)) (keeps_trans _));
      [|intros _; apply extends_ret; exact (keeps_refl _) | exact H1].
    apply traffic_createPacket. intros id p En. apply new_fields in En.
    destruct En as [Hsrc [Htg [Hty [Hv _]]]].
    unfold scheduled in Hcb. unfold shaped.
    destruct c; try contradiction.
    + destruct Hcb as [Hf [Hto [-> ->]]]. unfold shaped_MITM.
      split; [exact Hv|]. right. split; [exact Hty|].
      split; [congruence|]. rewrite Htg. exact Hto.
    + destruct Hcb as [Hf [[tg [Hto Hin]] [-> ->]]]. unfold shaped_ARPSpoof.
      right. split; [exact Hty|]. split; [left; exact Hv|].
      split; [congruence|].
      intros x Hx. rewrite Htg, Hto in Hx. injection Hx as <-. exact Hin.
  - assert (Hfw : c = FirewallAttack).
    { unfold scheduled in Hcb. destruct c; try contradiction. reflexivity. }
    assert (Hcb' : packetType = (if isAttack then Packet.attack
                                 else Packet.normal)
                   /\ fw = Node.find_id "firewall" ns
                   /\ srv = Node.find_id "server" ns).
    { unfold scheduled in Hcb. rewrite Hfw in Hcb. exact Hcb. }
    destruct Hcb' as [Hty [Hf Hsrv]].
    assert (Hforward : extends (keeps (traffic c ns))
      (match fw, srv with
       | Some _, Some _ => _ <- createPacket fw srv packetType 1.5 ;; ret tt
       | _, _ => ret tt
       end)%js).
    { destruct fw as [f|], srv as [sv|];
        try (apply extends_ret; exact (keeps_refl _)).
      apply (extends_bind (keeps (traffic c ns)) (keeps_trans _));
        [|intros _; apply extends_ret; exact (keeps_refl _)].
      apply traffic_createPacket. intros id p En. apply new_fields in En.
      destruct En as [Hs0 [Htg [Hpty [Hv _]]]].
      rewrite Hfw. unfold shaped, shaped_Firewall.
      split; [exact Hv|]. right.
      split; [congruence|]. split; [congruence|].
      rewrite Hpty, Hty. destruct isAttack; auto. }
    unfold run_callback, bind at 1, get. unfold bind at 1.
    destruct isAttack.
    + unfold bind at 1, rng_next, on_rng.
      cbn [SeededRandom.next fst snd ret].
      set (r := SeededRandom.mk _ _).
      assert (Hr : traffic c ns (set_rng r (set_timers rest s))).
      { revert H1. apply traffic_same; reflexivity. }
      destruct (_ <? _)%float.
      * unfold bind, modify, count, modify. cbn [fst snd].
        revert Hr. apply traffic_derived; try reflexivity.
        intros q Hq. apply In_block in Hq.
        destruct Hq as [p [Hp [->|[Hid ->]]]];
          exists p; repeat split; auto.
        intros Hshape. destruct Hnames as [_ Hnames].
        destruct (Hnames p Hp Hid) as [Hsrc [Hatt Htg]].
        rewrite Hfw in *. unfold shaped, shaped_Firewall in *.
        destruct Hshape as [Hv _]. simpl.
        split; [exact Hv|]. left. split; [exact Hsrc|].
        split; [exact Htg|]. right. repeat split. exact Hatt.
      * apply Hforward, Hr.
    + unfold ret at 1. apply Hforward, H1.
Qed.

Lemma traffic_step (fuel : nat) (e : event) :
  extends (keeps (traffic c ns)) (step Math_sin fuel e).
Proof.
  destruct e as [deltaTime speed intensity|].
  - apply traffic_update.
  - apply traffic_timer.
Qed.

End Traffic.

Lemma reachable_traffic (Math_sin Math_cos : float -> float)
  (s : AttackSimulation.t) :
  reachable Math_sin Math_cos s ->
  traffic (AttackSimulation.class_of s) (AttackSimulation.nodes s) s.
Proof.
  induction 1 as [randoms name rng w h s log Hc | fuel e s _ IH].
  - unfold SimulationFactory.create in Hc.
    destruct (Scenario.SCENARIOS name) as [sc|]; [|discriminate].
    injection Hc as <- _.
    set (s0 := AttackSimulation.construct _ sc rng w h).
    destruct (initialize_packets_timers Math_sin Math_cos randoms s0)
      as [Hp Ht].
    unfold traffic. rewrite Hp, Ht. simpl.
    repeat (split; [reflexivity || constructor|]). constructor.
  - pose proof (same_setting_step Math_sin fuel e s) as [Hn [Hc _]].
    unfold exec. rewrite Hc, Hn.
    apply traffic_step, IH.
Qed.

Section Load.

Import AttackSimulation.

Variables Math_sin Math_cos : float -> float.

Lemma load_bounded_same (s s' : t) :
  serverLoad (metrics s') = serverLoad (metrics s) ->
  keeps load_bounded s s'.
Proof. unfold keeps, load_bounded. intros ->. auto. Qed.

Lemma load_bounded_createPacket source target type speed :
  extends (keeps load_bounded) (createPacket source target type speed).
Proof.
  intro s. unfold createPacket.
  destruct (Packet.new _ source target type speed);
    apply load_bounded_same; reflexivity.
Qed.

Lemma load_bounded_step (fuel : nat) (e : event) :
  extends (keeps load_bounded) (step Math_sin fuel e).
Proof.
  destruct e as [deltaTime speed intensity|]; simpl.
  - intros s Hs. unfold update. simpl.
    destruct (Packet.sweep (packets s)) as [[kept| e |] objects];
      cbn [fst snd]; try exact Hs.
    unfold bind.
    set (s1 := set_packets kept (set_time _ s)).
    assert (Hg : load_bounded (snd (generatePackets Math_sin fuel intensity s1))).
    { apply (extends_generatePackets Math_sin (keeps load_bounded)
               (fun _ => True)); try exact I.
      - exact (keeps_refl load_bounded).
      - exact (keeps_trans load_bounded).
      - intros s0 r. apply load_bounded_same; reflexivity.
      - intros. apply load_bounded_createPacket.
      - intros cb _ s0. apply load_bounded_same; reflexivity.
      - exact Hs. }
    destruct (generatePackets Math_sin fuel intensity s1) as [[[]| e |] s2];
      cbn [fst snd] in *; try exact Hg.
    refine (sites_updateMetrics Math_sin (keeps load_bounded) (class_of s2)
              (keeps_refl _) (keeps_trans _) _ _ _ _ s2 eq_refl Hg).
    + intros s0 r. apply load_bounded_same; reflexivity.
    + intros n k lat Hk s0 _. apply (load_percentage n k Hk).
    + intros countable s0 i p _ _. apply load_bounded_same; reflexivity.
    + intros _ s0 i p r _ _. apply load_bounded_same; reflexivity.
  - intros s Hs. destruct (timers s) as [|cb rest]; simpl; [exact Hs|].
    apply (extends_run_callback Math_sin (keeps load_bounded)
             (fun _ => True)); try exact I.
    + exact (keeps_refl load_bounded).
    + exact (keeps_trans load_bounded).
    + intros s0 r. apply load_bounded_same; reflexivity.
    + intros. apply load_bounded_createPacket.
    + intros s0 pid. apply load_bounded_same; reflexivity.
    + intro s0. apply load_bounded_same; reflexivity.
    + destruct cb; exact I.
    + exact Hs.
Qed.

Lemma reachable_load_bounded (s : t) :
  reachable Math_sin Math_cos s -> load_bounded s.
Proof.
  induction 1 as [randoms name rng w h s log Hc | fuel e s _ IH].
  - unfold SimulationFactory.create in Hc.
    destruct (Scenario.SCENARIOS name) as [sc|]; [|discriminate].
    injection Hc as <- _.
    destruct (initialize_metrics Math_sin Math_cos randoms
                (construct (SimulationFactory.class_for name) sc rng w h))
      as [Hm _].
    unfold load_bounded. rewrite Hm. split; reflexivity.
  - apply load_bounded_step, IH.
Qed.

End Load.

(** ** Reference runs *)

Lemma reference_mitm_reachable :
  reachable Reference.Math_sin Reference.Math_cos ReferenceRuns.mitm_relayed.
Proof.
  apply reachable_run.
  apply (reachable_create Reference.Math_sin Reference.Math_cos
           Reference.randoms "mitm" (SeededRandom.new 12345%float)
           800%float 600%float ReferenceRuns.mitm []).
  reflexivity.
Defined.

Lemma reference_firewall_reachable :
  reachable ReferenceRuns.Math_sin_firewall Reference.Math_cos
    ReferenceRuns.firewall_blocked.
Proof.
  apply reachable_run.
  apply (reachable_create ReferenceRuns.Math_sin_firewall Reference.Math_cos
           Reference.randoms "firewall" (SeededRandom.new 12345%float)
           800%float 600%float ReferenceRuns.firewall []).
  reflexivity.
Defined.

Lemma reference_arpSpoof_reachable :
  reachable Reference.Math_sin Reference.Math_cos
    ReferenceRuns.arpSpoof_relayed.
Proof.
  apply reachable_run.
  apply (reachable_create Reference.Math_sin Reference.Math_cos
           Reference.randoms "arpSpoof" (SeededRandom.new 12345%float)
           800%float 600%float ReferenceRuns.arpSpoof []).
  reflexivity.
Defined.

(** X3. The trail of a live packet never holds more than 10 points, in any
    state a simulation returned by the factory can reach. *)
Theorem live_trails_hold_at_most_ten (Math_sin Math_cos : float -> float)
  (s : AttackSimulation.t) :
  reachable Math_sin Math_cos s ->
  Forall (fun p => (length (Packet.trail p) <= 10)%nat)
    (AttackSimulation.packets s).
Proof. apply reachable_trails_bounded. Qed.

(** After 15 frames the trail of the packet in flight is full. *)
Lemma live_trails_hold_at_most_ten_witness :
  reachable Reference.Math_sin Reference.Math_cos (Reference.ddos_after 15)
  /\ map (fun p => length (Packet.trail p))
       (AttackSimulation.packets (Reference.ddos_after 15)) = [10%nat]
  /\ Forall (fun p => (length (Packet.trail p) <= 10)%nat)
       (AttackSimulation.packets (Reference.ddos_after 15)).
Proof.
  split; [apply reference_ddos_reachable|].
  split; [vm_compute; reflexivity|].
  apply (live_trails_hold_at_most_ten Reference.Math_sin Reference.Math_cos
           (Reference.ddos_after 15) (reference_ddos_reachable 15)).
Defined.

(** X4. Only a DDoS simulation drops packets and only a firewall simulation
    blocks them: in every reachable state of another subclass
    [packetsDropped], respectively [packetsBlocked], is 0. *)
Theorem only_ddos_drops_only_firewall_blocks
  (Math_sin Math_cos : float -> float) (s : AttackSimulation.t) :
  reachable Math_sin Math_cos s ->
  (AttackSimulation.class_of s <> AttackSimulation.DDoSAttack ->
   AttackSimulation.packetsDropped (AttackSimulation.getMetrics s) = 0%N)
  /\ (AttackSimulation.class_of s <> AttackSimulation.FirewallAttack ->
      AttackSimulation.packetsBlocked (AttackSimulation.getMetrics s) = 0%N).
Proof.
  intro H. destruct (reachable_accounted Math_sin Math_cos s H)
    as [_ [_ [_ [Hd Hb]]]].
  split; [exact Hd|]. intro Hc. apply Hb, Hc.
Qed.

Lemma only_ddos_drops_only_firewall_blocks_witness :
  reachable Reference.Math_sin Reference.Math_cos ReferenceRuns.mitm_relayed
  /\ (AttackSimulation.class_of ReferenceRuns.mitm_relayed
      <> AttackSimulation.DDoSAttack ->
      AttackSimulation.packetsDropped
        (AttackSimulation.getMetrics ReferenceRuns.mitm_relayed) = 0%N)
  /\ (AttackSimulation.class_of ReferenceRuns.mitm_relayed
      <> AttackSimulation.FirewallAttack ->
      AttackSimulation.packetsBlocked
        (AttackSimulation.getMetrics ReferenceRuns.mitm_relayed) = 0%N).
Proof.
  split; [apply reference_mitm_reachable|].
  apply (only_ddos_drops_only_firewall_blocks Reference.Math_sin
           Reference.Math_cos ReferenceRuns.mitm_relayed
           reference_mitm_reachable).
Defined.

(** X5. In every reachable state the outcome counters stay within what was
    sent: [packetsReceived + packetsDropped + packetsBlocked <=
    packetsSent], and [packetsDropped] plus the number of live active
    packets is at most [packetsSent]. *)
Theorem outcome_counters_within_sent (Math_sin Math_cos : float -> float)
  (s : AttackSimulation.t) :
  reachable Math_sin Math_cos s ->
  let m := AttackSimulation.getMetrics s in
  (AttackSimulation.packetsReceived m + AttackSimulation.packetsDropped m
   + AttackSimulation.packetsBlocked m <= AttackSimulation.packetsSent m)%N
  /\ (AttackSimulation.packetsDropped m
      + N.of_nat (length (filter Packet.active (AttackSimulation.packets s)))
      <= AttackSimulation.packetsSent m)%N.
Proof.
  intros H m.
  pose proof (reachable_received Math_sin Math_cos s H) as Hr.
  destruct (reachable_accounted Math_sin Math_cos s H)
    as [_ [H1 [H2 [Hd Hb]]]].
  unfold sent, dropped, blocked, activeCount, pendingDecisions in *.
  unfold m, AttackSimulation.getMetrics. rewrite Hr. split; [|exact H1].
  destruct (AttackSimulation.class_of s) eqn:E.
  - destruct Hb as [Hb _]; [discriminate|]. lia.
  - rewrite Hd by discriminate. lia.
  - rewrite Hd by discriminate. lia.
  - rewrite Hd by discriminate. lia.
Qed.

(** In the firewall run both sides are 1: one packet sent, one blocked. *)
Lemma outcome_counters_within_sent_witness :
  reachable ReferenceRuns.Math_sin_firewall Reference.Math_cos
    ReferenceRuns.firewall_blocked
  /\ (let m := AttackSimulation.getMetrics ReferenceRuns.firewall_blocked in
      (AttackSimulation.packetsReceived m + AttackSimulation.packetsDropped m
       + AttackSimulation.packetsBlocked m
       <= AttackSimulation.packetsSent m)%N
      /\ (AttackSimulation.packetsDropped m
          + N.of_nat
              (length (filter Packet.active
                         (AttackSimulation.packets
                            ReferenceRuns.firewall_blocked)))
          <= AttackSimulation.packetsSent m)%N).
Proof.
  split; [apply reference_firewall_reachable|].
  apply (outcome_counters_within_sent ReferenceRuns.Math_sin_firewall
           Reference.Math_cos ReferenceRuns.firewall_blocked
           reference_firewall_reachable).
Defined.

(** X6. In every reachable state the ids of the live packets are pairwise
    distinct and below [packetIdCounter]: an id names one packet. *)
Theorem live_packet_ids_are_distinct (Math_sin Math_cos : float -> float)
  (s : AttackSimulation.t) :
  reachable Math_sin Math_cos s ->
  NoDup (map Packet.id (AttackSimulation.packets s))
  /\ Forall (fun p => (Packet.id p < AttackSimulation.packetIdCounter s)%N)
       (AttackSimulation.packets s).
Proof. apply reachable_ids_distinct. Qed.

Lemma live_packet_ids_are_distinct_witness :
  reachable Reference.Math_sin Reference.Math_cos ReferenceRuns.mitm_relayed
  /\ map Packet.id (AttackSimulation.packets ReferenceRuns.mitm_relayed)
     = [0%N; 1%N]
  /\ NoDup (map Packet.id (AttackSimulation.packets ReferenceRuns.mitm_relayed))
  /\ Forall
       (fun p =>
          (Packet.id p
           < AttackSimulation.packetIdCounter ReferenceRuns.mitm_relayed)%N)
       (AttackSimulation.packets ReferenceRuns.mitm_relayed).
Proof.
  split; [apply reference_mitm_reachable|].
  split; [vm_compute; reflexivity|].
  apply (live_packet_ids_are_distinct Reference.Math_sin Reference.Math_cos
           ReferenceRuns.mitm_relayed reference_mitm_reachable).
Defined.

(** X7. [serverLoad] is a percentage in every reachable state:
    [0 <= serverLoad] and [serverLoad <= 100] both hold, so it is never
    [NaN] either. *)
Theorem serverLoad_is_a_percentage (Math_sin Math_cos : float -> float)
  (s : AttackSimulation.t) :
  reachable Math_sin Math_cos s ->
  let load := AttackSimulation.serverLoad (AttackSimulation.getMetrics s) in
  (0 <=? load)%float = true /\ (load <=? 100)%float = true.
Proof. apply reachable_load_bounded. Qed.

Lemma serverLoad_is_a_percentage_witness :
  reachable Reference.Math_sin Reference.Math_cos ReferenceRuns.mitm_relayed
  /\ AttackSimulation.serverLoad
       (AttackSimulation.getMetrics ReferenceRuns.mitm_relayed) = 5%float
  /\ (let load :=
        AttackSimulation.serverLoad
          (AttackSimulation.getMetrics ReferenceRuns.mitm_relayed) in
      (0 <=? load)%float = true /\ (load <=? 100)%float = true).
Proof.
  split; [apply reference_mitm_reachable|].
  split; [vm_compute; reflexivity|].
  apply (serverLoad_is_a_percentage Reference.Math_sin Reference.Math_cos
           ReferenceRuns.mitm_relayed reference_mitm_reachable).
Defined.

(** ** The shape of the traffic *)

Lemma reachable_shaped (Math_sin Math_cos : float -> float)
  (s : AttackSimulation.t) :
  reachable Math_sin Math_cos s ->
  Forall (shaped (AttackSimulation.class_of s) (AttackSimulation.nodes s))
    (AttackSimulation.packets s).
Proof.
  intro H. apply (reachable_traffic Math_sin Math_cos s H).
Qed.

(** X8. In a DDoS simulation every live packet is an ['attack'] packet of
    speed 2, from one of the attacker nodes to the node found under
    ['server']. *)
Theorem ddos_packets_go_from_attackers_to_server
  (Math_sin Math_cos : float -> float) (s : AttackSimulation.t) :
  reachable Math_sin Math_cos s ->
  AttackSimulation.class_of s = AttackSimulation.DDoSAttack ->
  Forall (shaped_DDoS (AttackSimulation.nodes s)) (AttackSimulation.packets s).
Proof.
  intros H Hc. pose proof (reachable_shaped Math_sin Math_cos s H) as Hs.
  rewrite Hc in Hs. exact Hs.
Qed.

Lemma ddos_packets_go_from_attackers_to_server_witness :
  reachable Reference.Math_sin Reference.Math_cos (Reference.ddos_after 1)
  /\ AttackSimulation.class_of (Reference.ddos_after 1)
     = AttackSimulation.DDoSAttack
  /\ length (AttackSimulation.packets (Reference.ddos_after 1)) = 1%nat
  /\ Forall (shaped_DDoS (AttackSimulation.nodes (Reference.ddos_after 1)))
       (AttackSimulation.packets (Reference.ddos_after 1)).
Proof.
  split; [apply reference_ddos_reachable|].
  split; [vm_compute; reflexivity|].
  split; [vm_compute; reflexivity|].
  apply (ddos_packets_go_from_attackers_to_server Reference.Math_sin
           Reference.Math_cos (Reference.ddos_after 1)
           (reference_ddos_reachable 1)).
  vm_compute; reflexivity.
Defined.

(** X9. In a MITM simulation no packet travels between the two clients:
    every live packet is a ['normal'] packet from a client to the attacker
    node or an ['attack'] packet from the attacker node to a client, of
    speed 1.5. *)
Theorem mitm_packets_pass_through_attacker
  (Math_sin Math_cos : float -> float) (s : AttackSimulation.t) :
  reachable Math_sin Math_cos s ->
  AttackSimulation.class_of s = AttackSimulation.MITMAttack ->
  Forall (shaped_MITM (AttackSimulation.nodes s)) (AttackSimulation.packets s).
Proof.
  intros H Hc. pose proof (reachable_shaped Math_sin Math_cos s H) as Hs.
  rewrite Hc in Hs. exact Hs.
Qed.

Lemma mitm_packets_pass_through_attacker_witness :
  reachable Reference.Math_sin Reference.Math_cos ReferenceRuns.mitm_relayed
  /\ AttackSimulation.class_of ReferenceRuns.mitm_relayed
     = AttackSimulation.MITMAttack
  /\ length (AttackSimulation.packets ReferenceRuns.mitm_relayed) = 2%nat
  /\ Forall (shaped_MITM (AttackSimulation.nodes ReferenceRuns.mitm_relayed))
       (AttackSimulation.packets ReferenceRuns.mitm_relayed).
Proof.
  split; [apply reference_mitm_reachable|].
  split; [vm_compute; reflexivity|].
  split; [vm_compute; reflexivity|].
  apply (mitm_packets_pass_through_attacker Reference.Math_sin
           Reference.Math_cos ReferenceRuns.mitm_relayed
           reference_mitm_reachable).
  vm_compute; reflexivity.
Defined.

(** X10. In a firewall simulation every live packet either goes from a
    client or attacker node to the firewall node or is a forwarded packet
    from the firewall node to the server node; and a packet of type
    ['blocked'] was sent by an attacker node and is inactive: no packet of
    a legitimate client is ever blocked. *)
Theorem firewall_blocks_only_attackers
  (Math_sin Math_cos : float -> float) (s : AttackSimulation.t) :
  reachable Math_sin Math_cos s ->
  AttackSimulation.class_of s = AttackSimulation.FirewallAttack ->
  Forall (shaped_Firewall (AttackSimulation.nodes s))
    (AttackSimulation.packets s)
  /\ Forall
       (fun p =>
          Packet.type p = Packet.blocked ->
          Node.type (Packet.source p) = Node.attacker
          /\ Packet.active p = false)
       (AttackSimulation.packets s).
Proof.
  intros H Hc. pose proof (reachable_shaped Math_sin Math_cos s H) as Hs.
  rewrite Hc in Hs. split; [exact Hs|].
  eapply Forall_impl; [|exact Hs].
  intros p [_ [[_ [_ [Hty|[_ [Ha Hi]]]]]|[_ [_ [Hty|Hty]]]]] Hb.
  - rewrite Hb in Hty. unfold firewall_packetType in Hty.
    destruct (is_attacker (Packet.source p)); discriminate Hty.
  - split; [|exact Hi]. unfold is_attacker in Ha.
    destruct (Node.type (Packet.source p)); first [reflexivity | discriminate Ha].
  - rewrite Hb in Hty. discriminate Hty.
  - rewrite Hb in Hty. discriminate Hty.
Qed.

Lemma firewall_blocks_only_attackers_witness :
  reachable ReferenceRuns.Math_sin_firewall Reference.Math_cos
    ReferenceRuns.firewall_blocked
  /\ AttackSimulation.class_of ReferenceRuns.firewall_blocked
     = AttackSimulation.FirewallAttack
  /\ map Packet.type (AttackSimulation.packets ReferenceRuns.firewall_blocked)
     = [Packet.blocked]
  /\ Forall
       (shaped_Firewall (AttackSimulation.nodes ReferenceRuns.firewall_blocked))
       (AttackSimulation.packets ReferenceRuns.firewall_blocked)
  /\ Forall
       (fun p =>
          Packet.type p = Packet.blocked ->
          Node.type (Packet.source p) = Node.attacker
          /\ Packet.active p = false)
       (AttackSimulation.packets ReferenceRuns.firewall_blocked).
Proof.
  split; [apply reference_firewall_reachable|].
  split; [vm_compute; reflexivity|].
  split; [vm_compute; reflexivity|].
  apply (firewall_blocks_only_attackers ReferenceRuns.Math_sin_firewall
           Reference.Math_cos ReferenceRuns.firewall_blocked
           reference_firewall_reachable).
  vm_compute; reflexivity.
Defined.

(** X11. In an ARP spoofing simulation no packet travels between two
    clients: every live packet is a ['normal'] packet of speed 1 from a
    client to the attacker node, or an ['attack'] packet from the attacker
    node whose target, where it has one, is a client. *)
Theorem arp_packets_pass_through_attacker
  (Math_sin Math_cos : float -> float) (s : AttackSimulation.t) :
  reachable Math_sin Math_cos s ->
  AttackSimulation.class_of s = AttackSimulation.ARPSpoofAttack ->
  Forall (shaped_ARPSpoof (AttackSimulation.nodes s))
    (AttackSimulation.packets s).
Proof.
  intros H Hc. pose proof (reachable_shaped Math_sin Math_cos s H) as Hs.
  rewrite Hc in Hs. exact Hs.
Qed.

Lemma arp_packets_pass_through_attacker_witness :
  reachable Reference.Math_sin Reference.Math_cos
    ReferenceRuns.arpSpoof_relayed
  /\ AttackSimulation.class_of ReferenceRuns.arpSpoof_relayed
     = AttackSimulation.ARPSpoofAttack
  /\ length (AttackSimulation.packets ReferenceRuns.arpSpoof_relayed) = 2%nat
  /\ Forall
       (shaped_ARPSpoof (AttackSimulation.nodes ReferenceRuns.arpSpoof_relayed))
       (AttackSimulation.packets ReferenceRuns.arpSpoof_relayed).
Proof.
  split; [apply reference_arpSpoof_reachable|].
  split; [vm_compute; reflexivity|].
  split; [vm_compute; reflexivity|].
  apply (arp_packets_pass_through_attacker Reference.Math_sin
           Reference.Math_cos ReferenceRuns.arpSpoof_relayed
           reference_arpSpoof_reachable).
  vm_compute; reflexivity.
Defined.

Section Lifetime.

Lemma updates_in_flight (id : N) (src tgt : Node.t) (type : Packet.kind)
  (v : float) (p : Packet.t) (k : nat) :
  engine_speed v ->
  Packet.new id (Some src) (Some tgt) type v = Normal p ->
  (k < lifetime v)%nat ->
  Packet.active (updates k p) = true
  /\ Packet.speed (updates k p) = v
  /\ Packet.target (updates k p) = Some tgt
  /\ Packet.progress (updates k p) = progress_after v k.
Proof.
  intros Hv Hnew. simpl in Hnew. injection Hnew as <-.
  induction k as [|k IH]; intro Hk.
  - repeat split.
  - destruct IH as [Ha [Hs [Ht Hp]]]; [lia|].
    destruct (trajectory_before v (S k) Hv Hk) as [_ [_ [Hlt _]]].
    cbn [updates]. unfold Packet.update.
    rewrite Ha, Hs, Hp. cbn [negb].
    change (progress_after v k + v * 0.01)%float
      with (progress_after v (S k)).
    cbn [Packet.progress Packet.set_progress]. rewrite Hlt.
    cbn [Packet.target Packet.set_progress]. rewrite Ht.
    repeat split; simpl; assumption.
Qed.

Lemma updates_arrived (p : Packet.t) (n k : nat) :
  Packet.active (updates n p) = false -> (n <= k)%nat ->
  updates k p = updates n p.
Proof.
  intros Ha Hk. induction Hk as [|k Hk IH]; [reflexivity|].
  cbn [updates]. rewrite IH, update_inactive by exact Ha. reflexivity.
Qed.

End Lifetime.

(** X12. A packet between two nodes is kept by the sweep for
    [lifetime - 1] frames and removed in the next one, where [lifetime] is
    50 calls of [update()] at speed 2, 67 at speed 1.5 and 100 at speed 1:
    [update()] answers true on each of the first [lifetime - 1] calls, the
    call after that deactivates the packet and answers false, and so does
    every later call. *)
Theorem packet_is_removed_after_its_lifetime (id : N) (src tgt : Node.t)
  (type : Packet.kind) (v : float) (p : Packet.t) :
  engine_speed v ->
  Packet.new id (Some src) (Some tgt) type v = Normal p ->
  (lifetime 2 = 50 /\ lifetime 1.5 = 67 /\ lifetime 1 = 100)%nat
  /\ (forall k, (S k < lifetime v)%nat ->
        fst (Packet.update (updates k p)) = Normal true)
  /\ (forall k, (lifetime v <= S k)%nat ->
        fst (Packet.update (updates k p)) = Normal false
        /\ Packet.active (updates (S k) p) = false).
Proof.
  intros Hv Hnew. split; [repeat split|].
  assert (Hlast : fst (Packet.update (updates (lifetime v - 1) p))
                  = Normal false
                  /\ Packet.active (updates (lifetime v) p) = false).
  { pose proof (lifetime_pos v Hv) as Hpos.
    destruct (updates_in_flight id src tgt type v p (lifetime v - 1) Hv Hnew
                ltac:(lia)) as [Ha [Hs [Ht Hp]]].
    replace (lifetime v) with (S (lifetime v - 1)) at 2 by lia.
    cbn [updates]. unfold Packet.update. rewrite Ha, Hs, Hp. cbn [negb].
    change (progress_after v (lifetime v - 1) + v * 0.01)%float
      with (progress_after v (S (lifetime v - 1))).
    replace (S (lifetime v - 1)) with (lifetime v) by lia.
    cbn [Packet.progress Packet.set_progress].
    rewrite (trajectory_end v Hv). split; reflexivity. }
  destruct Hlast as [Hlast Hoff]. split.
  - intros k Hk.
    destruct (updates_in_flight id src tgt type v p k Hv Hnew ltac:(lia))
      as [Ha [Hs [Ht Hp]]].
    destruct (trajectory_before v (S k) Hv Hk) as [_ [_ [Hlt _]]].
    unfold Packet.update. rewrite Ha, Hs, Hp. cbn [negb].
    change (progress_after v k + v * 0.01)%float
      with (progress_after v (S k)).
    cbn [Packet.progress Packet.set_progress]. rewrite Hlt.
    cbn [Packet.target Packet.set_progress]. rewrite Ht. reflexivity.
  - intros k Hk.
    destruct (Nat.eq_dec (S k) (lifetime v)) as [E|E].
    + replace k with (lifetime v - 1)%nat by lia.
      replace (S (lifetime v - 1)) with (lifetime v) by lia.
      split; assumption.
    + rewrite (updates_arrived p (lifetime v) k Hoff ltac:(lia)).
      rewrite (updates_arrived p (lifetime v) (S k) Hoff ltac:(lia)).
      rewrite update_inactive by exact Hoff. split; [reflexivity | exact Hoff].
Qed.

(** A packet of speed 1.5 between two nodes 400 apart. *)
Lemma packet_is_removed_after_its_lifetime_witness :
  let src := Node.new 0.5 "client1" Node.client 200 300 25 in
  let tgt := Node.new 0.5 "attacker" Node.attacker 400 300 30 in
  exists p,
    engine_speed 1.5
    /\ Packet.new 7 (Some src) (Some tgt) Packet.normal 1.5 = Normal p
    /\ (lifetime 2 = 50 /\ lifetime 1.5 = 67 /\ lifetime 1 = 100)%nat
    /\ (forall k, (S k < lifetime 1.5)%nat ->
          fst (Packet.update (updates k p)) = Normal true)
    /\ (forall k, (lifetime 1.5 <= S k)%nat ->
          fst (Packet.update (updates k p)) = Normal false
          /\ Packet.active (updates (S k) p) = false).
Proof.
  intros src tgt. eexists.
  assert (Hv : engine_speed 1.5) by (right; left; reflexivity).
  split; [exact Hv|]. split; [reflexivity|].
  exact (packet_is_removed_after_its_lifetime 7 src tgt Packet.normal 1.5 _
           Hv eq_refl).
Defined.

(** ** Frames *)

Section ZeroIntensity.

Import AttackSimulation.

Variable Math_sin : float -> float.

(** At intensity 0 the frame has no slot, whatever [packetsPerSecond]
    is: the product is a zero or [NaN]. *)
Lemma no_slot_at_zero (pps : float) :
  (0 <? 0 / 100 * pps * 0.016)%float = false.
Proof.
  rewrite ltb_spec, mul_spec, mul_spec.
  change (Prim2SF (0 / 100)) with (S754_zero false).
  change (Prim2SF 0) with (S754_zero false).
  destruct (Prim2SF pps) as [s|s| |s m e]; reflexivity.
Qed.

Lemma for_lt_no_slot (S0 : Type) (fuel : nat) (bound : float)
  (body : JS S0 unit) (s : S0) :
  (0 <? bound)%float = false ->
  for_lt (Datatypes.S fuel) 0 bound body s = (Normal tt, s).
Proof. intro H. simpl. rewrite H. reflexivity. Qed.

Lemma generatePackets_zero (fuel : nat) (s : t) :
  generatePackets Math_sin (Datatypes.S fuel) 0 s = (Normal tt, s).
Proof.
  unfold generatePackets, generatePackets_DDoS, generatePackets_MITM,
    generatePackets_Firewall, generatePackets_ARPSpoof, bind at 1 3 5 7, get.
  destruct (class_of s); apply for_lt_no_slot, no_slot_at_zero.
Qed.

End ZeroIntensity.

(** X13. With the intensity at 0, [generatePackets] does nothing in any
    scenario, whatever the scenario's [packetsPerSecond]: it returns with
    the simulation as it was, so no packet is created, no timer is
    scheduled and the generator is not advanced. *)
Theorem generatePackets_does_nothing_at_zero_intensity
  (Math_sin : float -> float) (fuel : nat) (s : AttackSimulation.t) :
  AttackSimulation.generatePackets Math_sin (S fuel) 0 s = (Normal tt, s).
Proof. apply generatePackets_zero. Qed.

Section Sends.

Import AttackSimulation.

Variable Math_sin : float -> float.

Lemma sends_ret (A : Type) (a : A) : sends 0 (@ret t A a).
Proof. intro s. simpl. lia. Qed.

Lemma sends_throw (A : Type) (e : exn) : sends 0 (@throw t A e).
Proof. intro s. simpl. lia. Qed.

Lemma sends_more (A : Type) (a b : N) (m : JS t A) :
  (a <= b)%N -> sends a m -> sends b m.
Proof. intros H Hm s. specialize (Hm s). lia. Qed.

Lemma sends_bind (A B : Type) (a b : N) (m : JS t A) (k : A -> JS t B) :
  sends a m -> (forall x, sends b (k x)) -> sends (a + b) (bind m k).
Proof.
  intros Hm Hk s. unfold bind. specialize (Hm s).
  destruct (m s) as [[x| e |] s']; simpl in *; try lia.
  specialize (Hk x s'). lia.
Qed.

Lemma sends_on_rng (A : Type) (m : JS SeededRandom.t A) :
  sends 0 (on_rng m).
Proof.
  intro s. unfold on_rng. destruct (m (rng s)) as [c r]. simpl.
  unfold sent. simpl. lia.
Qed.

Lemma sends_createPacket source target type speed :
  sends 1 (createPacket source target type speed).
Proof.
  intro s. unfold createPacket.
  destruct (Packet.new _ source target type speed); unfold sent; simpl; lia.
Qed.

Lemma sends_setTimeout (cb : callback) : sends 0 (setTimeout cb).
Proof. intro s. unfold sent. simpl. lia. Qed.

(** A send followed by what sends nothing. *)
Lemma sends_one_then (A : Type) source target type speed
  (k : Packet.t -> JS t A) :
  (forall p, sends 0 (k p)) ->
  sends 1 (bind (createPacket source target type speed) k).
Proof.
  intro Hk. apply (sends_bind _ _ 1 0); [apply sends_createPacket | exact Hk].
Qed.

(** A draw followed by what sends at most [n]. *)
Lemma sends_draw (A B : Type) (n : N) (m : JS SeededRandom.t A)
  (k : A -> JS t B) :
  (forall x, sends n (k x)) -> sends n (bind (on_rng m) k).
Proof.
  intro Hk. apply (sends_bind _ _ 0 n); [apply sends_on_rng | exact Hk].
Qed.

Lemma sends_for_lt (fuel F : nat) (i bound : float) (k : nat)
  (body : JS t unit) :
  sends 1 body -> slots F i bound = Some k ->
  sends (N.of_nat k) (for_lt fuel i bound body).
Proof.
  intro Hb. revert F i k. induction fuel as [|f IH]; intros F i k Hk.
  - intro s. simpl. lia.
  - simpl. destruct F as [|F]; [discriminate Hk|]. simpl in Hk.
    destruct (i <? bound)%float.
    + destruct (slots F (i + 1)%float bound) as [j|] eqn:Ej;
        [|discriminate Hk].
      injection Hk as <-.
      replace (N.of_nat (S j)) with (1 + N.of_nat j)%N by lia.
      apply sends_bind; [exact Hb|]. intros _. apply (IH F _ j Ej).
    + apply (sends_more _ 0); [lia | apply sends_ret].
Qed.

Ltac sends_step :=
  first
    [ apply sends_ret
    | apply sends_throw
    | apply sends_setTimeout
    | apply sends_createPacket
    | apply sends_draw; intro
    | apply sends_one_then; intro
    | apply (sends_more _ 0 1); [lia|] ].

(** A draw whose outcome is then examined. *)
Ltac sends_choice :=
  apply sends_draw; let v := fresh "v" in (intro v; destruct v).

Lemma sends_generatePackets (fuel F : nat) (intensity : float) (k : nat)
  (s : t) :
  slots F 0 (packetsThisFrame (scenario s) intensity) = Some k ->
  (sent (snd (generatePackets Math_sin fuel intensity s))
   <= sent s + N.of_nat k)%N.
Proof.
  intro Hk. unfold generatePackets.
  destruct (class_of s).
  - unfold generatePackets_DDoS, bind at 1, get.
    apply (sends_for_lt fuel F); [|exact Hk].
    unfold rng_next, rng_choice. sends_step.
    destruct (_ <? _)%float; repeat sends_step.
  - unfold generatePackets_MITM, bind at 1, get.
    apply (sends_for_lt fuel F); [|exact Hk].
    unfold rng_next. sends_step.
    destruct (_ <? _)%float; [|repeat sends_step].
    sends_step. destruct (_ <? _)%float; repeat sends_step.
  - unfold generatePackets_Firewall, bind at 1, get.
    apply (sends_for_lt fuel F); [|exact Hk].
    unfold rng_next, rng_choice. sends_step.
    destruct (_ <? _)%float; [|repeat sends_step].
    sends_choice; repeat sends_step.
  - unfold generatePackets_ARPSpoof, bind at 1, get.
    apply (sends_for_lt fuel F); [|exact Hk].
    unfold rng_next, rng_choice. sends_step.
    destruct (_ <? _)%float.
    + sends_choice.
      * sends_choice; repeat sends_step.
      * destruct (Node.of_type Node.client (nodes s)); [|repeat sends_step].
        sends_choice; repeat sends_step.
    + sends_step. destruct (_ <? _)%float; repeat sends_step.
Qed.

Lemma same_sent_updateMetrics :
  extends same_sent (updateMetrics Math_sin).
Proof.
  apply extends_updateMetrics; unfold same_sent, extends;
    intros; try reflexivity; congruence.
Qed.

Lemma update_sends (fuel F : nat) (deltaTime speed intensity : float)
  (k : nat) (s : t) :
  slots F 0 (packetsThisFrame (scenario s) intensity) = Some k ->
  (sent (snd (update Math_sin fuel deltaTime speed intensity s))
   <= sent s + N.of_nat k)%N.
Proof.
  intro Hk. unfold update.
  destruct (Packet.sweep _) as [[kept| e |] objects];
    cbn [fst snd]; try (unfold sent; simpl; lia).
  unfold bind.
  set (s1 := set_packets kept (set_time _ s)).
  pose proof (sends_generatePackets fuel F intensity k s1 Hk) as Hg.
  change (sent s1) with (sent s) in Hg.
  destruct (generatePackets Math_sin fuel intensity s1) as [[[]| e |] s2];
    cbn [fst snd] in *; try exact Hg.
  rewrite (same_sent_updateMetrics s2). exact Hg.
Qed.

End Sends.

Lemma reachable_scenario (Math_sin Math_cos : float -> float)
  (s : AttackSimulation.t) :
  reachable Math_sin Math_cos s ->
  In (AttackSimulation.scenario s) scenario_objects.
Proof.
  induction 1 as [randoms name rng w h s log Hc | fuel e s _ IH].
  - unfold SimulationFactory.create, Scenario.SCENARIOS in Hc.
    assert (Hsc : forall s0,
              AttackSimulation.scenario
                (AttackSimulation.initialize Math_sin Math_cos randoms s0)
              = AttackSimulation.scenario s0).
    { intro s0. unfold AttackSimulation.initialize.
      destruct (AttackSimulation.class_of s0); try reflexivity.
      unfold AttackSimulation.initialize_Firewall.
      destruct (AttackSimulation.firewall_clients _ _ _ _ _ _ _)
        as [[ns| e |] r]; reflexivity. }
    repeat (destruct (String.eqb name _);
            [injection Hc as <- _; rewrite Hsc; simpl; tauto|]).
    destruct (existsb _ _); [|discriminate Hc].
    injection Hc as <- _. rewrite Hsc. simpl. tauto.
  - pose proof (same_setting_step Math_sin fuel e s) as [_ [_ [Hs _]]].
    unfold exec. rewrite Hs. exact IH.
Qed.

(** X14. At every value of the intensity slider (the whole numbers from 0
    to 100), one call of [update] sends at most two packets, in every
    scenario and however the call completes. *)
Theorem update_sends_at_most_two_packets (Math_sin Math_cos : float -> float)
  (fuel : nat) (deltaTime speed intensity : float) (s : AttackSimulation.t) :
  reachable Math_sin Math_cos s ->
  In intensity slider_values ->
  let s' :=
    exec (AttackSimulation.update Math_sin fuel deltaTime speed intensity) s in
  (AttackSimulation.packetsSent (AttackSimulation.getMetrics s')
   <= AttackSimulation.packetsSent (AttackSimulation.getMetrics s) + 2)%N.
Proof.
  intros Hs Hi s'.
  pose proof (slider_frames_within_fuel _ _
                (reachable_scenario Math_sin Math_cos s Hs) Hi) as H.
  unfold at_most_two_slots in H.
  destruct (slots 3 0 _) as [k|] eqn:Ek; [|discriminate H].
  apply Nat.leb_le in H.
  pose proof (update_sends Math_sin fuel 3 deltaTime speed intensity k s Ek)
    as Hu.
  unfold s', exec, AttackSimulation.getMetrics. unfold sent in Hu. lia.
Qed.

(** A frame at full intensity from the freshly created DDoS simulation. *)
Lemma update_sends_at_most_two_packets_witness :
  reachable Reference.Math_sin Reference.Math_cos (Reference.ddos_after 0)
  /\ In 100%float slider_values
  /\ (let s' :=
        exec (AttackSimulation.update Reference.Math_sin 3 16 1 100)
          (Reference.ddos_after 0) in
      (AttackSimulation.packetsSent (AttackSimulation.getMetrics s')
       <= AttackSimulation.packetsSent
            (AttackSimulation.getMetrics (Reference.ddos_after 0)) + 2)%N).
Proof.
  assert (Hi : In 100%float slider_values).
  { unfold slider_values. apply in_map_iff. exists 100%nat.
    split; [reflexivity|]. apply in_seq. lia. }
  split; [apply reference_ddos_reachable|].
  split; [exact Hi|].
  apply (update_sends_at_most_two_packets Reference.Math_sin
           Reference.Math_cos 3 16 1 100 (Reference.ddos_after 0)
           (reference_ddos_reachable 0) Hi).
Defined.

Section Topologies.

Import AttackSimulation.

Variables Math_sin Math_cos : float -> float.
Variable randoms : nat -> float.

Lemma distinctb_NoDup (ids : list string) :
  distinctb ids = true -> NoDup ids.
Proof.
  induction ids as [|x rest IH]; simpl; intro H; constructor.
  - apply andb_prop in H. destruct H as [H _].
    apply negb_true_iff in H. intro Hin.
    assert (E : existsb (String.eqb x) rest = true).
    { apply existsb_exists. exists x. split; [exact Hin|].
      apply String.eqb_refl. }
    rewrite E in H. discriminate H.
  - apply IH. apply andb_prop in H. apply H.
Qed.

Lemma closedb_closed (ns : list Node.t) :
  closedb (layout ns) = true -> connections_closed ns.
Proof.
  unfold closedb, connections_closed. rewrite forallb_forall.
  intro H. apply Forall_forall. intros n Hn. apply Forall_forall.
  intros id Hid.
  specialize (H (Node.id n, Node.type n, Node.connections n)).
  assert (Hin : In (Node.id n, Node.type n, Node.connections n) (layout ns)).
  { unfold layout. apply in_map_iff. exists n. split; [reflexivity|exact Hn]. }
  specialize (H Hin). simpl in H. rewrite forallb_forall in H.
  specialize (H id Hid). apply existsb_exists in H.
  destruct H as [e [He E]]. apply String.eqb_eq in E.
  unfold layout in He. apply in_map_iff in He.
  destruct He as [m [Em Hm]]. subst e. simpl in E.
  unfold node_ids. apply in_map_iff. exists m. split; assumption.
Qed.


Lemma create_layout (name : string) (rng : SeededRandom.t) (w h : float)
  (s : t) (log : list string) :
  SimulationFactory.create Math_sin Math_cos randoms name rng w h
  = (Some s, log) ->
  layout (nodes s) = scenario_layout name.
Proof.
  unfold SimulationFactory.create, Scenario.SCENARIOS,
    SimulationFactory.class_for, scenario_layout.
  repeat (destruct (String.eqb name _);
          [intro H; injection H as <- _; vm_compute; reflexivity|]).
  destruct (existsb _ _); [|discriminate].
  intro H; injection H as <- _; vm_compute; reflexivity.
Qed.

Lemma scenario_layout_sound (name : string) :
  distinctb (map (fun e => fst (fst e)) (scenario_layout name)) = true
  /\ closedb (scenario_layout name) = true.
Proof.
  unfold scenario_layout.
  repeat (destruct (String.eqb name _); [split; vm_compute; reflexivity|]).
  split; vm_compute; reflexivity.
Qed.

End Topologies.

(** X15. The nodes [create] builds for each scenario, as ids, types and
    connections, whatever the canvas size, the generator and
    [Math.random()]: the server and 30 attackers connected to it (DDoS);
    two clients and the attacker between them (MITM); the server, the
    firewall connected to it, and 10 attackers and 5 clients connected to the
    firewall (firewall); 8 clients connected to the attacker, and the
    attacker (ARP spoofing). *)
Theorem create_lays_out_the_scenario (Math_sin Math_cos : float -> float)
  (randoms : nat -> float) (rng : SeededRandom.t) (w h : float) :
  Forall
    (fun name =>
       exists s,
         SimulationFactory.create Math_sin Math_cos randoms name rng w h
         = (Some s, [])
         /\ layout (AttackSimulation.nodes s) = scenario_layout name)
    Scenario.own_keys.
Proof.
  unfold Scenario.own_keys.
  repeat (apply Forall_cons || apply Forall_nil);
    (eexists; split; [reflexivity|]);
    eapply create_layout; reflexivity.
Qed.

(** X16. In every simulation [create] returns, for whatever name it
    accepts, the node ids are pairwise distinct and every id in a node's
    [connections] is the id of a node of the collection: [find] by id is
    unambiguous and [renderConnections] finds every target. *)
Theorem created_nodes_are_consistent (Math_sin Math_cos : float -> float)
  (randoms : nat -> float) (name : string) (rng : SeededRandom.t)
  (w h : float) (s : AttackSimulation.t) (log : list string) :
  SimulationFactory.create Math_sin Math_cos randoms name rng w h
  = (Some s, log) ->
  NoDup (node_ids (AttackSimulation.nodes s))
  /\ connections_closed (AttackSimulation.nodes s).
Proof.
  intro H. pose proof (create_layout Math_sin Math_cos randoms name rng w h
                         s log H) as Hl.
  destruct (scenario_layout_sound name) as [Hd Hc]. rewrite <- Hl in Hd, Hc.
  split.
  - apply distinctb_NoDup. unfold layout in Hd. rewrite map_map in Hd.
    exact Hd.
  - apply closedb_closed, Hc.
Qed.

Lemma created_nodes_are_consistent_witness :
  SimulationFactory.create Reference.Math_sin Reference.Math_cos
    Reference.randoms "firewall" (SeededRandom.new 12345) 800 600
  = (Some ReferenceRuns.firewall_created, [])
  /\ NoDup (node_ids (AttackSimulation.nodes ReferenceRuns.firewall_created))
  /\ connections_closed (AttackSimulation.nodes ReferenceRuns.firewall_created).
Proof.
  split; [reflexivity|].
  apply (created_nodes_are_consistent Reference.Math_sin Reference.Math_cos
           Reference.randoms "firewall" (SeededRandom.new 12345) 800 600
           ReferenceRuns.firewall_created [] eq_refl).
Defined.

Section Windows.

Lemma lastn_all (A : Type) (k : nat) (l : list A) :
  (length l <= k)%nat -> lastn k l = l.
Proof.
  intro H. unfold lastn. replace (length l - k)%nat with 0%nat by lia.
  reflexivity.
Qed.

Lemma lastn_length (A : Type) (k : nat) (l : list A) :
  length (lastn k l) = Nat.min k (length l).
Proof. unfold lastn. rewrite length_skipn. lia. Qed.

Lemma lastn_app (A : Type) (k : nat) (l r : list A) :
  lastn k (lastn k l ++ r) = lastn k (l ++ r).
Proof.
  destruct (Nat.le_gt_cases (length l) k) as [H|H].
  - rewrite (lastn_all A k l H). reflexivity.
  - unfold lastn at 1 3. rewrite !length_app, lastn_length.
    rewrite !skipn_app, lastn_length. unfold lastn.
    rewrite skipn_skipn. f_equal; f_equal; lia.
Qed.

(** Push, then shift if longer than [k]: the last [k] of the pushed
    list, for a list that held at most [k]. *)
Lemma push_shift (A : Type) (k : nat) (l : list A) (x : A) :
  (length l <= k)%nat ->
  (if (k <? length (l ++ [x]))%nat then tl (l ++ [x]) else l ++ [x])
  = lastn k (l ++ [x]).
Proof.
  intro H. rewrite length_app. simpl.
  destruct (k <? length l + 1)%nat eqn:E.
  - apply Nat.ltb_lt in E. unfold lastn. rewrite length_app. simpl.
    replace (length l + 1 - k)%nat with 1%nat by lia.
    destruct (l ++ [x]); reflexivity.
  - apply Nat.ltb_ge in E. symmetry. apply lastn_all.
    rewrite length_app. simpl. lia.
Qed.

Import PerformanceMonitor.

Lemma run_window (nows : list float) (m : t) :
  (length (frames m) <= 60)%nat ->
  frames (run nows m) = lastn 60 (frames m ++ deltas (lastTime m) nows).
Proof.
  revert m. induction nows as [|now rest IH]; intros m H.
  - simpl. rewrite app_nil_r, lastn_all by exact H. reflexivity.
  - change (run (now :: rest) m) with (run rest (update now m)).
    assert (Hf : frames (update now m)
                 = lastn 60 (frames m ++ [(now - lastTime m)%float])).
    { unfold update. cbn [frames]. apply push_shift, H. }
    rewrite IH by (rewrite Hf, lastn_length; lia).
    rewrite Hf. cbn [lastTime update deltas].
    rewrite lastn_app, <- app_assoc. reflexivity.
Qed.

End Windows.

(** X17. A [PerformanceMonitor] holds the times of the last 60 frames:
    after any number of [update()] calls, [frames] is the last 60 (all, if
    fewer) of the differences between consecutive [performance.now()]
    readings, starting from the reading the constructor took; so it never
    holds more than 60 entries. *)
Theorem monitor_keeps_the_last_60_frames (start : float)
  (nows : list float) :
  let m := PerformanceMonitor.run nows (PerformanceMonitor.new start) in
  PerformanceMonitor.frames m = lastn 60 (deltas start nows)
  /\ (length (PerformanceMonitor.frames m) <= 60)%nat.
Proof.
  intro m.
  assert (H : PerformanceMonitor.frames m = lastn 60 (deltas start nows)).
  { unfold m. rewrite run_window by (simpl; lia). reflexivity. }
  split; [exact H|]. rewrite H, lastn_length. lia.
Qed.

Section Order.

Lemma SFcompare_key (x y : spec_float) :
  x <> S754_nan -> y <> S754_nan ->
  (SFcompare x y = Some Lt <-> key_lt (SF_key x) (SF_key y)).
Proof.
  destruct x as [sx|sx| |sx mx ex], y as [sy|sy| |sy my ey];
    intros Hx Hy; try (elim Hx; reflexivity); try (elim Hy; reflexivity);
    try (destruct sx); try (destruct sy); simpl;
    try (split; [discriminate | lia]);
    try (split; [intros _; lia | reflexivity]).
  - rewrite (Pos.compare_cont_spec mx my Eq).
    pose proof (Z.compare_spec ex ey) as He.
    pose proof (Pos.compare_spec mx my) as Hm.
    destruct He as [He|He|He]; destruct Hm as [Hm|Hm|Hm]; simpl;
      split; intro H; try discriminate; try reflexivity; lia.
  - rewrite (Pos.compare_cont_spec mx my Eq).
    pose proof (Z.compare_spec ex ey) as He.
    pose proof (Pos.compare_spec mx my) as Hm.
    destruct He as [He|He|He]; destruct Hm as [Hm|Hm|Hm]; simpl;
      split; intro H; try discriminate; try reflexivity; lia.
Qed.

Lemma ltb_key (x y : float) :
  is_nan x = false -> is_nan y = false ->
  ((x <? y)%float = true <-> key_lt (SF_key (Prim2SF x)) (SF_key (Prim2SF y))).
Proof.
  intros Hx Hy. apply is_nan_spec in Hx, Hy.
  rewrite ltb_spec. unfold SFltb.
  rewrite <- (SFcompare_key _ _ Hx Hy).
  destruct (SFcompare _ _) as [[| |]|]; split; intro H;
    try discriminate; reflexivity.
Qed.

Lemma key_lt_trans (a b c : Z * Z * Z) :
  key_lt a b -> key_lt b c -> key_lt a c.
Proof.
  destruct a as [[a1 a2] a3], b as [[b1 b2] b3], c as [[c1 c2] c3].
  unfold key_lt. lia.
Qed.

Lemma key_lt_total (a b : Z * Z * Z) :
  key_lt a b \/ a = b \/ key_lt b a.
Proof.
  destruct a as [[a1 a2] a3], b as [[b1 b2] b3]. unfold key_lt.
  destruct (Z.lt_trichotomy a1 b1) as [H|[H|H]]; try (left; lia);
    try (right; right; lia).
  destruct (Z.lt_trichotomy a2 b2) as [H2|[H2|H2]]; try (left; lia);
    try (right; right; lia).
  destruct (Z.lt_trichotomy a3 b3) as [H3|[H3|H3]]; try (left; lia);
    try (right; right; lia).
  right. left. congruence.
Qed.

(** [x < y <= z] gives [x < z]. *)
Lemma ltb_leb_trans (x y z : float) :
  is_nan x = false -> is_nan y = false -> is_nan z = false ->
  (x <? y)%float = true -> (z <? y)%float = false -> (x <? z)%float = true.
Proof.
  intros Hx Hy Hz Hxy Hzy.
  apply (ltb_key x y Hx Hy) in Hxy. apply (ltb_key x z Hx Hz).
  destruct (key_lt_total (SF_key (Prim2SF y)) (SF_key (Prim2SF z)))
    as [H|[H|H]].
  - eapply key_lt_trans; eassumption.
  - rewrite <- H. exact Hxy.
  - apply (ltb_key z y Hz Hy) in H. rewrite H in Hzy. discriminate Hzy.
Qed.

End Order.

Section MinMax.

(** What [Math.max] and [Math.min] return on numbers. *)
Lemma Math_max_spec (a b : float) :
  is_nan a = false -> is_nan b = false ->
  let m := Math_max a b in
  (m = a \/ m = b) /\ (m <? a)%float = false /\ (m <? b)%float = false.
Proof.
  intros Ha Hb. unfold Math_max. rewrite Ha, Hb. cbn [orb].
  assert (Hirr : forall x, is_nan x = false -> (x <? x)%float = false).
  { intros x Hx. destruct (x <? x)%float eqn:E; [|reflexivity].
    apply (ltb_key x x Hx Hx) in E.
    destruct (SF_key (Prim2SF x)) as [[k1 k2] k3]. unfold key_lt in E. lia. }
  assert (Hasym : forall x y, is_nan x = false -> is_nan y = false ->
            (x <? y)%float = true -> (y <? x)%float = false).
  { intros x y Hx Hy E. destruct (y <? x)%float eqn:E'; [|reflexivity].
    apply (ltb_key x y Hx Hy) in E. apply (ltb_key y x Hy Hx) in E'.
    destruct (SF_key (Prim2SF x)) as [[k1 k2] k3],
             (SF_key (Prim2SF y)) as [[j1 j2] j3].
    unfold key_lt in *. lia. }
  destruct (a <? b)%float eqn:E1.
  - split; [right; reflexivity|]. split; [apply Hasym; assumption|].
    apply Hirr, Hb.
  - destruct (b <? a)%float eqn:E2.
    + split; [left; reflexivity|]. split; [apply Hirr, Ha|].
      apply Hasym; assumption.
    + destruct (Num.is_neg_zero a).
      * split; [right; reflexivity|]. split; [exact E2 | apply Hirr, Hb].
      * split; [left; reflexivity|]. split; [apply Hirr, Ha | exact E1].
Qed.

Lemma Math_min_spec (a b : float) :
  is_nan a = false -> is_nan b = false ->
  let m := Num.Math_min a b in
  (m = a \/ m = b) /\ (a <? m)%float = false /\ (b <? m)%float = false.
Proof.
  intros Ha Hb. unfold Num.Math_min. rewrite Ha, Hb. cbn [orb].
  assert (Hirr : forall x, is_nan x = false -> (x <? x)%float = false).
  { intros x Hx. destruct (x <? x)%float eqn:E; [|reflexivity].
    apply (ltb_key x x Hx Hx) in E.
    destruct (SF_key (Prim2SF x)) as [[k1 k2] k3]. unfold key_lt in E. lia. }
  assert (Hasym : forall x y, is_nan x = false -> is_nan y = false ->
            (x <? y)%float = true -> (y <? x)%float = false).
  { intros x y Hx Hy E. destruct (y <? x)%float eqn:E'; [|reflexivity].
    apply (ltb_key x y Hx Hy) in E. apply (ltb_key y x Hy Hx) in E'.
    destruct (SF_key (Prim2SF x)) as [[k1 k2] k3],
             (SF_key (Prim2SF y)) as [[j1 j2] j3].
    unfold key_lt in *. lia. }
  destruct (a <? b)%float eqn:E1.
  - split; [left; reflexivity|]. split; [apply Hirr, Ha|].
    apply Hasym; assumption.
  - destruct (b <? a)%float eqn:E2.
    + split; [right; reflexivity|]. split; [apply Hasym; assumption|].
      apply Hirr, Hb.
    + destruct (Num.is_neg_zero a).
      * split; [left; reflexivity|]. split; [apply Hirr, Ha | exact E2].
      * split; [right; reflexivity|]. split; [exact E1 | apply Hirr, Hb].
Qed.

End MinMax.

(** X18. [MathUtils.clamp] on numbers (none of the three [NaN]): with
    [min <= max] the result is one of the three arguments and lies between
    [min] and [max]; it is [value] itself when [value] is strictly between
    them; and with the bounds the wrong way round ([max < min]) the result
    is [max], whatever [value] is. *)
Theorem clamp_stays_within_bounds (value min max : float) :
  is_nan value = false -> is_nan min = false -> is_nan max = false ->
  let r := clamp value min max in
  (r = value \/ r = min \/ r = max)
  /\ ((min <=? max)%float = true ->
      (min <=? r)%float = true /\ (r <=? max)%float = true)
  /\ ((min <? value)%float = true -> (value <? max)%float = true ->
      r = value)
  /\ ((max <? min)%float = true -> r = max).
Proof.
  intros Hv Hlo Hhi r.
  destruct (Math_max_spec value min Hv Hlo) as [Hm [Hm1 Hm2]].
  cbv zeta in *.
  assert (Hmn : is_nan (Math_max value min) = false)
    by (destruct Hm as [-> | ->]; assumption).
  destruct (Math_min_spec (Math_max value min) max Hmn Hhi) as [Hr [Hr1 Hr2]].
  cbv zeta in *. fold (clamp value min max) in Hr, Hr1, Hr2. fold r in Hr, Hr1, Hr2.
  assert (Hrn : is_nan r = false)
    by (destruct Hr as [-> | ->]; assumption).
  split; [|split; [|split]].
  - destruct Hr as [-> | ->]; [|right; right; reflexivity].
    destruct Hm as [-> | ->]; [left | right; left]; reflexivity.
  - intro Hle. split.
    + destruct Hr as [Hr|Hr]; rewrite Hr.
      * apply not_ltb_leb; assumption.
      * exact Hle.
    + apply not_ltb_leb; assumption.
  - intros H1 H2.
    assert (Em : Math_max value min = value).
    { unfold Math_max. rewrite Hv, Hlo. cbn [orb].
      destruct (value <? min)%float eqn:E; [|rewrite H1; reflexivity].
      apply (ltb_key value min Hv Hlo) in E.
      apply (ltb_key min value Hlo Hv) in H1.
      destruct (SF_key (Prim2SF value)) as [[k1 k2] k3],
               (SF_key (Prim2SF min)) as [[j1 j2] j3].
      unfold key_lt in *. lia. }
    unfold r, clamp. rewrite Em. unfold Num.Math_min.
    rewrite Hv, Hhi, H2. reflexivity.
  - intro Hinv.
    assert (Hlt : (max <? Math_max value min)%float = true).
    { apply (ltb_leb_trans max min _ Hhi Hlo Hmn Hinv Hm2). }
    unfold r, clamp, Num.Math_min. rewrite Hmn, Hhi. cbn [orb].
    destruct (Math_max value min <? max)%float eqn:E.
    + apply (ltb_key _ _ Hmn Hhi) in E. apply (ltb_key _ _ Hhi Hmn) in Hlt.
      destruct (SF_key (Prim2SF (Math_max value min))) as [[k1 k2] k3],
               (SF_key (Prim2SF max)) as [[j1 j2] j3].
      unfold key_lt in *. lia.
    + rewrite Hlt. reflexivity.
Qed.

Lemma clamp_stays_within_bounds_witness :
  is_nan 150 = false /\ is_nan 0 = false /\ is_nan 100 = false
  /\ clamp 150 0 100 = 100%float
  /\ (let r := clamp 150 0 100 in
      (r = 150%float \/ r = 0%float \/ r = 100%float)
      /\ ((0 <=? 100)%float = true ->
          (0 <=? r)%float = true /\ (r <=? 100)%float = true)
      /\ ((0 <? 150)%float = true -> (150 <? 100)%float = true ->
          r = 150%float)
      /\ ((100 <? 0)%float = true -> r = 100%float)).
Proof.
  split; [reflexivity|]. split; [reflexivity|]. split; [reflexivity|].
  split; [reflexivity|].
  apply (clamp_stays_within_bounds 150 0 100); reflexivity.
Defined.

Section ColorFacts.

Import Colors.

Lemma hex_digit_below (c : ascii) (d : N) :
  hex_digit c = Some d -> (d < 16)%N.
Proof.
  destruct c as [[|] [|] [|] [|] [|] [|] [|] [|]]; intro H;
    vm_compute in H;
    first [discriminate H | injection H as <-; reflexivity].
Qed.

Lemma parse_pair_below (c1 c2 : ascii) (n : N) :
  parse_pair c1 c2 = Some n -> (n <= 255)%N.
Proof.
  unfold parse_pair.
  destruct (hex_digit c1) as [h|] eqn:E1; [|discriminate].
  destruct (hex_digit c2) as [l|] eqn:E2; [|discriminate].
  intro H. injection H as <-.
  apply hex_digit_below in E1. apply hex_digit_below in E2.
  change (16 * h + l <= 255)%N. lia.
Qed.

Lemma hex_digit_upper (c : ascii) : hex_digit (upper c) = hex_digit c.
Proof.
  destruct c as [[|] [|] [|] [|] [|] [|] [|] [|]]; reflexivity.
Qed.

Lemma upper_hash (c : ascii) : upper c = "#"%char <-> c = "#"%char.
Proof.
  destruct c as [[|] [|] [|] [|] [|] [|] [|] [|]]; split; intro H;
    first [reflexivity | discriminate H].
Qed.

Lemma parse_pair_upper (c1 c2 : ascii) :
  parse_pair (upper c1) (upper c2) = parse_pair c1 c2.
Proof. unfold parse_pair. rewrite !hex_digit_upper. reflexivity. Qed.

Lemma groups_body_upper (s : string) :
  match uppercase s with
  | String c1 (String c2 (String c3 (String c4 (String c5 (String c6
      EmptyString))))) =>
      match parse_pair c1 c2, parse_pair c3 c4, parse_pair c5 c6 with
      | Some x, Some y, Some z => Some (x, y, z)
      | _, _, _ => None
      end
  | _ => None
  end
  = match s with
    | String c1 (String c2 (String c3 (String c4 (String c5 (String c6
        EmptyString))))) =>
        match parse_pair c1 c2, parse_pair c3 c4, parse_pair c5 c6 with
        | Some x, Some y, Some z => Some (x, y, z)
        | _, _, _ => None
        end
    | _ => None
    end.
Proof.
  destruct s as [|c1 [|c2 [|c3 [|c4 [|c5 [|c6 [|c7 s]]]]]]]; try reflexivity.
  simpl. rewrite !parse_pair_upper. reflexivity.
Qed.

Lemma groups_uppercase (s : string) : groups (uppercase s) = groups s.
Proof.
  unfold groups. destruct s as [|c rest]; [reflexivity|].
  cbn [uppercase].
  destruct (ascii_dec c "#"%char) as [->|Hc].
  - change (upper "#"%char) with "#"%char. apply groups_body_upper.
  - assert (Hu : upper c <> "#"%char) by (intro H; apply Hc, upper_hash, H).
    assert (E1 : forall (A : Type) (a1 a2 : A) (x : ascii),
              x <> "#"%char ->
              match x with "#"%char => a1 | _ => a2 end = a2).
    { intros A a1 a2 x Hx.
      destruct x as [[|] [|] [|] [|] [|] [|] [|] [|]]; try reflexivity.
      elim Hx. reflexivity. }
    rewrite (E1 _ _ _ (upper c) Hu), (E1 _ _ _ c Hc).
    apply (groups_body_upper (String c rest)).
Qed.

Lemma groups_hash (s : string) :
  (forall rest, s <> String "#"%char rest) ->
  groups (String "#"%char s) = groups s.
Proof.
  intro H. unfold groups. cbn [ascii_dec].
  destruct s as [|c rest]; [reflexivity|].
  destruct (ascii_dec c "#"%char) as [->|Hc]; [elim (H rest); reflexivity|].
  destruct c as [[|] [|] [|] [|] [|] [|] [|] [|]]; try reflexivity.
  elim Hc. reflexivity.
Qed.

End ColorFacts.

(** X19. [Colors.hexToRgb] on any string: each component it returns is a
    whole number from 0 to 255; the letter case of the string does not
    matter; and a leading ['#'] is optional. *)
Theorem hexToRgb_components_are_bytes (hex : string) :
  let c := Colors.hexToRgb hex in
  ((Colors.r c <= 255)%N /\ (Colors.g c <= 255)%N /\ (Colors.b c <= 255)%N)
  /\ Colors.hexToRgb (uppercase hex) = c
  /\ ((forall rest, hex <> String "#"%char rest) ->
      Colors.hexToRgb (String "#"%char hex) = c).
Proof.
  intro c. split; [|split].
  - unfold c, Colors.hexToRgb, Colors.groups.
    destruct (match hex with String "#"%char rest => rest | _ => hex end)
      as [|c1 [|c2 [|c3 [|c4 [|c5 [|c6 [|c7 s]]]]]]]; simpl;
      try (repeat split; lia).
    destruct (Colors.parse_pair c1 c2) as [x|] eqn:E1;
      [|simpl; repeat split; lia].
    destruct (Colors.parse_pair c3 c4) as [y|] eqn:E2;
      [|simpl; repeat split; lia].
    destruct (Colors.parse_pair c5 c6) as [z|] eqn:E3;
      [|simpl; repeat split; lia].
    simpl. apply parse_pair_below in E1, E2, E3. repeat split; assumption.
  - unfold c, Colors.hexToRgb. rewrite groups_uppercase. reflexivity.
  - intro H. unfold c, Colors.hexToRgb. rewrite groups_hash by exact H.
    reflexivity.
Qed.

Lemma lookup_In (palette : list (string * string)) (key c : string) :
  Colors.lookup palette key = Some c -> In c (map snd palette).
Proof.
  unfold Colors.lookup.
  destruct (find _ palette) as [e|] eqn:E; [|discriminate].
  intro H. injection H as <-.
  apply find_some in E. apply in_map, E.
Qed.

Lemma palettes_decode (c : string) :
  In c (map snd Colors.dark) \/ In c (map snd Colors.light) ->
  exists triple, Colors.groups c = Some triple.
Proof.
  intros [H | H]; simpl in H;
    repeat (destruct H as [<- | H]; [eexists; vm_compute; reflexivity|]);
    contradiction.
Qed.

(** X20. [Colors.get] under either theme, for any name that is not a
    member inherited from [Object.prototype], returns a string that
    matches the pattern of [hexToRgb] (a colour of the palette, or the
    default white): decoding it never falls back to black. *)
Theorem palette_colors_decode (data_theme : option string) (name : string) :
  ~ In name Scenario.Object_prototype_keys ->
  exists c triple,
    Colors.get data_theme name = Colors.Str c
    /\ Colors.groups c = Some triple.
Proof.
  intro Hn. unfold Colors.get.
  set (palette := if String.eqb _ _ then Colors.dark else Colors.light).
  assert (Hp : palette = Colors.dark \/ palette = Colors.light).
  { unfold palette. destruct (String.eqb _ _); [left | right]; reflexivity. }
  destruct (Colors.lookup palette name) as [c|] eqn:E.
  - apply lookup_In in E.
    destruct (palettes_decode c) as [t Ht].
    { destruct Hp as [<- | <-]; [left | right]; exact E. }
    exists c, t. split; [reflexivity | exact Ht].
  - destruct (existsb (String.eqb name) Scenario.Object_prototype_keys) eqn:Ex.
    + apply existsb_exists in Ex. destruct Ex as [k [Hk Hek]].
      apply String.eqb_eq in Hek. subst k. contradiction.
    + eexists. eexists. split; [reflexivity | vm_compute; reflexivity].
Qed.

Lemma palette_colors_decode_witness :
  ~ In "attacker"%string Scenario.Object_prototype_keys
  /\ exists c triple,
       Colors.get (Some "dark"%string) "attacker"
       = Colors.Str c
       /\ Colors.groups c = Some triple.
Proof.
  assert (H : ~ In "attacker"%string Scenario.Object_prototype_keys).
  { intro H. simpl in H.
    repeat (destruct H as [H | H]; [discriminate H|]). exact H. }
  split; [exact H | exact (palette_colors_decode _ _ H)].
Defined.
